(** * Bareos: the dedup volume device and the virtual-backup consolidator

    A shallow embedding of
    - [core/src/stored/backends/dedup_file_device.cc] (module [Dedup]) and
    - [core/src/dird/vbackup.cc] (module [Vbackup]),
    with the properties of the specification stated over it. *)

From Stdlib Require Import ZArith NArith List String Ascii Strings.Byte Bool Lia
  ZifyBool.
From stdpp Require Import base tactics option list strings gmap pretty sorting.

Local Open Scope Z_scope.

(** ** Shared helpers *)

(** [slice off len l] is the [len] bytes that [memcpy] reads at [l + off]. *)
Definition slice {A} (off len : Z) (l : list A) : list A :=
  take (Z.to_nat len) (drop (Z.to_nat off) l).

(** Proof steps for functions written as a chain of [let]: the chain is
    walked one binding at a time, so that no state is copied. *)
Ltac case_goal :=
  match goal with
  | |- context [match ?x with _ => _ end] => destruct x eqn:?
  end.

Ltac step_let H x' Hx :=
  lazymatch type of H with
  | (let x := ?v in @?b x) = ?r =>
      remember v as x' eqn:Hx in H;
      change (b x' = r) in H; cbv beta in H
  end.

Ltac step_if H :=
  lazymatch type of H with
  | (if ?c then _ else _) = _ =>
      destruct c eqn:?;
      [first [discriminate H | cbv zeta in H; discriminate H]|]
  end.

Module Dedup.

(** std::numeric_limits<std::uint32_t>::max() *)
Definition UINT32_MAX : Z := 4294967295.

(** [block_number(rfile, rblock)]: both arguments are [uint32_t]. *)
Definition block_number (rfile rblock : Z) : Z :=
  Z.lor (Z.shiftl rfile 32) rblock.

(** DeviceMode of the storage daemon; [kUndefined] stands for every value the
    [switch] of [d_open] sends to its [default] branch. *)
Inductive DeviceMode :=
  | kUndefined
  | CREATE_READ_WRITE
  | OPEN_READ_WRITE
  | OPEN_READ_ONLY
  | OPEN_WRITE_ONLY.

#[global] Instance DeviceMode_eq_dec : EqDecision DeviceMode.
Proof. solve_decision. Defined.

(** *** Descriptors kept by the volume

    The wire headers [dedup::bareos_block_header] and
    [dedup::bareos_record_header] are held as the raw bytes that [memcpy]
    copied; their layout is a parameter of the development (see the section
    below). *)

(** dedup::record_header{record, begin, payload_size, file_index} *)
Record record_header := mk_record_header {
  rec_BareosHeader : list byte;
  rec_start : Z;
  rec_size : Z;
  rec_file_index : Z
}.

(** dedup::block_header{block, start, count} *)
Record block_header := mk_block_header {
  blk_BareosHeader : list byte;
  blk_start : Z;
  blk_count : Z
}.

(** what [append_data] returns *)
Record written_loc := mk_written_loc {
  loc_begin : Z;
  loc_file_index : Z
}.

(** *** The volume store

    Modelled from the spec: [dedup::volume] (dedup/volume.h is not among the
    sources).  Section 3 and 4.1 of the specification: three append-only
    segment streams, [size()] is the number of block descriptors, reads are by
    position and fail out of range, [reset] truncates every segment and keeps
    the configuration, an I/O error marks the volume not-ok and later mutating
    calls fail fast.  [vol_faults] is the answer of the filesystem to the next
    mutating calls ([true] is an I/O error; the empty list is a filesystem
    that never fails). *)
Record volume := mk_volume {
  vol_name : string;
  vol_mode : DeviceMode;
  vol_permissions : Z;
  vol_blocksize : Z;
  vol_ok : bool;
  vol_faults : list bool;
  vol_data : list (list byte);
  vol_records : list record_header;
  vol_blocks : list block_header
}.

Definition set_io (ok : bool) (faults : list bool) (v : volume) : volume :=
  mk_volume (vol_name v) (vol_mode v) (vol_permissions v) (vol_blocksize v)
            ok faults (vol_data v) (vol_records v) (vol_blocks v).

Definition set_data (d : list (list byte)) (v : volume) : volume :=
  mk_volume (vol_name v) (vol_mode v) (vol_permissions v) (vol_blocksize v)
            (vol_ok v) (vol_faults v) d (vol_records v) (vol_blocks v).

Definition set_records (r : list record_header) (v : volume) : volume :=
  mk_volume (vol_name v) (vol_mode v) (vol_permissions v) (vol_blocksize v)
            (vol_ok v) (vol_faults v) (vol_data v) r (vol_blocks v).

Definition set_blocks (b : list block_header) (v : volume) : volume :=
  mk_volume (vol_name v) (vol_mode v) (vol_permissions v) (vol_blocksize v)
            (vol_ok v) (vol_faults v) (vol_data v) (vol_records v) b.

(** Modelled from the spec: the start of every mutating call of
    [dedup::volume].  It fails fast on a volume that is not ok, and an I/O
    error marks the volume not-ok. *)
Definition io_begin (v : volume) : option volume :=
  if vol_ok v then
    match vol_faults v with
    | [] => Some v
    | false :: rest => Some (set_io true rest v)
    | true :: _ => None
    end
  else None.

Definition io_failed (v : volume) : volume :=
  if vol_ok v then set_io false (tail (vol_faults v)) v else v.

(** Modelled from the spec: [volume::is_ok], [name], [get_permissions]. *)
Definition is_ok (v : volume) : bool := vol_ok v.
Definition name (v : volume) : string := vol_name v.
Definition get_permissions (v : volume) : Z := vol_permissions v.

(** Modelled from the spec: [volume::size], the number of block descriptors. *)
Definition size (v : volume) : Z := Z.of_nat (length (vol_blocks v)).

(** Modelled from the spec: [volume::append_data(block, record, payload,
    size)] appends the payload to the active (last) data-segment file and
    returns where it went. *)
Definition append_data (v : volume) (block record : list byte)
    (payload : list byte) : option written_loc * volume :=
  match io_begin v with
  | None => (None, io_failed v)
  | Some v1 =>
      match reverse (vol_data v1) with
      | [] =>
          (Some (mk_written_loc 0 0), set_data [payload] v1)
      | active :: older =>
          (Some (mk_written_loc (Z.of_nat (length active))
                                (Z.of_nat (length older))),
           set_data (reverse older ++ [active ++ payload]) v1)
      end
  end.

(** Modelled from the spec: [volume::append_records(records, count)] appends
    the descriptors contiguously and returns the index of the first. *)
Definition append_records (v : volume) (records : list record_header)
    : option Z * volume :=
  match io_begin v with
  | None => (None, io_failed v)
  | Some v1 =>
      (Some (Z.of_nat (length (vol_records v1))),
       set_records (vol_records v1 ++ records) v1)
  end.

(** Modelled from the spec: [volume::append_block(descriptor)] appends one
    block descriptor. *)
Definition append_block (v : volume) (b : block_header) : bool * volume :=
  match io_begin v with
  | None => (false, io_failed v)
  | Some v1 => (true, set_blocks (vol_blocks v1 ++ [b]) v1)
  end.

(** Modelled from the spec: [volume::read_block(i)], an error for
    [i >= size()]. *)
Definition read_block (v : volume) (blocknum : Z) : option block_header :=
  if blocknum <? 0 then None else vol_blocks v !! Z.to_nat blocknum.

(** Modelled from the spec: [volume::read_records(start, buffer, count)]
    reads [count] consecutive descriptors; an error when they are not all
    there, and then the caller's buffer is left as it was. *)
Definition read_records (v : volume) (start count : Z)
    : option (list record_header) :=
  if (0 <=? start) && (0 <=? count)
     && (start + count <=? Z.of_nat (length (vol_records v)))
  then Some (slice start count (vol_records v))
  else None.

(** Modelled from the spec: [volume::read_data(file_index, begin, size,
    dest)], a positional read from one data-segment file. *)
Definition read_data (v : volume) (file_index start sz : Z)
    : option (list byte) :=
  if file_index <? 0 then None
  else
    match vol_data v !! Z.to_nat file_index with
    | None => None
    | Some f =>
        if (0 <=? start) && (0 <=? sz)
           && (start + sz <=? Z.of_nat (length f))
        then Some (slice start sz f)
        else None
    end.

(** Modelled from the spec: [volume::reset] truncates all segments to zero
    length and keeps the configuration. *)
Definition reset (v : volume) : bool * volume :=
  match io_begin v with
  | None => (false, io_failed v)
  | Some v1 => (true, set_blocks [] (set_records [] (set_data [] v1)))
  end.

(** Modelled from the spec: [volume::flush]. *)
Definition flush (v : volume) : bool * volume :=
  match io_begin v with
  | None => (false, io_failed v)
  | Some v1 => (true, v1)
  end.

(** how many payload bytes the data segments hold, and how many the record
    descriptors account for *)
Definition data_bytes (v : volume) : Z :=
  Z.of_nat (length (concat (vol_data v))).

Definition payload_bytes (records : list record_header) : Z :=
  fold_right (fun r acc => rec_size r + acc) 0 records.

(** the data segments only grow: every file of [d] is there in [d'],
    possibly longer *)
Definition data_le (d d' : list (list byte)) : Prop :=
  forall i f, d !! i = Some f -> exists g, d' !! i = Some (f ++ g).

(** Modelled from the spec: [dedup::util::write_buffer] (not among the
    sources), the cursor over the caller's destination: [write] and [reserve]
    refuse what does not fit between [current] and [end]. *)
Record write_buffer := mk_write_buffer {
  wb_written : list byte;   (* the bytes between [data] and [current] *)
  wb_current : Z;           (* [current - data] *)
  wb_end : Z                (* [end - data] *)
}.

Definition zero_bytes (n : Z) : list byte := replicate (Z.to_nat n) x00.

(** [buf.write(val)] copies the [n = sizeof(val)] bytes of [val]. *)
Definition wb_write (buf : write_buffer) (n : Z) (val : list byte)
    : option write_buffer :=
  if wb_current buf + n >? wb_end buf then None
  else Some (mk_write_buffer (wb_written buf ++ resize (Z.to_nat n) x00 val)
                             (wb_current buf + n) (wb_end buf)).

(** [buf.reserve(n)]: [None] is the null pointer. *)
Definition wb_reserve (buf : write_buffer) (n : Z) : option write_buffer :=
  if wb_current buf + n >? wb_end buf then None
  else Some (mk_write_buffer (wb_written buf) (wb_current buf + n) (wb_end buf)).

(** the bytes [read_data] put at the reserved place *)
Definition wb_fill (buf : write_buffer) (bytes : list byte) : write_buffer :=
  mk_write_buffer (wb_written buf ++ bytes) (wb_current buf) (wb_end buf).

(** *** The codec: scatter and gather *)

Section Codec.

(** The layout of the wire headers ([dedup::bareos_block_header] and
    [dedup::bareos_record_header] are declared outside the sources): their
    sizes, and the two [uint32] fields the codec reads. *)
Variable blockheader_size : Z.
Variable recheader_size : Z.
Variable BlockSize : list byte -> N.
Variable DataSize : list byte -> N.

Hypothesis blockheader_size_pos : 0 < blockheader_size.
Hypothesis recheader_size_pos : 0 < recheader_size.

(** One turn of the [while] loop of [scatter]. *)
Inductive iteration :=
  | BadRecord                       (* "Trying to write bad record!" *)
  | AppendFailed (vol : volume)     (* [!written_loc] *)
  | Appended (rec : record_header) (payload_end : Z) (vol : volume).

Definition scatter_record (vol : volume) (data block : list byte)
    (current end_ : Z) : iteration :=
  if current + recheader_size >? end_ then BadRecord
  else
    let record := slice current recheader_size data in
    let payload_start := current + recheader_size in
    let payload_end := payload_start + Z.of_N (DataSize record) in
    let payload_end := if payload_end >? end_ then end_ else payload_end in
    let payload_size := payload_end - payload_start in
    match append_data vol block record
                      (slice payload_start payload_size data) with
    | (None, vol') => AppendFailed vol'
    | (Some written_loc, vol') =>
        Appended (mk_record_header record (loc_begin written_loc) payload_size
                                   (loc_file_index written_loc))
                 payload_end vol'
    end.

Inductive loop_result :=
  | LoopDone (current : Z) (records : list record_header) (vol : volume)
  | LoopReturn (r : Z) (vol : volume).

(** [while (current != end) { ... }]; [None] when [fuel] turns do not reach
    the end of the loop. *)
Fixpoint scatter_loop (fuel : nat) (vol : volume) (data block : list byte)
    (current end_ : Z) (records : list record_header) : option loop_result :=
  if current =? end_ then Some (LoopDone current records vol)
  else
    match fuel with
    | O => None
    | S fuel' =>
        match scatter_record vol data block current end_ with
        | BadRecord => Some (LoopReturn (-1) vol)
        | AppendFailed vol' => Some (LoopReturn (-1) vol')
        | Appended rec payload_end vol' =>
            scatter_loop fuel' vol' data block payload_end end_
                         (records ++ [rec])
        end
    end.

(** [scatter(vol, data, size)]; [size] is the length of [data].  The result is
    the returned [ssize_t] and the volume as the call leaves it. *)
Definition scatter (vol : volume) (data : list byte) : option (Z * volume) :=
  let size_ := Z.of_nat (length data) in
  if size_ >? UINT32_MAX then Some (-1, vol)
  else if size_ <? blockheader_size then Some (-1, vol)
  else
    let block := slice 0 blockheader_size data in
    let bsize := Z.of_N (BlockSize block) in
    if size_ <? bsize then Some (-1, vol)
    else
      let begin := 0 in
      let current := begin + blockheader_size in
      let end_ := begin + bsize in
      match scatter_loop (S (Z.to_nat bsize)) vol data block current end_ []
      with
      | None => None
      | Some (LoopReturn r vol') => Some (r, vol')
      | Some (LoopDone current records vol1) =>
          match append_records vol1 records with
          | (None, vol2) => Some (-1, vol2)
          | (Some start, vol2) =>
              match append_block vol2
                      (mk_block_header block start
                                       (Z.of_nat (length records))) with
              | (false, vol3) => Some (-1, vol3)
              | (true, vol3) => Some (current - begin, vol3)
              end
          end
      end.

(** What the block in [data] that ends at [end_] holds from [current] on: the
    descriptors of its records in order, each with the length its payload has
    once it is cut at the end of the block, and with that payload readable in
    [vol] at the place the descriptor names. *)
Inductive block_records (vol : volume) (data : list byte) (end_ : Z)
    : Z -> list record_header -> Prop :=
  | block_records_end : block_records vol data end_ end_ []
  | block_records_cons current rec rest :
      current + recheader_size <= end_ ->
      rec_BareosHeader rec = slice current recheader_size data ->
      rec_size rec
      = Z.min (Z.of_N (DataSize (slice current recheader_size data)))
              (end_ - (current + recheader_size)) ->
      read_data vol (rec_file_index rec) (rec_start rec) (rec_size rec)
      = Some (slice (current + recheader_size) (rec_size rec) data) ->
      block_records vol data end_
                    (current + recheader_size + rec_size rec) rest ->
      block_records vol data end_ current (rec :: rest).

(** [std::vector<dedup::record_header> records(count)]: value-initialised. *)
Definition empty_record : record_header :=
  mk_record_header (zero_bytes recheader_size) 0 0 0.

(** the [for] loop of [gather] *)
Fixpoint gather_loop (vol : volume) (records : list record_header)
    (buf : write_buffer) : Z * list byte :=
  match records with
  | [] => (wb_current buf, wb_written buf)
  | record :: rest =>
      match wb_write buf recheader_size (rec_BareosHeader record) with
      | None => (-1, wb_written buf)
      | Some buf1 =>
          match wb_reserve buf1 (rec_size record) with
          | None => (-1, wb_written buf1)      (* read into a null pointer *)
          | Some buf2 =>
              match read_data vol (rec_file_index record) (rec_start record)
                              (rec_size record) with
              | None => (-1, wb_written buf1)
              | Some bytes => gather_loop vol rest (wb_fill buf2 bytes)
              end
          end
      end
  end.

(** [gather(vol, blocknum, data, size)]: the returned [ssize_t] and the bytes
    put into [data]. *)
Definition gather (vol : volume) (blocknum : Z) (size_ : Z) : Z * list byte :=
  let block := read_block vol blocknum in
  let buf := mk_write_buffer [] 0 size_ in
  match block with
  | None => (-1, [])
  | Some block =>
      if Z.of_N (BlockSize (blk_BareosHeader block)) >? size_ then (-1, [])
      else
        match wb_write buf blockheader_size (blk_BareosHeader block) with
        | None => (-1, [])
        | Some buf =>
            let records :=
              replicate (Z.to_nat (blk_count block)) empty_record in
            (* the result of [read_records] is not looked at *)
            let records :=
              match read_records vol (blk_start block)
                                 (Z.of_nat (length records)) with
              | Some read => read
              | None => records
              end in
            gather_loop vol records buf
        end
  end.

End Codec.

(** *** Device options *)

Definition nl : string := String (ascii_of_nat 10) EmptyString.

(** [util::options::options]: the map from key to value, as the list of its
    entries in iteration order. *)
Definition options := list (string * string).

Fixpoint options_find (key : string) (o : options) : option string :=
  match o with
  | [] => None
  | (k, v) :: rest => if String.eqb k key then Some v else options_find key rest
  end.

Fixpoint options_erase (key : string) (o : options) : options :=
  match o with
  | [] => []
  | (k, v) :: rest =>
      if String.eqb k key then rest else (k, v) :: options_erase key rest
  end.

Record dedup_options := mk_dedup_options {
  blocksize : Z;
  warnings : string
}.

Section Options.

(** [util::options::parse_options] (stored/backends/util.h) and
    [size_to_uint64] (lib/edit.h) are declared outside the sources. *)
Variable parse_options : string -> options + string.
Variable size_to_uint64 : string -> option Z.

(** the [for] loop over the options that are left *)
Fixpoint unknown_options (o : options) : string :=
  match o with
  | [] => ""
  | (opt, _) :: rest => (opt ++ " " ++ unknown_options rest)%string
  end.

(** [dedup_options::parse]: [inl] is the options, [inr] the error text. *)
Definition parse (v : string) : dedup_options + string :=
  let result := mk_dedup_options 4096 "" in
  match parse_options v with
  | inr error => inr error
  | inl options =>
      let after_blocksize :=
        match options_find "blocksize" options with
        | Some val =>
            match size_to_uint64 val with
            | None => inr ("bad block size: " ++ val)%string
            | Some blocksize =>
                inl (mk_dedup_options blocksize (warnings result),
                     options_erase "blocksize" options)
            end
        | None =>
            inl (mk_dedup_options (blocksize result)
                   (warnings result
                    ++ "Blocksize was not set explicitly; set to default 4k"
                    ++ nl)%string,
                 options)
        end in
      match after_blocksize with
      | inr error => inr error
      | inl (result, options) =>
          if (0 <? length options)%nat then
            inl (mk_dedup_options (blocksize result)
                   (warnings result ++ "Unknown options: "
                    ++ unknown_options options ++ nl)%string)
          else inl result
      end
  end.

End Options.

(** *** The filesystem under the volumes

    Modelled from the spec: the on-disk layout of section 6 (a volume is a
    directory holding a configuration file, the data-segment files, one
    records file and one blocks file) and the lifecycle of section 3.  The
    volume constructor, its destructor, [SecureErase] and the calls of
    [std::filesystem] are not among the sources. *)
Inductive file_content :=
  | ConfigFile (blocksize : Z)
  | BlocksFile (blocks : list block_header)
  | RecordsFile (records : list record_header)
  | DataFile (bytes : list byte)
  | ForeignFile (erasable : bool)
  | SubDirectory.

Record directory := mk_directory {
  dir_permissions : Z;
  dir_entries : list (string * file_content)
}.

Abbreviation filesystem := (gmap string directory).

Definition is_directory (e : string * file_content) : bool :=
  match snd e with SubDirectory => true | _ => false end.

Definition is_volume_file (e : string * file_content) : bool :=
  match snd e with
  | ConfigFile _ | BlocksFile _ | RecordsFile _ | DataFile _ => true
  | _ => false
  end.

Definition volume_entries (v : volume) : list (string * file_content) :=
  [("config"%string, ConfigFile (vol_blocksize v));
   ("blocks"%string, BlocksFile (vol_blocks v));
   ("records"%string, RecordsFile (vol_records v))]
  ++ imap (fun i d => (("data." ++ pretty i)%string, DataFile d)) (vol_data v).

Definition entry_config (e : string * file_content) : option Z :=
  match snd e with ConfigFile b => Some b | _ => None end.
Definition entry_blocks (e : string * file_content) :=
  match snd e with BlocksFile b => Some b | _ => None end.
Definition entry_records (e : string * file_content) :=
  match snd e with RecordsFile r => Some r | _ => None end.
Definition entry_data (e : string * file_content) :=
  match snd e with DataFile d => Some d | _ => None end.

Definition broken_volume (path : string) (mode : DeviceMode) (perm bs : Z)
    : volume :=
  mk_volume path mode perm bs false [] [] [] [].

(** reading the segments of an existing volume directory *)
Definition load_volume (path : string) (mode : DeviceMode) (perm bs : Z)
    (d : directory) : volume :=
  match head (omap entry_config (dir_entries d)),
        head (omap entry_blocks (dir_entries d)),
        head (omap entry_records (dir_entries d)) with
  | Some conf, Some blocks, Some records =>
      if conf =? bs then
        mk_volume path mode perm conf true [] (omap entry_data (dir_entries d))
                  records blocks
      else broken_volume path mode perm bs          (* ConfigMismatch *)
  | _, _, _ => broken_volume path mode perm bs
  end.

(** Modelled from the spec: the constructor [dedup::volume(path, mode,
    permissions, blocksize)].  Creating writes the configuration and empty
    segments; opening validates the configuration against the request. *)
Definition volume_open (fs : filesystem) (path : string) (mode : DeviceMode)
    (perm bs : Z) : volume * filesystem :=
  match mode, fs !! path with
  | kUndefined, _ => (broken_volume path mode perm bs, fs)
  | CREATE_READ_WRITE, None =>
      let v := mk_volume path mode perm bs true [] [] [] [] in
      (v, <[path := mk_directory perm (volume_entries v)]> fs)
  | _, Some d => (load_volume path mode perm bs d, fs)
  | _, None => (broken_volume path mode perm bs, fs)
  end.

(** Modelled from the spec: the destructor of [dedup::volume], run by
    [open_volume.reset()]: the segments are on disk when the volume is
    closed. *)
Definition volume_close (fs : filesystem) (v : volume) : filesystem :=
  match fs !! vol_name v with
  | Some d =>
      <[vol_name v :=
          mk_directory (dir_permissions d)
            (volume_entries v
             ++ filter (fun e => is_volume_file e = false) (dir_entries d))]> fs
  | None => fs
  end.

(** Modelled from the spec: [SecureErase(jcr, file)] runs the secure-erase
    command on one file of directory [path]; 0 is success. *)
Definition SecureErase (fs : filesystem) (path file : string)
    : Z * filesystem :=
  match fs !! path with
  | None => (-1, fs)
  | Some d =>
      match list_find (fun e => fst e = file) (dir_entries d) with
      | Some (i, (_, ForeignFile false)) => (-1, fs)
      | Some (i, (_, SubDirectory)) => (-1, fs)
      | Some (i, _) =>
          (0, <[path := mk_directory (dir_permissions d)
                                     (delete i (dir_entries d))]> fs)
      | None => (-1, fs)
      end
  end.

(** the loop [for (auto& file : files)] of [delete_volume] *)
Fixpoint erase_files (fs : filesystem) (path : string) (files : list string)
    : bool * filesystem :=
  match files with
  | [] => (true, fs)
  | file :: rest =>
      match SecureErase fs path file with
      | (0, fs') => erase_files fs' path rest
      | (_, fs') => (false, fs')
      end
  end.

(** [delete_volume(jcr, path)]; a [filesystem_error] is caught and gives
    [false]. *)
Definition delete_volume (fs : filesystem) (path : string)
    : bool * filesystem :=
  match fs !! path with
  | None => (false, fs)                 (* the iterator throws *)
  | Some d =>
      if existsb is_directory (dir_entries d) then (false, fs)
      else
        let files := map fst (dir_entries d) in
        match erase_files fs path files with
        | (false, fs') => (false, fs')
        | (true, fs') =>
            match fs' !! path with
            | None => (false, fs')      (* [remove] found nothing *)
            | Some d' =>
                match dir_entries d' with
                | [] => (true, delete path fs')
                | _ :: _ => (false, fs') (* [remove] throws: not empty *)
                end
            end
        end
  end.

(** *** The device facade

    [Emsg0] and [Dmsg] only report and are not part of the model of this
    module; a function that reports with [M_ABORT] returns what its [return]
    statement says. *)

(** What a call of the device does: it returns, the [ASSERT] in it fails, or
    the model of a loop in it ran out of turns. *)
Inductive outcome (A : Type) :=
  | Returns (a : A)
  | AssertFailed
  | OutOfFuel.
Arguments Returns {A} a.
Arguments AssertFailed {A}.
Arguments OutOfFuel {A}.

(** the fields of [me] (the storage daemon's resource) and of
    [device_resource] that the device reads *)
Record StorageResource := mk_StorageResource {
  secure_erase_cmdline : option string
}.

Record DeviceResource := mk_DeviceResource {
  dedup_block_size : Z
}.

Record dedup_file_device := mk_device {
  mounted : bool;
  open_volume : option volume;
  fd_ctr : Z;
  open_mode : DeviceMode;
  dev_options : option string;
  device_resource : DeviceResource;
  file : Z;
  block_num : Z;
  file_addr : Z;
  eot : bool;                 (* the ST_EOT state bit *)
  fd : Z
}.

Definition set_open_volume (o : option volume) (d : dedup_file_device) :=
  mk_device (mounted d) o (fd_ctr d) (open_mode d) (dev_options d)
            (device_resource d) (file d) (block_num d) (file_addr d) (eot d)
            (fd d).

Definition set_fd_ctr (n : Z) (d : dedup_file_device) :=
  mk_device (mounted d) (open_volume d) n (open_mode d) (dev_options d)
            (device_resource d) (file d) (block_num d) (file_addr d) (eot d)
            (fd d).

Definition set_open_mode (m : DeviceMode) (d : dedup_file_device) :=
  mk_device (mounted d) (open_volume d) (fd_ctr d) m (dev_options d)
            (device_resource d) (file d) (block_num d) (file_addr d) (eot d)
            (fd d).

Definition set_position (f b a : Z) (d : dedup_file_device) :=
  mk_device (mounted d) (open_volume d) (fd_ctr d) (open_mode d)
            (dev_options d) (device_resource d) f b a (eot d) (fd d).

Definition set_eot (e : bool) (d : dedup_file_device) :=
  mk_device (mounted d) (open_volume d) (fd_ctr d) (open_mode d)
            (dev_options d) (device_resource d) (file d) (block_num d)
            (file_addr d) e (fd d).

Definition set_fd (n : Z) (d : dedup_file_device) :=
  mk_device (mounted d) (open_volume d) (fd_ctr d) (open_mode d)
            (dev_options d) (device_resource d) (file d) (block_num d)
            (file_addr d) (eot d) n.

Definition SetEot := set_eot true.
Definition ClearEot := set_eot false.

Section Device.

Variable blockheader_size : Z.
Variable recheader_size : Z.
Variable BlockSize : list byte -> N.
Variable DataSize : list byte -> N.
Variable parse_options : string -> options + string.
Variable size_to_uint64 : string -> option Z.

(** [d_open(path, flags, mode)]: the returned descriptor, the device and the
    filesystem. *)
Definition d_open (dev : dedup_file_device) (fs : filesystem) (path : string)
    (mode : Z) : Z * dedup_file_device * filesystem :=
  match open_volume dev with
  | Some _ => (-1, dev, fs)
  | None =>
      match open_mode dev with
      | kUndefined => (-1, dev, fs)
      | _ =>
          match dev_options dev with
          | None => (-1, dev, fs)
          | Some dev_options =>
              match parse parse_options size_to_uint64 dev_options with
              | inr emsg => (-1, dev, fs)
              | inl options =>
                  let '(vol, fs') :=
                    volume_open fs path (open_mode dev) mode
                                (blocksize options) in
                  if is_ok vol then
                    let dev' := set_fd_ctr (fd_ctr dev + 1)
                                  (set_open_volume (Some vol) dev) in
                    (fd_ctr dev', dev', fs')
                  else (-1, set_open_volume None dev, fs')
              end
          end
      end
  end.

(** [d_write(fd, data, size)] *)
Definition d_write (dev : dedup_file_device) (fd : Z) (data : list byte)
    : outcome (Z * dedup_file_device) :=
  if negb (fd =? fd_ctr dev) then Returns (-1, dev)
  else
    match open_volume dev with
    | None => Returns (-1, dev)
    | Some vol =>
        if negb (is_ok vol) then AssertFailed
        else
          let dev := SetEot dev in
          let current_block := block_number (file dev) (block_num dev) in
          let vol :=
            if (current_block =? 0) && (size vol =? 1)
            then snd (reset vol) else vol in
          if negb (current_block =? size vol)
          then Returns (-1, set_open_volume (Some vol) dev)
          else
            match scatter blockheader_size recheader_size BlockSize DataSize
                          vol data with
            | None => OutOfFuel
            | Some (r, vol') => Returns (r, set_open_volume (Some vol') dev)
            end
    end.

(** [d_read(fd, data, size)]: the returned [ssize_t], the bytes put into
    [data], and the device. *)
Definition d_read (dev : dedup_file_device) (fd : Z) (size_ : Z)
    : outcome (Z * list byte * dedup_file_device) :=
  if negb (fd =? fd_ctr dev) then Returns (-1, [], dev)
  else
    match open_volume dev with
    | None => Returns (-1, [], dev)
    | Some vol =>
        if negb (is_ok vol) then AssertFailed
        else
          let block := block_number (file dev) (block_num dev) in
          let '(bytes_written, data) :=
            gather blockheader_size recheader_size BlockSize vol block size_ in
          (* [block + 1] is a [uint64] sum *)
          let dev := if (block + 1) mod 2 ^ 64 =? size vol then SetEot dev
                     else ClearEot dev in
          Returns (bytes_written, data, dev)
    end.

(** [d_close(fd)] *)
Definition d_close (dev : dedup_file_device) (fs : filesystem) (fd : Z)
    : Z * dedup_file_device * filesystem :=
  if negb (fd =? fd_ctr dev) then (-1, dev, fs)
  else
    match open_volume dev with
    | None => (-1, dev, fs)
    | Some vol => (0, set_open_volume None dev, volume_close fs vol)
    end.

(** [d_truncate(dcr)]; the [return -1] of a function returning [bool] is
    [true]. *)
Definition d_truncate (me : StorageResource) (dev : dedup_file_device)
    (fs : filesystem) : outcome (bool * dedup_file_device * filesystem) :=
  match open_volume dev with
  | None => Returns (true, dev, fs)
  | Some vol =>
      if negb (is_ok vol) then AssertFailed
      else
        match secure_erase_cmdline me with
        | None =>
            let '(r, vol') := reset vol in
            Returns (r, set_open_volume (Some vol') dev, fs)
        | Some _ =>
            let volume_path := name vol in
            let perm := get_permissions vol in
            (* close the volume *)
            let fs := volume_close fs vol in
            let dev := set_open_volume None dev in
            (* delete the volume *)
            match delete_volume fs volume_path with
            | (false, fs) => Returns (false, dev, fs)
            | (true, fs) =>
                (* recreate the volume *)
                let dev := set_open_mode CREATE_READ_WRITE dev in
                let '(vol, fs) :=
                  volume_open fs volume_path (open_mode dev) perm
                              (dedup_block_size (device_resource dev)) in
                if negb (is_ok vol)
                then Returns (false, set_fd (-1) (set_open_volume None dev), fs)
                else Returns (true, set_open_volume (Some vol) dev, fs)
            end
        end
  end.

(** [Reposition(dcr, rfile, rblock)] *)
Definition Reposition (dev : dedup_file_device) (rfile rblock : Z)
    : outcome (bool * dedup_file_device) :=
  match open_volume dev with
  | None => Returns (true, dev)
  | Some vol =>
      if negb (is_ok vol) then AssertFailed
      else
        let dev := set_position rfile rblock (file_addr dev) dev in
        let dev := if block_number (file dev) (block_num dev) =? size vol
                   then SetEot dev else ClearEot dev in
        Returns (true, dev)
  end.

(** [eod(dcr)] *)
Definition eod (dev : dedup_file_device) : outcome (bool * dedup_file_device) :=
  match open_volume dev with
  | None => Returns (true, dev)
  | Some vol =>
      if negb (is_ok vol) then AssertFailed
      else
        let block := size vol in
        let dev := set_position (Z.shiftr block 32 mod 2 ^ 32)
                                (block mod 2 ^ 32) (file_addr dev) dev in
        Returns (true, SetEot dev)
  end.

End Device.

(** *** A sequence of blocks *)

Section Sequence.

Variable blockheader_size : Z.
Variable recheader_size : Z.
Variable BlockSize : list byte -> N.
Variable DataSize : list byte -> N.

(** the blocks written one after the other by a caller of [scatter] that
    stops at the first -1 *)
Fixpoint scatter_all (vol : volume) (blocks : list (list byte))
    : option volume :=
  match blocks with
  | [] => Some vol
  | data :: rest =>
      match scatter blockheader_size recheader_size BlockSize DataSize
                    vol data with
      | Some (n, vol') => if n =? -1 then None else scatter_all vol' rest
      | None => None
      end
  end.

End Sequence.

(** *** Mounting, positioning and flushing *)

Definition set_mounted (m : bool) (d : dedup_file_device) :=
  mk_device m (open_volume d) (fd_ctr d) (open_mode d) (dev_options d)
            (device_resource d) (file d) (block_num d) (file_addr d) (eot d)
            (fd d).

(** [MountBackend(dcr, timeout)]: [std::exchange(mounted, true)] *)
Definition MountBackend (dev : dedup_file_device) : bool * dedup_file_device :=
  let was_mounted := mounted dev in
  let dev := set_mounted true dev in
  (negb was_mounted, dev).

(** [UnmountBackend(dcr, timeout)]: [std::exchange(mounted, false)] *)
Definition UnmountBackend (dev : dedup_file_device)
    : bool * dedup_file_device :=
  let was_mounted := mounted dev in
  let dev := set_mounted false dev in
  (was_mounted, dev).

(** [d_ioctl(fd, request, mt_com)] and [d_lseek(dcr, offset, whence)] *)
Definition d_ioctl (dev : dedup_file_device) (fd : Z) : Z := -1.
Definition d_lseek (dev : dedup_file_device) (offset whence : Z) : Z := -1.

(** [UpdatePos(dcr)]: the volume itself is stateless *)
Definition UpdatePos (dev : dedup_file_device) : bool := true.

(** [rewind(dcr)]; the [return -1] of a function returning [bool] is
    [true]. *)
Definition rewind (dev : dedup_file_device)
    : outcome (bool * dedup_file_device) :=
  match open_volume dev with
  | None => Returns (true, dev)
  | Some vol =>
      if negb (is_ok vol) then AssertFailed
      else
        let dev := set_position 0 0 0 dev in
        let dev := if size vol =? 0 then SetEot dev else ClearEot dev in
        Returns (UpdatePos dev, dev)
  end.

(** [d_flush(dcr)] *)
Definition d_flush (dev : dedup_file_device)
    : outcome (bool * dedup_file_device) :=
  match open_volume dev with
  | None => Returns (true, dev)
  | Some vol =>
      if negb (is_ok vol) then AssertFailed
      else
        let '(r, vol') := flush vol in
        Returns (r, set_open_volume (Some vol') dev)
  end.

(** *** Scanning the mount point for a volume *)

(** errno.h *)
Definition EIO : Z := 5.

(** what [ScanForVolumeImpl] looks at in an entry of
    [std::filesystem::directory_iterator] *)
Record directory_entry := mk_directory_entry {
  entry_exists : bool;
  entry_is_directory : bool;
  entry_filename : string       (* [entry.path().filename()] *)
}.

(** the fields of [device_resource] and of the device that the scan reads
    and writes; [VolumeCatalogInfo] (stored/dev.h) is left open *)
Record ScanResource := mk_ScanResource {
  mount_point : option string;
  archive_device_string : string
}.

Record scan_device (VolumeCatalogInfo : Type) := mk_scan_device {
  dev_VolCatInfo : VolumeCatalogInfo;
  dev_errno : Z
}.
Arguments mk_scan_device {VolumeCatalogInfo} _ _.
Arguments dev_VolCatInfo {VolumeCatalogInfo} _.
Arguments dev_errno {VolumeCatalogInfo} _.

(** [dcr]: the volume name and the catalog information of the volume *)
Record DeviceControlRecord (VolumeCatalogInfo : Type) := mk_dcr {
  VolumeName : string;
  dcr_VolCatInfo : VolumeCatalogInfo
}.
Arguments mk_dcr {VolumeCatalogInfo} _ _.
Arguments VolumeName {VolumeCatalogInfo} _.
Arguments dcr_VolCatInfo {VolumeCatalogInfo} _.

(** [bstrncpy(dest, src, maxlen)] (lib/bsys.h) copies at most [maxlen - 1]
    characters. *)
Definition bstrncpy (src : string) (maxlen : nat) : string :=
  substring 0 (maxlen - 1) src.

Section Scan.

Variable VolumeCatalogInfo : Type.

(** [sizeof(dcr->VolumeName)], the entries that the directory iterator gives
    for a path, and the Director's answer to [DirGetVolumeInfo] are outside
    the sources. *)
Variable VolumeName_size : nat.
Variable directory_iterator : string -> list directory_entry.
Variable DirGetVolumeInfo :
  DeviceControlRecord VolumeCatalogInfo
  -> bool * DeviceControlRecord VolumeCatalogInfo.

(** an entry that the loop offers to the Director *)
Definition scan_candidate (entry : directory_entry) : bool :=
  entry_exists entry && entry_is_directory entry
  && negb (String.eqb (entry_filename entry) "."
           || String.eqb (entry_filename entry) "..").

(** the [for] loop over the entries of the mount point: [true] is the
    [return 1] inside the loop *)
Fixpoint scan_entries (entries : list directory_entry)
    (dcr : DeviceControlRecord VolumeCatalogInfo)
    : bool * DeviceControlRecord VolumeCatalogInfo :=
  match entries with
  | [] => (false, dcr)
  | entry :: rest =>
      if negb (entry_exists entry) then scan_entries rest dcr
      else if negb (entry_is_directory entry) then scan_entries rest dcr
      else
        let path := entry_filename entry in
        if String.eqb path "." || String.eqb path ".."
        then scan_entries rest dcr
        else
          let dcr := mk_dcr (bstrncpy path VolumeName_size)
                            (dcr_VolCatInfo dcr) in
          match DirGetVolumeInfo dcr with
          | (false, dcr) => scan_entries rest dcr
          | (true, dcr) => (true, dcr)
          end
  end.

(** [ScanForVolumeImpl(dcr)] *)
Definition ScanForVolumeImpl (resource : ScanResource)
    (dev : scan_device VolumeCatalogInfo)
    (dcr : DeviceControlRecord VolumeCatalogInfo)
    : bool * scan_device VolumeCatalogInfo
      * DeviceControlRecord VolumeCatalogInfo :=
  let mount_point :=
    match mount_point resource with
    | Some m => m
    | None => archive_device_string resource
    end in
  match scan_entries (directory_iterator mount_point) dcr with
  | (true, dcr) =>
      (* This was not the volume we expected, but it is OK with the
         Director, so use it. *)
      (true, mk_scan_device (dcr_VolCatInfo dcr) (dev_errno dev), dcr)
  | (false, dcr) =>
      (* we did not find anything *)
      (false, mk_scan_device (dev_VolCatInfo dev) EIO, dcr)
  end.

End Scan.

End Dedup.

Module Vbackup.

Definition nl : string := Dedup.nl.

(** Job status codes that vbackup.cc names (include/job_status.h). *)
Inductive JobStatus_t :=
  | JS_Created
  | JS_Running
  | JS_WaitSD
  | JS_Terminated
  | JS_Warnings
  | JS_Error
  | JS_FatalError
  | JS_ErrorTerminated
  | JS_Canceled
  | JS_Incomplete.

#[global] Instance JobStatus_eq_dec : EqDecision JobStatus_t.
Proof. solve_decision. Defined.

Inductive msg_type := M_INFO | M_WARNING | M_ERROR | M_FATAL.

#[global] Instance msg_type_eq_dec : EqDecision msg_type.
Proof. solve_decision. Defined.

(** What the job does to the world outside the catalog, in order: the job
    messages, and the calls to the storage daemon and to the other parts of
    the director. *)
Inductive event :=
  | EvJmsg (type : msg_type) (text : string)
  | EvConnectToStorageDaemon
  | EvStartStorageDaemonJob
  | EvSendRun
  | EvStartStorageDaemonMessageThread
  | EvWaitForStorageDaemonTermination
  | EvWriteBatchFileRecords
  | EvWriteBsrFile
  | EvReplicateDeletedFiles (jobids : string)
  | EvPurgeJobsFromCatalog (jobids : string)
  | EvUpdateBootstrapFile
  | EvTerminateStorageDaemon
  | EvGenerateBackupSummary (type : msg_type) (TermMsg : string).

#[global] Instance event_eq_dec : EqDecision event.
Proof. solve_decision. Defined.

(** *** The catalog

    Modelled from the spec: the catalog adapter of section 6 (cats/ is not
    among the sources).  The Job table is the list of its rows; the time
    columns hold the text the database keeps. *)
Record JobRow := mk_JobRow {
  row_JobId : Z;
  row_Type : string;
  row_Level : Z;
  row_ClientId : Z;
  row_FilesetId : Z;
  row_JobStatus : JobStatus_t;
  row_StartTime : string;
  row_EndTime : string;
  row_JobTDate : Z;
  row_JobFiles : Z;
  row_JobBytes : Z;
  row_JobErrors : Z;
  row_PurgedFiles : Z
}.

Abbreviation catalog := (list JobRow).

(** [JobDbRecord], the fields the consolidator touches *)
Record JobDbRecord := mk_JobDbRecord {
  jr_JobId : Z;
  jr_JobLevel : Z;
  jr_JobStatus : JobStatus_t;
  jr_StartTime : Z;
  jr_EndTime : Z;
  jr_cStartTime : string;
  jr_cEndTime : string;
  jr_JobTDate : Z;
  jr_JobFiles : Z;
  jr_JobBytes : Z;
  jr_JobErrors : Z;
  jr_PurgedFiles : Z
}.

(** [JobDbRecord{}] *)
Definition empty_JobDbRecord : JobDbRecord :=
  mk_JobDbRecord 0 0 JS_Created 0 0 "" "" 0 0 0 0 0.

Definition jr_with_JobId (id : Z) (r : JobDbRecord) : JobDbRecord :=
  mk_JobDbRecord id (jr_JobLevel r) (jr_JobStatus r) (jr_StartTime r)
    (jr_EndTime r) (jr_cStartTime r) (jr_cEndTime r) (jr_JobTDate r)
    (jr_JobFiles r) (jr_JobBytes r) (jr_JobErrors r) (jr_PurgedFiles r).

Definition jr_with_JobLevel (l : Z) (r : JobDbRecord) : JobDbRecord :=
  mk_JobDbRecord (jr_JobId r) l (jr_JobStatus r) (jr_StartTime r)
    (jr_EndTime r) (jr_cStartTime r) (jr_cEndTime r) (jr_JobTDate r)
    (jr_JobFiles r) (jr_JobBytes r) (jr_JobErrors r) (jr_PurgedFiles r).

Definition jr_with_start (t tdate : Z) (r : JobDbRecord) : JobDbRecord :=
  mk_JobDbRecord (jr_JobId r) (jr_JobLevel r) (jr_JobStatus r) t
    (jr_EndTime r) (jr_cStartTime r) (jr_cEndTime r) tdate
    (jr_JobFiles r) (jr_JobBytes r) (jr_JobErrors r) (jr_PurgedFiles r).

Definition jr_with_end (id : Z) (st : JobStatus_t) (t files bytes errors : Z)
    (r : JobDbRecord) : JobDbRecord :=
  mk_JobDbRecord id (jr_JobLevel r) st (jr_StartTime r)
    t (jr_cStartTime r) (jr_cEndTime r) (jr_JobTDate r)
    files bytes errors (jr_PurgedFiles r).

(** the first row with this JobId *)
Definition db_find (db : catalog) (id : Z) : option JobRow :=
  List.find (fun r => row_JobId r =? id) db.

(** [UPDATE Job SET ... WHERE JobId = id] *)
Definition db_update (id : Z) (f : JobRow -> JobRow) (db : catalog) : catalog :=
  map (fun r => if row_JobId r =? id then f r else r) db.

Definition row_with_times (start end_ : string) (tdate : Z) (r : JobRow)
    : JobRow :=
  mk_JobRow (row_JobId r) (row_Type r) (row_Level r) (row_ClientId r)
    (row_FilesetId r) (row_JobStatus r) start end_ tdate
    (row_JobFiles r) (row_JobBytes r) (row_JobErrors r) (row_PurgedFiles r).

Definition row_with_end (level : Z) (st : JobStatus_t) (end_ : string)
    (files bytes errors : Z) (r : JobRow) : JobRow :=
  mk_JobRow (row_JobId r) (row_Type r) level (row_ClientId r)
    (row_FilesetId r) st (row_StartTime r) end_ (row_JobTDate r)
    files bytes errors (row_PurgedFiles r).

(** [std::set_difference] on two sorted ranges *)
Fixpoint set_difference (l1 : list string) : list string -> list string :=
  fix inner (l2 : list string) : list string :=
    match l1, l2 with
    | [], _ => []
    | _, [] => l1
    | x :: l1', y :: l2' =>
        if String.ltb x y then x :: set_difference l1' l2
        else if String.ltb y x then inner l2'
        else set_difference l1' l2'
    end.

(** *** class JobConsistencyChecker *)
Record JobConsistencyChecker := mk_cc {
  JobList : list string;
  JobsWithPurgedFiles : list string
}.

Definition col_JobId : nat := 0.
Definition col_Type : nat := 1.
Definition col_ClientId : nat := 2.
Definition col_FilesetId : nat := 3.
Definition col_PurgedFiles : nat := 4.

(** [row[col]] *)
Definition field (row : list string) (col : nat) : string :=
  nth col row EmptyString.

(** [s[0] != '0']; the first character of the empty C string is NUL *)
Definition first_char_not_0 (s : string) : bool :=
  match s with
  | EmptyString => true
  | String c _ => negb (Ascii.eqb c "0")
  end.

(** [operator()(num_fields, row)] *)
Definition cc_call (cc : JobConsistencyChecker) (row : list string)
    : bool * JobConsistencyChecker :=
  let JobList' := JobList cc ++ [field row col_JobId] in
  let purged :=
    if first_char_not_0 (field row col_PurgedFiles)
    then JobsWithPurgedFiles cc ++ [field row col_JobId]
    else JobsWithPurgedFiles cc in
  (true, mk_cc JobList' purged).

Definition CheckNumJobs (cc : JobConsistencyChecker) (t_NumJobs : nat) : bool :=
  Nat.eqb (length (JobList cc)) t_NumJobs.

(** [JobListDiff(FullJobList)] sorts its own [JobList] in place *)
Definition JobListDiff (cc : JobConsistencyChecker) (FullJobList : list string)
    : list string * JobConsistencyChecker :=
  let FullJobList := merge_sort String.le FullJobList in
  let JobList' := merge_sort String.le (JobList cc) in
  (set_difference FullJobList JobList',
   mk_cc JobList' (JobsWithPurgedFiles cc)).

Definition CheckPurgedFiles (cc : JobConsistencyChecker) : bool :=
  match JobsWithPurgedFiles cc with [] => true | _ => false end.

(** [SqlQuery(query, ObjectHandler<decltype(cc)>, &cc)]: the handler is called
    once per row, and a handler that returns [false] stops the iteration. *)
Fixpoint SqlQuery_handler (rows : list (list string))
    (cc : JobConsistencyChecker) : JobConsistencyChecker :=
  match rows with
  | [] => cc
  | row :: rest =>
      match cc_call cc row with
      | (true, cc') => SqlQuery_handler rest cc'
      | (false, cc') => cc'
      end
  end.

(** *** The job control record *)

(** [jcr->impl->res]: what the consolidator reads of the job's resources *)
Record Resources := mk_Resources {
  read_storage_list : bool;               (* the pointer is not null *)
  write_storage_list : bool;
  AlwaysIncremental : bool;
  AlwaysIncrementalJobRetention : Z
}.

(** [jcr->impl] *)
Record JobControlRecordPrivate := mk_impl {
  res : Resources;
  jr : JobDbRecord;
  previous_jr : JobDbRecord;
  vf_jobids : option string;
  ExpectedFiles : Z;
  SDJobStatus : JobStatus_t;
  SDJobFiles : Z;
  SDJobBytes : Z;
  SDErrors : Z;
  SD_msg_chan_started : bool
}.

(** [jcr]; [db] is the Job table behind [jcr->db], [log] what the job has
    done so far. *)
Record JobControlRecord := mk_jcr {
  JobId : Z;
  Job : string;
  JobStatus : JobStatus_t;
  JobFiles : Z;
  JobBytes : Z;
  JobErrors : Z;
  accurate : bool;
  start_time : Z;
  store_bsock : bool;
  impl : JobControlRecordPrivate;
  db : catalog;
  log : list event
}.

Definition set_jr (r : JobDbRecord) (i : JobControlRecordPrivate) :=
  mk_impl (res i) r (previous_jr i) (vf_jobids i) (ExpectedFiles i)
          (SDJobStatus i) (SDJobFiles i) (SDJobBytes i) (SDErrors i)
          (SD_msg_chan_started i).

Definition set_previous_jr (r : JobDbRecord) (i : JobControlRecordPrivate) :=
  mk_impl (res i) (jr i) r (vf_jobids i) (ExpectedFiles i)
          (SDJobStatus i) (SDJobFiles i) (SDJobBytes i) (SDErrors i)
          (SD_msg_chan_started i).

Definition set_ExpectedFiles (n : Z) (i : JobControlRecordPrivate) :=
  mk_impl (res i) (jr i) (previous_jr i) (vf_jobids i) n
          (SDJobStatus i) (SDJobFiles i) (SDJobBytes i) (SDErrors i)
          (SD_msg_chan_started i).

Definition set_SD (st : JobStatus_t) (files bytes errors : Z) (started : bool)
    (i : JobControlRecordPrivate) :=
  mk_impl (res i) (jr i) (previous_jr i) (vf_jobids i) (ExpectedFiles i)
          st files bytes errors started.

Definition set_impl (i : JobControlRecordPrivate) (j : JobControlRecord) :=
  mk_jcr (JobId j) (Job j) (JobStatus j) (JobFiles j) (JobBytes j)
         (JobErrors j) (accurate j) (start_time j) (store_bsock j) i
         (db j) (log j).

Definition set_JobStatus (st : JobStatus_t) (j : JobControlRecord) :=
  mk_jcr (JobId j) (Job j) st (JobFiles j) (JobBytes j)
         (JobErrors j) (accurate j) (start_time j) (store_bsock j) (impl j)
         (db j) (log j).

Definition set_counters (files bytes : Z) (j : JobControlRecord) :=
  mk_jcr (JobId j) (Job j) (JobStatus j) files bytes
         (JobErrors j) (accurate j) (start_time j) (store_bsock j) (impl j)
         (db j) (log j).

Definition set_start_time (t : Z) (j : JobControlRecord) :=
  mk_jcr (JobId j) (Job j) (JobStatus j) (JobFiles j) (JobBytes j)
         (JobErrors j) (accurate j) t (store_bsock j) (impl j)
         (db j) (log j).

Definition set_db (c : catalog) (j : JobControlRecord) :=
  mk_jcr (JobId j) (Job j) (JobStatus j) (JobFiles j) (JobBytes j)
         (JobErrors j) (accurate j) (start_time j) (store_bsock j) (impl j)
         c (log j).

Definition set_log (l : list event) (j : JobControlRecord) :=
  mk_jcr (JobId j) (Job j) (JobStatus j) (JobFiles j) (JobBytes j)
         (JobErrors j) (accurate j) (start_time j) (store_bsock j) (impl j)
         (db j) l.

Definition record (e : event) (j : JobControlRecord) : JobControlRecord :=
  set_log (log j ++ [e]) j.

(** Modelled from the spec: [Jmsg] (lib/message.h) puts the message on the
    job's log. *)
Definition Jmsg (type : msg_type) (text : string) (j : JobControlRecord)
    : JobControlRecord :=
  record (EvJmsg type text) j.

(** What the world outside the director answers during one job. *)
Record Environment := mk_env {
  env_time_run : Z;             (* [time(NULL)] in [DoNativeVbackup] *)
  env_time_end : Z;             (* [time(NULL)] when the job-end row is written *)
  env_strerror : string;        (* [jcr->db->strerror()] *)
  env_AccurateGetJobids : string;
  env_OpenBatchConnection : bool;
  env_GetFileList : bool;
  env_WriteBsrFile : Z;
  env_ConnectToStorageDaemon : bool;
  env_StartStorageDaemonJob : bool;
  env_fsend_run : bool;
  env_StartStorageDaemonMessageThread : bool;
  env_SDJobStatus : JobStatus_t;
  env_SDJobFiles : Z;
  env_SDJobBytes : Z;
  env_SDErrors : Z;
  env_replicate_deleted : bool; (* the INSERT INTO File of the cleanup *)
  env_GetClientRecord : bool
}.

(** [%d] in the format of a message, given a [uint32_t]: the 32 bits are
    printed as an [int] *)
Definition printf_d (n : Z) : string :=
  pretty ((n + 2 ^ 31) mod 2 ^ 32 - 2 ^ 31).

(** the letter of a job status (include/job_status.h) *)
Definition status_char (st : JobStatus_t) : string :=
  match st with
  | JS_Created => "C" | JS_Running => "R" | JS_WaitSD => "S"
  | JS_Terminated => "T" | JS_Warnings => "W" | JS_Error => "e"
  | JS_FatalError => "f" | JS_ErrorTerminated => "E"
  | JS_Canceled => "A" | JS_Incomplete => "I"
  end.

(** the error message that names a job whose files have been purged *)
Definition purged_message (id : string) : event :=
  EvJmsg M_ERROR
    ("Files for JobId " ++ id ++ " have been purged from the catalog" ++ nl)
    %string.

(** the error message that names a job that the catalog does not hold *)
Definition missing_message (id : string) : event :=
  EvJmsg M_ERROR ("JobId " ++ id ++ " is not present in the catalog" ++ nl)
    %string.

(** what every step of the run phase after the fetch of [previous_jr] keeps:
    the job's id, [previous_jr], the resources, and the rows of the catalog
    (a row may change, it does not go away) *)
Definition frame (j j' : JobControlRecord) : Prop :=
  JobId j' = JobId j
  /\ previous_jr (impl j') = previous_jr (impl j)
  /\ res (impl j') = res (impl j)
  /\ (forall id, is_Some (db_find (db j) id) -> is_Some (db_find (db j') id)).

Section Consolidator.

(** Library functions declared outside the sources: [split_string]
    (lib/util.h), [str_to_int64] (lib/edit.h), the two conversions between a
    [time_t] and the text of a time column (lib/btime.h),
    [job_level_to_str], and the status a job has after
    [jcr->setJobStatus(new)] (lib/jcr.h). *)
Variable split_string : string -> ascii -> list string.
Variable str_to_int64 : string -> Z.
Variable bstrutime : Z -> string.
Variable StrToUtime : string -> Z.
Variable job_level_to_str : Z -> string.
Variable status_after : JobStatus_t -> JobStatus_t -> JobStatus_t.

Definition setJobStatus (new : JobStatus_t) (j : JobControlRecord)
    : JobControlRecord :=
  set_JobStatus (status_after (JobStatus j) new) j.

Definition is_JobStatus (st : JobStatus_t) (j : JobControlRecord) : bool :=
  bool_decide (JobStatus j = st).

(** Modelled from the spec: [GetJobRecord(JobDbRecord&)] fills the record from
    the row with its JobId; [None] when there is no such row. *)
Definition GetJobRecord (db : catalog) (r : JobDbRecord) : option JobDbRecord :=
  match db_find db (jr_JobId r) with
  | None => None
  | Some row =>
      Some (mk_JobDbRecord (row_JobId row) (row_Level row) (row_JobStatus row)
              (StrToUtime (row_StartTime row)) (StrToUtime (row_EndTime row))
              (row_StartTime row) (row_EndTime row) (row_JobTDate row)
              (row_JobFiles row) (row_JobBytes row) (row_JobErrors row)
              (row_PurgedFiles row))
  end.

(** Modelled from the spec: [UpdateJobStartRecord] stamps the job-start row
    with the record's start time. *)
Definition UpdateJobStartRecord (db : catalog) (r : JobDbRecord)
    : bool * catalog :=
  (true,
   db_update (jr_JobId r)
     (fun row => row_with_times (bstrutime (jr_StartTime r)) (row_EndTime row)
                                (jr_JobTDate r) row) db).

(** Modelled from the spec: [UpdateJobEnd(jcr, TermCode)] (dird/job.h) sets
    the job's status and writes the job-end row: status, level, end time and
    counters. *)
Definition UpdateJobEnd (env : Environment) (TermCode : JobStatus_t)
    (j : JobControlRecord) : JobControlRecord :=
  let j := setJobStatus TermCode j in
  let r := jr_with_end (JobId j) (JobStatus j) (env_time_end env)
                       (JobFiles j) (JobBytes j) (JobErrors j) (jr (impl j)) in
  let j := set_impl (set_jr r (impl j)) j in
  set_db (db_update (JobId j)
            (row_with_end (jr_JobLevel r) (jr_JobStatus r)
                          (bstrutime (jr_EndTime r)) (jr_JobFiles r)
                          (jr_JobBytes r) (jr_JobErrors r)) (db j)) j.

(** the JobIds a comma separated list names *)
Definition jobids_of (jobids : string) : list Z :=
  map str_to_int64 (split_string jobids ","%char).

Definition render_row (r : JobRow) : list string :=
  [pretty (row_JobId r); row_Type r; pretty (row_ClientId r);
   pretty (row_FilesetId r); pretty (row_PurgedFiles r)].

(** Modelled from the spec: the rows of [SELECT JobId, Type, ClientId,
    FilesetId, PurgedFiles FROM Job WHERE JobId IN (jobids)]. *)
Definition select_jobs (db : catalog) (jobids : string) : list (list string) :=
  map render_row
      (filter (fun r => existsb (Z.eqb (row_JobId r)) (jobids_of jobids) = true)
              db).

(** Modelled from the spec: [PurgeJobsFromCatalog(ua, jobids)] removes the
    consolidated jobs from the catalog. *)
Definition PurgeJobsFromCatalog (jobids : string) (j : JobControlRecord)
    : JobControlRecord :=
  record (EvPurgeJobsFromCatalog jobids)
    (set_db (filter (fun r => existsb (Z.eqb (row_JobId r)) (jobids_of jobids)
                              = false) (db j)) j).

(** [GetVfJobids(jcr)] *)
Definition GetVfJobids (env : Environment) (j : JobControlRecord) : string :=
  match vf_jobids (impl j) with
  | Some ids => ids
  | None => env_AccurateGetJobids env
  end.

(** [CreateBootstrapFile(jcr, jobids)] *)
Definition CreateBootstrapFile (env : Environment) (j : JobControlRecord)
    (jobids : string) : bool * JobControlRecord :=
  if negb (env_OpenBatchConnection env)
  then (false, Jmsg M_FATAL "Can't get batch sql connexion" j)
  else
    let j := if negb (env_GetFileList env)
             then Jmsg M_ERROR (env_strerror env) j else j in
    let j := record EvWriteBsrFile j in
    let j := set_impl (set_ExpectedFiles (env_WriteBsrFile env) (impl j)) j in
    (negb (ExpectedFiles (impl j) =? 0), j).

(** [NativeVbackupCleanup(jcr, TermCode, JobLevel)] *)
Definition NativeVbackupCleanup (env : Environment) (j : JobControlRecord)
    (TermCode : JobStatus_t) (JobLevel : Z) : JobControlRecord :=
  let j :=
    match JobStatus j with
    | JS_Terminated | JS_Warnings =>
        let j := set_impl (set_jr (jr_with_JobLevel JobLevel (jr (impl j)))
                                  (impl j)) j in
        Jmsg M_INFO
          ("Joblevel was set to joblevel of first consolidated job: "
           ++ job_level_to_str JobLevel ++ nl) j
    | _ => j
    end in
  let j := set_counters (SDJobFiles (impl j)) (SDJobBytes (impl j)) j in
  let TermCode :=
    if bool_decide (JobStatus j = JS_Terminated)
       && (negb (JobErrors j =? 0) || negb (SDErrors (impl j) =? 0))
    then JS_Warnings else TermCode in
  let j := UpdateJobEnd env TermCode j in
  (* Update final items to set them to the previous job's values *)
  let j := set_db (db_update (JobId j)
                     (row_with_times (jr_cStartTime (previous_jr (impl j)))
                                     (jr_cEndTime (previous_jr (impl j)))
                                     (jr_JobTDate (previous_jr (impl j))))
                     (db j)) j in
  (* Get the fully updated job record *)
  let j :=
    match GetJobRecord (db j) (jr (impl j)) with
    | Some r => set_impl (set_jr r (impl j)) j
    | None =>
        setJobStatus JS_ErrorTerminated
          (Jmsg M_WARNING ("Error getting Job record for Job report: ERR="
                           ++ env_strerror env ++ nl) j)
    end in
  let j :=
    match vf_jobids (impl j) with
    | Some (String c rest) =>
        let ids := String c rest in
        let j := Jmsg M_INFO ("Replicating deleted files from jobids " ++ ids
                              ++ " to jobid " ++ printf_d (JobId j) ++ nl) j in
        let j := record (EvReplicateDeletedFiles ids) j in
        if negb (env_replicate_deleted env)
        then Jmsg M_WARNING ("Error replicating deleted files: ERR="
                             ++ env_strerror env ++ nl) j
        else j
    | _ => j
    end in
  let j :=
    if negb (env_GetClientRecord env)
    then Jmsg M_WARNING ("Error getting Client record for Job report: ERR="
                         ++ env_strerror env ++ nl) j
    else j in
  let j := record EvUpdateBootstrapFile j in
  let terminate (j : JobControlRecord) :=
    if store_bsock j then record EvTerminateStorageDaemon j else j in
  match JobStatus j with
  | JS_Terminated => record (EvGenerateBackupSummary M_INFO "Backup OK") j
  | JS_Warnings =>
      record (EvGenerateBackupSummary M_INFO "Backup OK -- with warnings") j
  | JS_FatalError | JS_ErrorTerminated =>
      record (EvGenerateBackupSummary M_ERROR "*** Backup Error ***")
             (terminate j)
  | JS_Canceled =>
      record (EvGenerateBackupSummary M_INFO "Backup Canceled") (terminate j)
  | st =>
      record (EvGenerateBackupSummary M_INFO
                ("Inappropriate term code: " ++ status_char st ++ nl)) j
  end.

(** the two loops of [DoNativeVbackup] that report the offending jobs *)
Definition report_missing (missing : list string) (j : JobControlRecord) :=
  fold_left (fun j missing_job =>
               Jmsg M_ERROR ("JobId " ++ missing_job
                             ++ " is not present in the catalog" ++ nl) j)
            missing j.

Definition report_purged (purged : list string) (j : JobControlRecord) :=
  fold_left (fun j purged_files_job =>
               Jmsg M_ERROR ("Files for JobId " ++ purged_files_job
                             ++ " have been purged from the catalog" ++ nl) j)
            purged j.

(** [DoNativeVbackup(jcr)]: the returned [bool] and the job as the call
    leaves it.  The [Dmsg] debug lines and [setJobStarted] (which only starts
    the run-time watchdog) are not part of the model. *)
Definition DoNativeVbackup (env : Environment) (j : JobControlRecord)
    : bool * JobControlRecord :=
  if negb (read_storage_list (res (impl j)))
  then (false, Jmsg M_FATAL ("No storage for reading given." ++ nl) j)
  else if negb (write_storage_list (res (impl j)))
  then (false, Jmsg M_FATAL ("No storage for writing given." ++ nl) j)
  else
  let j := Jmsg M_INFO ("Start Virtual Backup JobId " ++ pretty (JobId j)
                        ++ ", Job=" ++ Job j ++ nl) j in
  let j :=
    if negb (accurate j)
    then Jmsg M_WARNING
           ("This Job is not an Accurate backup so is not equivalent to a Full backup."
            ++ nl) j
    else j in
  let jobids := GetVfJobids env j in
  let jobid_list := split_string jobids ","%char in
  match jobid_list with
  | [] => (false, Jmsg M_FATAL ("No previous Jobs found." ++ nl) j)
  | front :: _ =>
  let cc := SqlQuery_handler (select_jobs (db j) jobids) (mk_cc [] []) in
  if negb (CheckNumJobs cc (length jobid_list)) then
    let j := report_missing (fst (JobListDiff cc jobid_list)) j in
    (false, Jmsg M_FATAL ("Jobs missing from catalog. Cannot continue." ++ nl) j)
  else if negb (CheckPurgedFiles cc) then
    let j := report_purged (JobsWithPurgedFiles cc) j in
    (false, Jmsg M_FATAL
              ("At least one job's files were pruned from the catalog." ++ nl) j)
  else
  (* Find first Jobid, get the db record and find its level *)
  let tmp_jr := jr_with_JobId (str_to_int64 front) empty_JobDbRecord in
  match GetJobRecord (db j) tmp_jr with
  | None => (false, Jmsg M_FATAL ("Error getting Job record for first Job: ERR="
                                  ++ env_strerror env ++ nl) j)
  | Some tmp_jr =>
  let JobLevel_of_first_job := jr_JobLevel tmp_jr in
  (* the newest job that ran goes to previous_jr *)
  let j := set_impl
             (set_previous_jr
                (jr_with_JobId (str_to_int64 (List.last jobid_list front))
                               empty_JobDbRecord) (impl j)) j in
  match GetJobRecord (db j) (previous_jr (impl j)) with
  | None => (false, Jmsg M_FATAL
                      ("Error getting Job record for previous Job: ERR="
                       ++ env_strerror env ++ nl) j)
  | Some prev =>
  let j := set_impl (set_previous_jr prev (impl j)) j in
  match CreateBootstrapFile env j jobids with
  | (false, j) => (false, Jmsg M_FATAL ("Could not create bootstrap file" ++ nl) j)
  | (true, j) =>
  let j := Jmsg M_INFO ("Consolidating JobIds " ++ jobids ++ " containing "
                        ++ printf_d (ExpectedFiles (impl j)) ++ " files" ++ nl)
                j in
  let j := setJobStatus JS_WaitSD j in
  (* Start conversation with Storage daemon *)
  let j := record EvConnectToStorageDaemon j in
  if negb (env_ConnectToStorageDaemon env) then (false, j) else
  (* Now start a job with the Storage daemon *)
  let j := record EvStartStorageDaemonJob j in
  if negb (env_StartStorageDaemonJob env) then (false, j) else
  let j := set_start_time (env_time_run env) j in
  let j := set_impl (set_jr (jr_with_start (start_time j) (start_time j)
                                           (jr (impl j))) (impl j)) j in
  let j := setJobStatus JS_Running j in
  (* Update job start record *)
  match UpdateJobStartRecord (db j) (jr (impl j)) with
  | (false, db') => (false, Jmsg M_FATAL (env_strerror env) (set_db db' j))
  | (true, db') =>
  let j := set_db db' j in
  let j := record EvSendRun j in
  if negb (env_fsend_run env) then (false, j) else
  (* Now start a Storage daemon message thread *)
  let j := record EvStartStorageDaemonMessageThread j in
  if negb (env_StartStorageDaemonMessageThread env) then (false, j) else
  let j := setJobStatus JS_Running j in
  (* Pickup Job termination data *)
  let j := record EvWaitForStorageDaemonTermination j in
  let j := set_impl (set_SD (env_SDJobStatus env) (env_SDJobFiles env)
                            (env_SDJobBytes env) (env_SDErrors env) true
                            (impl j)) j in
  let j := setJobStatus (SDJobStatus (impl j)) j in
  let j := record EvWriteBatchFileRecords j in
  if negb (is_JobStatus JS_Terminated j) then (false, j) else
  let j := NativeVbackupCleanup env j (JobStatus j) JobLevel_of_first_job in
  (* Remove the successfully consolidated jobids from the database *)
  let j :=
    if AlwaysIncremental (res (impl j))
       && negb (AlwaysIncrementalJobRetention (res (impl j)) =? 0)
    then
      Jmsg M_INFO ("purged JobIds " ++ jobids
                   ++ " as they were consolidated into Job "
                   ++ pretty (JobId j) ++ nl)
           (PurgeJobsFromCatalog jobids j)
    else j in
  (true, j)
  end end end end end.

End Consolidator.

End Vbackup.

(** ** Concrete instances

    A layout of the wire headers and simple versions of the library functions
    that the sources only declare; the examples below run on them. *)
Module Instances.

Definition byte_of (n : Z) : byte :=
  default x00 (Byte.of_N (Z.to_N (n mod 256))).

(** a [uint32] in network byte order *)
Definition be32 (n : Z) : list byte :=
  [byte_of (n / 16777216); byte_of (n / 65536); byte_of (n / 256); byte_of n].

Definition decode_be32 (l : list byte) : N :=
  fold_left (fun acc b => (acc * 256 + Byte.to_N b)%N) (take 4 l) 0%N.

(** CheckSum, BlockSize, BlockNumber, ID, VolSessionId, VolSessionTime *)
Definition blockheader_size : Z := 24.
(** FileIndex, Stream, DataSize *)
Definition recheader_size : Z := 12.
Definition BlockSize (h : list byte) : N := decode_be32 (drop 4 h).
Definition DataSize (h : list byte) : N := decode_be32 (drop 8 h).

Definition block_hdr (bsize : Z) : list byte :=
  be32 0 ++ be32 bsize ++ be32 0 ++ be32 0 ++ be32 0 ++ be32 0.
Definition record_hdr (dsize : Z) : list byte :=
  be32 1 ++ be32 1 ++ be32 dsize.

(** tokens of [s] separated by [delim], as [std::getline] gives them *)
Fixpoint split_on (delim : ascii) (cur : string) (s : string) : list string :=
  match s with
  | EmptyString =>
      match cur with EmptyString => [] | _ => [String.rev cur] end
  | String c rest =>
      if Ascii.eqb c delim then String.rev cur :: split_on delim "" rest
      else split_on delim (String c cur) rest
  end.

Definition split_string (s : string) (delim : ascii) : list string :=
  split_on delim "" s.

Definition digit_of (c : ascii) : option Z :=
  let n := Z.of_nat (nat_of_ascii c) in
  if (48 <=? n) && (n <=? 57) then Some (n - 48) else None.

Fixpoint digits_value (acc : Z) (s : string) : Z * string :=
  match s with
  | EmptyString => (acc, EmptyString)
  | String c rest =>
      match digit_of c with
      | Some d => digits_value (10 * acc + d) rest
      | None => (acc, s)
      end
  end.

Definition str_to_int64 (s : string) : Z :=
  match s with
  | String "-" rest => - fst (digits_value 0 rest)
  | _ => fst (digits_value 0 s)
  end.

Definition size_to_uint64 (s : string) : option Z :=
  match s with
  | EmptyString => None
  | String c _ =>
      match digit_of c, digits_value 0 s with
      | None, _ => None
      | Some _, (n, EmptyString) => Some n
      | Some _, (n, String u EmptyString) =>
          if Ascii.eqb u "k" || Ascii.eqb u "K" then Some (n * 1024)
          else if Ascii.eqb u "m" || Ascii.eqb u "M" then Some (n * 1048576)
          else if Ascii.eqb u "g" || Ascii.eqb u "G" then Some (n * 1073741824)
          else None
      | Some _, _ => None
      end
  end.

(** a comma separated list of [key=value] *)
Definition key_value (s : string) : option (string * string) :=
  match split_on "=" "" s with
  | [k; v] => Some (k, v)
  | _ => None
  end.

Definition parse_options (s : string) : Dedup.options + string :=
  match mapM key_value (split_on "," "" s) with
  | Some o => inl o
  | None => inr ("bad option string: " ++ s)%string
  end.

Definition bstrutime (t : Z) : string := pretty t.
Definition StrToUtime (s : string) : Z := str_to_int64 s.
Definition job_level_to_str (l : Z) : string := pretty l.
Definition status_after (old new : Vbackup.JobStatus_t) : Vbackup.JobStatus_t :=
  new.

(** *** Example volumes, blocks and devices *)

Definition payload (n : nat) : list byte :=
  map (fun i => byte_of (Z.of_nat i)) (seq 0 n).

Definition empty_volume : Dedup.volume :=
  Dedup.mk_volume "vol" Dedup.CREATE_READ_WRITE 416 4096 true [] [] [] [].

(** a block of 48 bytes: the block header, one record header, 12 bytes *)
Definition one_record_block : list byte :=
  block_hdr 48 ++ record_hdr 12 ++ payload 12.

(** a block of 64 bytes whose only record declares 1000000 bytes *)
Definition truncated_block : list byte :=
  block_hdr 64 ++ record_hdr 1000000 ++ payload 28.

Definition scatter_to (v : Dedup.volume) (data : list byte) : Dedup.volume :=
  match Dedup.scatter blockheader_size recheader_size BlockSize DataSize
                      v data with
  | Some (_, v') => v'
  | None => v
  end.

(** the volume after its first block (the label) has been written *)
Definition labelled_volume : Dedup.volume :=
  Eval vm_compute in scatter_to empty_volume one_record_block.

Definition truncated_volume : Dedup.volume :=
  Eval vm_compute in scatter_to empty_volume truncated_block.

(** a block of 40 bytes at the start of a buffer of 60: its only record
    declares 1000000 bytes, 4 of them are inside the block and 24 in the
    buffer *)
Definition cut_block : list byte :=
  block_hdr 40 ++ record_hdr 1000000 ++ payload 24.

Definition cut_volume : Dedup.volume :=
  Eval vm_compute in scatter_to empty_volume cut_block.

(** a volume of three blocks *)
Definition three_block_volume : Dedup.volume :=
  Eval vm_compute in
    scatter_to (scatter_to labelled_volume one_record_block) truncated_block.

(** a volume whose block descriptor points at record descriptors that the
    records segment does not hold (the records file was cut short) *)
Definition lost_records_volume : Dedup.volume :=
  Dedup.mk_volume "vol" Dedup.OPEN_READ_ONLY 416 4096 true []
    [[]] [] [Dedup.mk_block_header (block_hdr 36) 7 1].

Definition device_with (v : option Dedup.volume) (file block_num : Z)
    : Dedup.dedup_file_device :=
  Dedup.mk_device true v 1 Dedup.OPEN_READ_WRITE (Some "blocksize=4k"%string)
                  (Dedup.mk_DeviceResource 4096) file block_num 0 false 1.

(** a device configured with [Device Options = blocksize=8k] whose resource
    has the block size 4096, before any volume is open, and the storage
    daemon's resource with and without a secure-erase command *)
Definition fresh_device : Dedup.dedup_file_device :=
  Dedup.mk_device true None 0 Dedup.CREATE_READ_WRITE
                  (Some "blocksize=8k"%string)
                  (Dedup.mk_DeviceResource 4096) 0 0 0 false (-1).

Definition me_secure_erase : Dedup.StorageResource :=
  Dedup.mk_StorageResource (Some "/usr/bin/shred -u %p"%string).

Definition me_plain : Dedup.StorageResource :=
  Dedup.mk_StorageResource None.

(** the volume of three blocks on a filesystem that fails the next write,
    the device that has it open with the cursor at (0,1), and that device
    after a [d_truncate] without a secure-erase command *)
Definition failing_volume : Dedup.volume :=
  Eval vm_compute in Dedup.set_io true [true] three_block_volume.

Definition failing_device : Dedup.dedup_file_device :=
  device_with (Some failing_volume) 0 1.

Definition failed_device : Dedup.dedup_file_device :=
  Eval vm_compute in
    match Dedup.d_truncate me_plain failing_device ∅ with
    | Dedup.Returns (_, d, _) => d
    | _ => failing_device
    end.

(** the device with the labelled volume open and the cursor at (0,0), and
    what [d_write] of a new block makes of it *)
Definition relabel_device : Dedup.dedup_file_device :=
  device_with (Some labelled_volume) 0 0.

Definition relabelled_device : Dedup.dedup_file_device :=
  Eval vm_compute in
    match Dedup.d_write blockheader_size recheader_size BlockSize DataSize
                        relabel_device 1 truncated_block with
    | Dedup.Returns (_, d) => d
    | _ => relabel_device
    end.

(** [fresh_device] after [d_open] of a new volume, and the filesystem then *)
Definition opened_device : Dedup.dedup_file_device :=
  Eval vm_compute in
    (Dedup.d_open parse_options size_to_uint64 fresh_device ∅
                  "/srv/vol1" 416).1.2.

Definition opened_filesystem : gmap string Dedup.directory :=
  (Dedup.d_open parse_options size_to_uint64 fresh_device ∅
                "/srv/vol1" 416).2.

(** *** Example catalogs and jobs *)

(** levels: 70 is 'F' (full), 73 is 'I' (incremental), 102 is 'f' (virtual
    full) *)
Definition job_row (id level : Z) (start end_ : string) (tdate purged : Z)
    : Vbackup.JobRow :=
  Vbackup.mk_JobRow id "B" level 1 1 Vbackup.JS_Terminated start end_ tdate
                    10 1000 0 purged.

(** the chain 100, 101, 102 and the synthetic job 200 *)
Definition chain_catalog : Vbackup.catalog :=
  [job_row 100 70 "1672531200" "1672534800" 1672531200 0;
   job_row 101 73 "1672617600" "1672621200" 1672617600 0;
   job_row 102 73 "1672704000" "1672707600" 1672704000 0;
   job_row 200 102 "1672790400" "" 1672790400 0].

(** the same with the files of job 101 purged *)
Definition purged_catalog : Vbackup.catalog :=
  [job_row 100 70 "1672531200" "1672534800" 1672531200 0;
   job_row 101 73 "1672617600" "1672621200" 1672617600 1;
   job_row 102 73 "1672704000" "1672707600" 1672704000 0;
   job_row 200 102 "1672790400" "" 1672790400 0].

(** job 101 purged and job 102 not in the catalog *)
Definition purged_and_missing_catalog : Vbackup.catalog :=
  [job_row 100 70 "1672531200" "1672534800" 1672531200 0;
   job_row 101 73 "1672617600" "1672621200" 1672617600 1;
   job_row 200 102 "1672790400" "" 1672790400 0].

(** a world in which every call succeeds and the storage daemon ends the job
    with [status] *)
Definition example_env (status : Vbackup.JobStatus_t) : Vbackup.Environment :=
  Vbackup.mk_env 1672790500 1672790600 "catalog error" "" true true 30
                 true true true true status 30 3000 0 true true.

(** the synthetic job 200 consolidating 100, 101, 102 *)
Definition example_jcr (db : Vbackup.catalog) : Vbackup.JobControlRecord :=
  Vbackup.mk_jcr 200 "consolidate.2023-01-04" Vbackup.JS_Running 0 0 0 true
    1672790400 true
    (Vbackup.mk_impl
       (Vbackup.mk_Resources true true false 0)
       (Vbackup.jr_with_JobLevel 102
          (Vbackup.jr_with_JobId 200 Vbackup.empty_JobDbRecord))
       Vbackup.empty_JobDbRecord (Some "100,101,102"%string) 0
       Vbackup.JS_Created 0 0 0 false)
    db [].

Definition run (env : Vbackup.Environment) (j : Vbackup.JobControlRecord)
    : bool * Vbackup.JobControlRecord :=
  Vbackup.DoNativeVbackup split_string str_to_int64 bstrutime StrToUtime
                          job_level_to_str status_after env j.

Definition cleanup (env : Vbackup.Environment) (j : Vbackup.JobControlRecord)
    (TermCode : Vbackup.JobStatus_t) (JobLevel : Z)
    : Vbackup.JobControlRecord :=
  Vbackup.NativeVbackupCleanup bstrutime StrToUtime job_level_to_str
                               status_after env j TermCode JobLevel.

(** the job 200 as the run phase leaves it when the storage daemon ends the
    job with the status Warnings *)
Definition warnings_end_state : Vbackup.JobControlRecord :=
  Eval vm_compute in
    (run (example_env Vbackup.JS_Warnings) (example_jcr chain_catalog)).2.

(** *** Further examples *)

(** the labelled volume with a second block, and a block that is its block
    header alone *)
Definition two_block_volume : Dedup.volume :=
  Eval vm_compute in scatter_to labelled_volume one_record_block.

Definition header_only_block : list byte := block_hdr 24.

(** the filesystem of [opened_device] with a file in the directory of the
    volume that the secure-erase command cannot erase *)
Definition guarded_filesystem : gmap string Dedup.directory :=
  <["/srv/vol1"%string :=
      Dedup.mk_directory 416 [("lock"%string, Dedup.ForeignFile false)]]>
    opened_filesystem.

(** the mount point /srv: a file, the two dot entries and three volume
    directories, of which the Director knows the last two *)
Definition directory_iterator (path : string) : list Dedup.directory_entry :=
  if String.eqb path "/srv" then
    [Dedup.mk_directory_entry true false "README";
     Dedup.mk_directory_entry true true ".";
     Dedup.mk_directory_entry true true "..";
     Dedup.mk_directory_entry true true "vol1";
     Dedup.mk_directory_entry true true "vol2";
     Dedup.mk_directory_entry true true "vol3"]
  else [].

Definition director_accepts (name : string) : bool :=
  String.eqb name "vol2" || String.eqb name "vol3".

Definition DirGetVolumeInfo (dcr : Dedup.DeviceControlRecord string)
    : bool * Dedup.DeviceControlRecord string :=
  if director_accepts (Dedup.VolumeName dcr)
  then (true, Dedup.mk_dcr (Dedup.VolumeName dcr)
                           ("catalog entry of " ++ Dedup.VolumeName dcr)%string)
  else (false, dcr).

Definition scan_resource : Dedup.ScanResource :=
  Dedup.mk_ScanResource None "/srv".

End Instances.

(** * Properties *)

(** ** Slices *)

Lemma length_slice {A} (off len : Z) (l : list A) :
  0 <= off -> 0 <= len -> off + len <= Z.of_nat (length l) ->
  Z.of_nat (length (slice off len l)) = len.
Proof.
  intros Hoff Hlen Hfit. unfold slice.
  rewrite length_take, length_drop. lia.
Qed.

Lemma slice_app_l {A} (off len : Z) (l k : list A) :
  0 <= off -> 0 <= len -> off + len <= Z.of_nat (length l) ->
  slice off len (l ++ k) = slice off len l.
Proof.
  intros Hoff Hlen Hfit. unfold slice.
  rewrite drop_app_le by lia. apply take_app_le.
  rewrite length_drop. lia.
Qed.

Lemma slice_app_r {A} (len : Z) (l k : list A) :
  len = Z.of_nat (length k) ->
  slice (Z.of_nat (length l)) len (l ++ k) = k.
Proof.
  intros ->. unfold slice. rewrite !Nat2Z.id, drop_app_length.
  apply firstn_all.
Qed.

Lemma slice_slice_app {A} (off n m : Z) (l : list A) :
  0 <= off -> 0 <= n -> 0 <= m ->
  slice off n l ++ slice (off + n) m l = slice off (n + m) l.
Proof.
  intros Hoff Hn Hm. unfold slice.
  replace (Z.to_nat (off + n)) with (Z.to_nat off + Z.to_nat n)%nat by lia.
  rewrite <- drop_drop, take_take_drop. f_equal. lia.
Qed.

Lemma slice_0_app {A} (n m : Z) (l : list A) :
  0 <= n -> 0 <= m -> slice 0 n l ++ slice n m l = slice 0 (n + m) l.
Proof. intros. by rewrite <- (slice_slice_app 0) by lia. Qed.

(** ** The volume store *)

Module DedupFacts.
Import Dedup.

Lemma io_begin_Some v v1 :
  io_begin v = Some v1 ->
  vol_ok v = true /\ vol_ok v1 = true /\ vol_data v1 = vol_data v
  /\ vol_records v1 = vol_records v /\ vol_blocks v1 = vol_blocks v
  /\ vol_name v1 = vol_name v /\ vol_permissions v1 = vol_permissions v
  /\ vol_blocksize v1 = vol_blocksize v.
Proof.
  unfold io_begin. destruct (vol_ok v) eqn:Hok; [|discriminate].
  destruct (vol_faults v) as [|[] rest]; intros [= <-]; simpl; auto 10.
Qed.

Lemma io_failed_segments v :
  vol_data (io_failed v) = vol_data v
  /\ vol_records (io_failed v) = vol_records v
  /\ vol_blocks (io_failed v) = vol_blocks v.
Proof. unfold io_failed. destruct (vol_ok v); simpl; auto. Qed.

Lemma data_le_refl d : data_le d d.
Proof. intros i f Hf. exists []. by rewrite app_nil_r. Qed.

Lemma data_le_trans d1 d2 d3 : data_le d1 d2 -> data_le d2 d3 -> data_le d1 d3.
Proof.
  intros H12 H23 i f Hf.
  destruct (H12 i f Hf) as [g Hg]. destruct (H23 i _ Hg) as [h Hh].
  exists (g ++ h). by rewrite app_assoc.
Qed.

Lemma read_data_mono v v' file_index start sz x :
  data_le (vol_data v) (vol_data v') ->
  read_data v file_index start sz = Some x ->
  read_data v' file_index start sz = Some x.
Proof.
  intros Hle. unfold read_data.
  destruct (file_index <? 0); [done|].
  destruct (vol_data v !! Z.to_nat file_index) as [f|] eqn:Hf; [|done].
  destruct (Hle _ _ Hf) as [g ->].
  destruct ((0 <=? start) && (0 <=? sz) && (start + sz <=? Z.of_nat (length f)))
    eqn:Hin; [|done].
  apply andb_true_iff in Hin as [Hin H3]. apply andb_true_iff in Hin as [H1 H2].
  apply Z.leb_le in H1, H2, H3.
  intros [= <-].
  replace ((0 <=? start) && (0 <=? sz)
           && (start + sz <=? Z.of_nat (length (f ++ g)))) with true.
  - by rewrite slice_app_l.
  - symmetry. rewrite length_app. apply andb_true_iff; split;
      [apply andb_true_iff; split|]; apply Z.leb_le; lia.
Qed.

Lemma append_data_segments v block record payload :
  vol_records (append_data v block record payload).2 = vol_records v
  /\ vol_blocks (append_data v block record payload).2 = vol_blocks v.
Proof.
  unfold append_data. destruct (io_begin v) as [v1|] eqn:Hio; simpl.
  - apply io_begin_Some in Hio as (_ & _ & _ & Hr & Hb & _).
    destruct (reverse (vol_data v1)); simpl; auto.
  - pose proof (io_failed_segments v). tauto.
Qed.

Lemma append_data_le v block record payload :
  data_le (vol_data v) (vol_data (append_data v block record payload).2).
Proof.
  unfold append_data. destruct (io_begin v) as [v1|] eqn:Hio; simpl.
  - apply io_begin_Some in Hio as (_ & _ & Hd & _).
    destruct (reverse (vol_data v1)) as [|active older] eqn:Hrev; simpl.
    + apply (f_equal reverse) in Hrev. rewrite reverse_involutive in Hrev.
      rewrite <- Hd, Hrev. intros i f Hf. by destruct i.
    + apply (f_equal reverse) in Hrev. rewrite reverse_involutive in Hrev.
      rewrite reverse_cons in Hrev. rewrite <- Hd, Hrev.
      intros i f Hf.
      destruct (decide (i < length (reverse older))%nat) as [Hlt|Hge].
      * exists []. rewrite lookup_app_l in Hf |- * by done.
        by rewrite app_nil_r.
      * rewrite lookup_app_r in Hf |- * by lia.
        destruct (i - length (reverse older))%nat; simpl in *; [|done].
        injection Hf as <-. by exists payload.
  - destruct (io_failed_segments v) as (-> & _). apply data_le_refl.
Qed.

Lemma read_data_at v (i : nat) pre payload post :
  vol_data v !! i = Some (pre ++ payload ++ post) ->
  read_data v (Z.of_nat i) (Z.of_nat (length pre)) (Z.of_nat (length payload))
  = Some payload.
Proof.
  intros Hf. unfold read_data.
  replace (Z.of_nat i <? 0) with false by lia.
  rewrite Nat2Z.id, Hf.
  replace ((0 <=? Z.of_nat (length pre)) && (0 <=? Z.of_nat (length payload))
           && (Z.of_nat (length pre) + Z.of_nat (length payload)
               <=? Z.of_nat (length (pre ++ payload ++ post)))) with true
    by (rewrite !length_app; lia).
  f_equal. unfold slice. rewrite !Nat2Z.id, drop_app_length.
  apply take_app_length.
Qed.

(** the payload is where [append_data] says it put it *)
Lemma append_data_stored v block record payload loc v' :
  append_data v block record payload = (Some loc, v') ->
  read_data v' (loc_file_index loc) (loc_begin loc)
            (Z.of_nat (length payload)) = Some payload.
Proof.
  unfold append_data. destruct (io_begin v) as [v1|]; [|done].
  destruct (reverse (vol_data v1)) as [|active older] eqn:Hrev;
    intros [= <- <-]; simpl.
  - apply (read_data_at _ 0 [] payload []). simpl. by rewrite app_nil_r.
  - apply (read_data_at _ _ active payload []). simpl.
    rewrite lookup_app_r by (rewrite length_reverse; lia).
    rewrite length_reverse, Nat.sub_diag. simpl. by rewrite app_nil_r.
Qed.

Lemma append_data_bytes v block record payload loc v' :
  append_data v block record payload = (Some loc, v') ->
  data_bytes v' = data_bytes v + Z.of_nat (length payload).
Proof.
  unfold append_data, data_bytes.
  destruct (io_begin v) as [v1|] eqn:Hio; [|done].
  apply io_begin_Some in Hio as (_ & _ & Hd & _).
  destruct (reverse (vol_data v1)) as [|active older] eqn:Hrev;
    intros [= <- <-]; simpl;
    apply (f_equal reverse) in Hrev; rewrite reverse_involutive in Hrev;
    rewrite <- Hd, Hrev.
  - simpl. rewrite app_nil_r. lia.
  - rewrite reverse_cons, !concat_app. simpl.
    rewrite !app_nil_r, !length_app. lia.
Qed.

Lemma payload_bytes_app l k :
  payload_bytes (l ++ k) = payload_bytes l + payload_bytes k.
Proof. induction l as [|r l IH]; simpl; [done|]. rewrite IH. lia. Qed.

Lemma append_records_ok v records start v' :
  append_records v records = (Some start, v') ->
  start = Z.of_nat (length (vol_records v))
  /\ vol_records v' = vol_records v ++ records
  /\ vol_blocks v' = vol_blocks v /\ vol_data v' = vol_data v.
Proof.
  unfold append_records. destruct (io_begin v) as [v1|] eqn:Hio; [|done].
  apply io_begin_Some in Hio as (_ & _ & Hd & Hr & Hb & _).
  intros [= <- <-]; simpl. rewrite Hr, Hb, Hd. auto.
Qed.

Lemma append_records_blocks v records :
  vol_blocks (append_records v records).2 = vol_blocks v.
Proof.
  unfold append_records. destruct (io_begin v) as [v1|] eqn:Hio; simpl.
  - by apply io_begin_Some in Hio as (_ & _ & _ & _ & Hb & _).
  - apply io_failed_segments.
Qed.

Lemma append_block_ok v b v' :
  append_block v b = (true, v') ->
  vol_blocks v' = vol_blocks v ++ [b]
  /\ vol_records v' = vol_records v /\ vol_data v' = vol_data v.
Proof.
  unfold append_block. destruct (io_begin v) as [v1|] eqn:Hio; [|done].
  apply io_begin_Some in Hio as (_ & _ & Hd & Hr & Hb & _).
  intros [= <-]; simpl. rewrite Hr, Hb, Hd. auto.
Qed.

Lemma append_block_failed v b v' :
  append_block v b = (false, v') -> vol_blocks v' = vol_blocks v.
Proof.
  unfold append_block. destruct (io_begin v) as [v1|] eqn:Hio; [done|].
  intros [= <-]. apply io_failed_segments.
Qed.

Lemma reset_ok v v' :
  reset v = (true, v') ->
  vol_ok v' = true /\ vol_blocks v' = [] /\ vol_records v' = []
  /\ vol_data v' = [] /\ vol_name v' = vol_name v
  /\ vol_permissions v' = vol_permissions v
  /\ vol_blocksize v' = vol_blocksize v.
Proof.
  unfold reset. destruct (io_begin v) as [v1|] eqn:Hio; [|done].
  apply io_begin_Some in Hio as (_ & Hok & _ & _ & _ & Hn & Hp & Hbs).
  intros [= <-]; simpl. auto 10.
Qed.

Lemma reset_failed v v' :
  reset v = (false, v') -> vol_blocks v' = vol_blocks v.
Proof.
  unfold reset. destruct (io_begin v) as [v1|] eqn:Hio; [done|].
  intros [= <-]. apply io_failed_segments.
Qed.

End DedupFacts.

(** ** The codec *)

Section CodecFacts.
Import Dedup DedupFacts.

Variable blockheader_size : Z.
Variable recheader_size : Z.
Variable BlockSize : list byte -> N.
Variable DataSize : list byte -> N.

Hypothesis blockheader_size_pos : 0 < blockheader_size.
Hypothesis recheader_size_pos : 0 < recheader_size.

Local Abbreviation scatter_record := (scatter_record recheader_size DataSize).
Local Abbreviation scatter_loop := (scatter_loop recheader_size DataSize).
Local Abbreviation scatter :=
  (scatter blockheader_size recheader_size BlockSize DataSize).
Local Abbreviation block_records := (block_records recheader_size DataSize).

Lemma scatter_record_appended vol data block current end_ rec payload_end vol' :
  scatter_record vol data block current end_ = Appended rec payload_end vol' ->
  0 <= current -> end_ <= Z.of_nat (length data) ->
  current + recheader_size <= end_
  /\ rec_BareosHeader rec = slice current recheader_size data
  /\ rec_size rec
     = Z.min (Z.of_N (DataSize (slice current recheader_size data)))
             (end_ - (current + recheader_size))
  /\ payload_end = current + recheader_size + rec_size rec
  /\ read_data vol' (rec_file_index rec) (rec_start rec) (rec_size rec)
     = Some (slice (current + recheader_size) (rec_size rec) data)
  /\ data_le (vol_data vol) (vol_data vol')
  /\ vol_records vol' = vol_records vol
  /\ vol_blocks vol' = vol_blocks vol.
Proof.
  unfold Dedup.scatter_record. intros Hrec Hcur Hend.
  destruct (current + recheader_size >? end_) eqn:Hfit; [done|].
  set (record := slice current recheader_size data) in *.
  set (payload_start := current + recheader_size) in *.
  set (dsize := Z.of_N (DataSize record)) in *.
  assert (0 <= dsize) by (unfold dsize; lia).
  set (payload_end0 := if payload_start + dsize >? end_ then end_
                       else payload_start + dsize) in *.
  assert (Hmin : payload_end0 - payload_start
                 = Z.min dsize (end_ - payload_start)).
  { unfold payload_end0. destruct (payload_start + dsize >? end_) eqn:E; lia. }
  destruct (append_data vol block record
              (slice payload_start (payload_end0 - payload_start) data))
    as [[loc|] v1] eqn:Happ; [|done].
  injection Hrec as <- <- <-. simpl.
  pose proof (append_data_stored _ _ _ _ _ _ Happ) as Hstored.
  rewrite length_slice in Hstored by lia.
  pose proof (append_data_le vol block record
                (slice payload_start (payload_end0 - payload_start) data)) as Hle.
  pose proof (append_data_segments vol block record
                (slice payload_start (payload_end0 - payload_start) data))
    as [Hr Hb].
  rewrite Happ in Hle, Hr, Hb. simpl in Hle, Hr, Hb.
  repeat split; try done; lia.
Qed.

Lemma scatter_record_failed vol data block current end_ vol' :
  scatter_record vol data block current end_ = AppendFailed vol' ->
  vol_blocks vol' = vol_blocks vol.
Proof.
  unfold Dedup.scatter_record.
  destruct (current + recheader_size >? end_); [done|].
  match goal with |- context [append_data ?v ?b ?r ?p] =>
    pose proof (append_data_segments v b r p) as [_ Hb];
    destruct (append_data v b r p) as [[loc|] v1] end; [done|].
  by intros [= <-].
Qed.

(** The loop of [scatter], when it runs to the end of the block. *)
Lemma scatter_loop_done data block end_ fuel :
  end_ <= Z.of_nat (length data) ->
  forall vol current acc c records vol1,
    scatter_loop fuel vol data block current end_ acc
    = Some (LoopDone c records vol1) ->
    0 <= current ->
    c = end_
    /\ (exists new, records = acc ++ new
                    /\ block_records vol1 data end_ current new)
    /\ data_le (vol_data vol) (vol_data vol1)
    /\ vol_records vol1 = vol_records vol
    /\ vol_blocks vol1 = vol_blocks vol.
Proof.
  intros Hend. induction fuel as [|fuel IH]; intros vol current acc c records vol1;
    simpl; destruct (current =? end_) eqn:Hat.
  - intros [= <- <- <-] _. assert (current = end_) as -> by lia.
    split; [done|]. split; [|auto using data_le_refl].
    exists []. rewrite app_nil_r. split; [done|constructor].
  - done.
  - intros [= <- <- <-] _. assert (current = end_) as -> by lia.
    split; [done|]. split; [|auto using data_le_refl].
    exists []. rewrite app_nil_r. split; [done|constructor].
  - destruct (scatter_record vol data block current end_)
      as [|vf|rec payload_end vol'] eqn:Hstep; [done|done|].
    intros Hloop Hcur.
    apply scatter_record_appended in Hstep
      as (Hfit & Hhdr & Hsize & -> & Hread & Hle & Hr & Hb); [|done..].
    assert (0 <= rec_size rec).
    { rewrite Hsize. lia. }
    apply IH in Hloop as (-> & (new & -> & Hnew) & Hle' & Hr' & Hb'); [|lia].
    split; [done|]. split; [|split; [by eapply data_le_trans|split; congruence]].
    exists (rec :: new). split; [by rewrite <- app_assoc|].
    constructor; try done.
    by eapply read_data_mono.
Qed.

(** When the loop leaves [scatter] early it returns -1, and no block
    descriptor has been written. *)
Lemma scatter_loop_return data block end_ fuel :
  forall vol current acc r vol1,
    scatter_loop fuel vol data block current end_ acc
    = Some (LoopReturn r vol1) ->
    r = -1 /\ vol_blocks vol1 = vol_blocks vol.
Proof.
  induction fuel as [|fuel IH]; intros vol current acc r vol1; simpl;
    destruct (current =? end_); try done.
  destruct (scatter_record vol data block current end_)
    as [|vf|rec payload_end vol'] eqn:Hstep.
  - by intros [= <- <-].
  - intros [= <- <-]. split; [done|]. by eapply scatter_record_failed.
  - intros Hloop. apply IH in Hloop as [-> Hb]. split; [done|].
    rewrite Hb. unfold Dedup.scatter_record in Hstep.
    destruct (current + recheader_size >? end_); [done|].
    match type of Hstep with context [append_data ?v ?b ?r ?p] =>
      pose proof (append_data_segments v b r p) as [_ Hb'];
      destruct (append_data v b r p) as [[loc|] v1'] end; [|done].
    by injection Hstep as <- <- <-.
Qed.

(** The turns given to the loop are enough. *)
Lemma scatter_loop_fuel data block end_ fuel :
  forall vol current acc,
    (Z.to_nat (end_ - current) < fuel)%nat ->
    scatter_loop fuel vol data block current end_ acc <> None.
Proof.
  induction fuel as [|fuel IH]; intros vol current acc Hfuel; [lia|].
  simpl. destruct (current =? end_) eqn:Hat; [done|].
  unfold Dedup.scatter_record.
  destruct (current + recheader_size >? end_) eqn:Hfit; [done|].
  match goal with |- context [append_data ?v ?b ?r ?p] =>
    destruct (append_data v b r p) as [[loc|] v1] end; [|done].
  apply IH.
  destruct (current + recheader_size + Z.of_N _ >? end_); lia.
Qed.

Lemma scatter_total vol data : scatter vol data <> None.
Proof.
  unfold Dedup.scatter.
  destruct (Z.of_nat (length data) >? UINT32_MAX); [done|].
  destruct (Z.of_nat (length data) <? blockheader_size); [done|].
  destruct (Z.of_nat (length data) <? _); [done|].
  match goal with |- context [Dedup.scatter_loop _ _ ?f ?v ?d ?b ?c ?e ?a] =>
    pose proof (scatter_loop_fuel d b e f v c a) as Hfuel;
    destruct (Dedup.scatter_loop recheader_size DataSize f v d b c e a)
      as [[c' recs v1|r v1]|] end.
  - destruct (append_records v1 recs) as [[start|] v2]; [|done].
    by destruct (append_block v2 _) as [[] v3].
  - done.
  - exfalso. apply Hfuel; [lia|done].
Qed.

Lemma scatter_loop_bytes data block end_ fuel :
  end_ <= Z.of_nat (length data) ->
  forall vol current acc c records vol1,
    scatter_loop fuel vol data block current end_ acc
    = Some (LoopDone c records vol1) ->
    0 <= current ->
    data_bytes vol1 + payload_bytes acc = data_bytes vol + payload_bytes records.
Proof.
  intros Hend. induction fuel as [|fuel IH];
    intros vol current acc c records vol1;
    simpl; destruct (current =? end_) eqn:Hat; try done;
    try (by intros [= <- <- <-] _).
  destruct (scatter_record vol data block current end_)
    as [|vf|rec payload_end vol'] eqn:Hstep; [done|done|].
  intros Hloop Hcur.
  pose proof Hstep as Hstep'.
  apply scatter_record_appended in Hstep'
    as (Hfit & _ & Hsize & -> & _); [|done..].
  assert (0 <= rec_size rec) by lia.
  apply IH in Hloop; [|lia].
  rewrite payload_bytes_app in Hloop. simpl in Hloop.
  unfold Dedup.scatter_record in Hstep.
  destruct (current + recheader_size >? end_); [done|].
  match type of Hstep with context [append_data ?v ?b ?r ?p] =>
    destruct (append_data v b r p) as [[loc|] v1'] eqn:Happ end; [|done].
  apply append_data_bytes in Happ.
  injection Hstep as Hrec Hpe Hvol. subst vol'.
  apply (f_equal rec_size) in Hrec. simpl in Hrec.
  rewrite Hrec, length_slice in Happ by lia. lia.
Qed.

(** What a turn of the loop hands to [append_data]: the payload cut at the
    end of the block. *)
Lemma scatter_record_append_data vol data block current end_ :
  current + recheader_size <= end_ ->
  let record := slice current recheader_size data in
  let payload_start := current + recheader_size in
  let payload_size :=
    Z.min (Z.of_N (DataSize record)) (end_ - payload_start) in
  scatter_record vol data block current end_
  = match append_data vol block record
                      (slice payload_start payload_size data) with
    | (None, vol') => AppendFailed vol'
    | (Some written_loc, vol') =>
        Appended (mk_record_header record (loc_begin written_loc)
                                   payload_size (loc_file_index written_loc))
                 (payload_start + payload_size) vol'
    end.
Proof.
  intros Hfit. cbv zeta. unfold Dedup.scatter_record.
  replace (current + recheader_size >? end_) with false by lia.
  cbv zeta.
  set (record := slice current recheader_size data).
  set (payload_start := current + recheader_size).
  set (dsize := Z.of_N (DataSize record)).
  assert (0 <= dsize) by (unfold dsize; lia).
  destruct (payload_start + dsize >? end_) eqn:E.
  - replace (Z.min dsize (end_ - payload_start)) with (end_ - payload_start)
      by lia.
    by replace (payload_start + (end_ - payload_start)) with end_ by lia.
  - replace (Z.min dsize (end_ - payload_start)) with dsize by lia.
    by replace (payload_start + dsize - payload_start) with dsize by lia.
Qed.

(** A turn of the loop that stores a record adds to the data segments as
    many bytes as the descriptor says. *)
Lemma scatter_record_bytes vol data block current end_ rec payload_end vol' :
  scatter_record vol data block current end_ = Appended rec payload_end vol' ->
  0 <= current -> end_ <= Z.of_nat (length data) ->
  data_bytes vol' = data_bytes vol + rec_size rec.
Proof.
  intros Hstep Hcur Hend.
  destruct (Z_le_gt_dec (current + recheader_size) end_) as [Hfit|Hfit].
  2:{ unfold Dedup.scatter_record in Hstep.
      by replace (current + recheader_size >? end_) with true in Hstep by lia. }
  rewrite scatter_record_append_data in Hstep by done. cbv zeta in Hstep.
  match type of Hstep with context [append_data ?v ?b ?r ?p] =>
    destruct (append_data v b r p) as [[loc|] v1] eqn:Happ end; [|done].
  apply append_data_bytes in Happ.
  injection Hstep as Hrec _ <-.
  apply (f_equal rec_size) in Hrec. simpl in Hrec.
  pose proof (N2Z.is_nonneg (DataSize (slice current recheader_size data))).
  rewrite length_slice in Happ by lia. lia.
Qed.

Lemma block_records_mono v v' data end_ current records :
  data_le (vol_data v) (vol_data v') ->
  block_records v data end_ current records ->
  block_records v' data end_ current records.
Proof.
  intros Hd Hrecs. induction Hrecs; constructor; try done.
  by eapply read_data_mono.
Qed.

(** What a successful [scatter] leaves in the volume. *)
Lemma scatter_success vol data n vol' :
  scatter vol data = Some (n, vol') -> n <> -1 ->
  let block := slice 0 blockheader_size data in
  let bsize := Z.of_N (BlockSize block) in
  n = bsize /\ blockheader_size <= Z.of_nat (length data)
  /\ bsize <= Z.of_nat (length data)
  /\ exists records,
       block_records vol' data bsize blockheader_size records
       /\ vol_records vol' = vol_records vol ++ records
       /\ vol_blocks vol'
          = vol_blocks vol
            ++ [mk_block_header block (Z.of_nat (length (vol_records vol)))
                                (Z.of_nat (length records))]
       /\ data_le (vol_data vol) (vol_data vol').
Proof.
  unfold Dedup.scatter. intros Hs Hn. simpl.
  destruct (Z.of_nat (length data) >? UINT32_MAX); [by injection Hs as <- <-|].
  destruct (Z.of_nat (length data) <? blockheader_size) eqn:Hbh;
    [by injection Hs as <- <-|].
  set (block := slice 0 blockheader_size data) in *.
  set (bsize := Z.of_N (BlockSize block)) in *.
  destruct (Z.of_nat (length data) <? bsize) eqn:Hbs;
    [by injection Hs as <- <-|].
  destruct (Dedup.scatter_loop _ _ _ _ _ _ _ _ _) as [[c recs v1|r v1]|] eqn:Hloop;
    [| |done].
  - apply scatter_loop_done in Hloop
      as (-> & (new & -> & Hnew) & Hle & Hr & Hb); [|lia..].
    change ([] ++ new) with new in Hs.
    destruct (append_records v1 new) as [[start|] v2] eqn:Hrecs;
      [|by injection Hs as <- <-].
    apply append_records_ok in Hrecs as (-> & Hr2 & Hb2 & Hd2).
    destruct (append_block v2 _) as [[] v3] eqn:Hblk;
      [|by injection Hs as <- <-].
    apply append_block_ok in Hblk as (Hb3 & Hr3 & Hd3).
    injection Hs as <- <-.
    split; [lia|]. split; [lia|]. split; [lia|].
    exists new. rewrite Hb3, Hb2, Hb, Hr3, Hr2, Hr, Hd3, Hd2. simpl.
    repeat split; try done.
    apply (block_records_mono v1); [|exact Hnew].
    rewrite Hd3, Hd2. apply data_le_refl.
  - apply scatter_loop_return in Hloop as [-> _]. by injection Hs as <- <-.
Qed.

(** A successful [scatter] adds to the data segments exactly the payload
    bytes of the record descriptors it adds. *)
Lemma scatter_bytes vol data n vol' :
  scatter vol data = Some (n, vol') -> n <> -1 ->
  data_bytes vol' + payload_bytes (vol_records vol)
  = data_bytes vol + payload_bytes (vol_records vol').
Proof.
  unfold Dedup.scatter. intros Hs Hn.
  destruct (Z.of_nat (length data) >? UINT32_MAX); [by injection Hs as <- <-|].
  destruct (Z.of_nat (length data) <? blockheader_size) eqn:Hbh;
    [by injection Hs as <- <-|].
  set (block := slice 0 blockheader_size data) in *.
  set (bsize := Z.of_N (BlockSize block)) in *.
  destruct (Z.of_nat (length data) <? bsize) eqn:Hbs;
    [by injection Hs as <- <-|].
  destruct (Dedup.scatter_loop _ _ _ _ _ _ _ _ _) as [[c recs v1|r v1]|] eqn:Hloop;
    [| |done].
  - pose proof Hloop as Hbytes.
    apply scatter_loop_bytes in Hbytes; [|lia..].
    apply scatter_loop_done in Hloop as (_ & _ & _ & Hr & _); [|lia..].
    destruct (append_records v1 recs) as [[start|] v2] eqn:Hrecs;
      [|by injection Hs as <- <-].
    apply append_records_ok in Hrecs as (-> & Hr2 & Hb2 & Hd2).
    destruct (append_block v2 _) as [[] v3] eqn:Hblk;
      [|by injection Hs as <- <-].
    apply append_block_ok in Hblk as (Hb3 & Hr3 & Hd3).
    injection Hs as <- <-.
    rewrite Hr3, Hr2, Hr, payload_bytes_app.
    unfold data_bytes in *. rewrite Hd3, Hd2. simpl in Hbytes. lia.
  - apply scatter_loop_return in Hloop as [-> _]. by injection Hs as <- <-.
Qed.

Local Abbreviation gather_loop := (gather_loop recheader_size).
Local Abbreviation gather := (gather blockheader_size recheader_size BlockSize).

Lemma block_records_le vol data end_ current records :
  block_records vol data end_ current records -> 0 <= current ->
  current <= end_.
Proof. induction 1; intros; lia. Qed.

(** [gather_loop] over the descriptors of a block writes the block back. *)
Lemma gather_loop_block vol data end_ size_ current records :
  end_ <= Z.of_nat (length data) -> end_ <= size_ ->
  block_records vol data end_ current records -> 0 <= current ->
  gather_loop vol records (mk_write_buffer (slice 0 current data) current size_)
  = (end_, slice 0 end_ data).
Proof.
  intros Hlen Hsize Hrecs. induction Hrecs as [|current rec rest Hfit Hhdr Hsz Hread Hrest IH];
    intros Hcur; [done|].
  pose proof (block_records_le _ _ _ _ _ Hrest) as Hle.
  assert (0 <= rec_size rec) by lia.
  simpl. unfold wb_write, wb_reserve. simpl.
  replace (current + recheader_size >? size_) with false by lia.
  simpl.
  replace (current + recheader_size + rec_size rec >? size_) with false by lia.
  rewrite Hread. unfold wb_fill. simpl.
  rewrite Hhdr, resize_all_alt by (apply Nat2Z.inj; rewrite length_slice; lia).
  rewrite (slice_0_app current recheader_size) by lia.
  rewrite (slice_0_app (current + recheader_size)) by lia.
  apply IH. lia.
Qed.

(** The round-trip law: what [scatter] wrote at the end of the volume,
    [gather] reads back byte for byte. *)
Lemma gather_scatter vol data n vol' size_ :
  scatter vol data = Some (n, vol') -> n <> -1 -> n <= size_ ->
  gather vol' (size vol) size_ = (n, slice 0 n data).
Proof.
  intros Hs Hn Hsize.
  apply scatter_success in Hs as (-> & Hbh & Hbs & records & Hrecs & Hr & Hb & _);
    [|done].
  set (block := slice 0 blockheader_size data) in *.
  set (bsize := Z.of_N (BlockSize block)) in *.
  pose proof (block_records_le _ _ _ _ _ Hrecs) as Hle.
  unfold Dedup.gather, read_block, size.
  replace (Z.of_nat (length (vol_blocks vol)) <? 0) with false by lia.
  rewrite Nat2Z.id, Hb, lookup_app_r, Nat.sub_diag by lia. simpl.
  fold block. fold bsize.
  replace (bsize >? size_) with false by lia.
  unfold wb_write. simpl.
  change (0 + blockheader_size) with blockheader_size.
  replace (blockheader_size >? size_) with false by lia.
  rewrite length_replicate, !Nat2Z.id.
  unfold read_records. rewrite Hr, length_app.
  replace ((0 <=? Z.of_nat (length (vol_records vol)))
           && (0 <=? Z.of_nat (length records))
           && (Z.of_nat (length (vol_records vol)) + Z.of_nat (length records)
               <=? Z.of_nat (length (vol_records vol) + length records)))
    with true by lia.
  rewrite slice_app_r by done.
  unfold block.
  rewrite resize_all_alt by (apply Nat2Z.inj; rewrite length_slice; lia).
  apply gather_loop_block; try done; lia.
Qed.

End CodecFacts.

(** ** Claims about scatter and gather *)

Section ScatterClaims.
Import Dedup DedupFacts.

Variable blockheader_size : Z.
Variable recheader_size : Z.
Variable BlockSize : list byte -> N.
Variable DataSize : list byte -> N.

Hypothesis blockheader_size_pos : 0 < blockheader_size.
Hypothesis recheader_size_pos : 0 < recheader_size.

Local Abbreviation scatter :=
  (scatter blockheader_size recheader_size BlockSize DataSize).
Local Abbreviation block_records := (block_records recheader_size DataSize).

(** C7: every successful call [scatter(vol, buf, size)] (one that does not
    return -1) appends exactly one block descriptor: [vol.size()] after the
    call is [vol.size()] before the call plus one. *)
Theorem scatter_appends_one_block vol data n vol' :
  scatter vol data = Some (n, vol') -> n <> -1 ->
  size vol' = size vol + 1
  /\ exists b, vol_blocks vol' = vol_blocks vol ++ [b].
Proof.
  intros Hs Hn.
  apply scatter_success in Hs as (_ & _ & _ & records & _ & _ & Hb & _);
    [|done..].
  unfold size. rewrite Hb, length_app. simpl. split; [lia|eauto].
Qed.

(** C8: every turn of the loop of [scatter] whose record header fits in the
    block hands to [append_data] the payload cut at the end of the block: the
    [min(DataSize, end of block - start of payload)] bytes from the start of
    the payload, whatever the buffer holds after the block.  The record
    descriptor keeps that length, the data segments have grown by that many
    bytes and hold them at the place the descriptor names.  So a successful
    [scatter] has added, for the records of the block in order, descriptors
    with these lengths, and as many payload bytes as they add up to. *)
Theorem scatter_truncates_payload :
  (forall vol data block current end_,
     current + recheader_size <= end_ ->
     let record := slice current recheader_size data in
     let payload_start := current + recheader_size in
     let payload_size :=
       Z.min (Z.of_N (DataSize record)) (end_ - payload_start) in
     Dedup.scatter_record recheader_size DataSize vol data block current end_
     = match append_data vol block record
                         (slice payload_start payload_size data) with
       | (None, vol') => AppendFailed vol'
       | (Some written_loc, vol') =>
           Appended (mk_record_header record (loc_begin written_loc)
                                      payload_size
                                      (loc_file_index written_loc))
                    (payload_start + payload_size) vol'
       end)
  /\ (forall vol data block current end_ rec payload_end vol',
        Dedup.scatter_record recheader_size DataSize vol data block current
                             end_
        = Appended rec payload_end vol' ->
        0 <= current -> end_ <= Z.of_nat (length data) ->
        let record := slice current recheader_size data in
        let payload_start := current + recheader_size in
        rec_BareosHeader rec = record
        /\ rec_size rec
           = Z.min (Z.of_N (DataSize record)) (end_ - payload_start)
        /\ read_data vol' (rec_file_index rec) (rec_start rec) (rec_size rec)
           = Some (slice payload_start (rec_size rec) data)
        /\ payload_end = payload_start + rec_size rec
        /\ data_bytes vol' = data_bytes vol + rec_size rec)
  /\ (forall vol data n vol',
        scatter vol data = Some (n, vol') -> n <> -1 ->
        exists records,
          vol_records vol' = vol_records vol ++ records
          /\ block_records vol' data
               (Z.of_N (BlockSize (slice 0 blockheader_size data)))
               blockheader_size records
          /\ data_bytes vol' = data_bytes vol + payload_bytes records).
Proof.
  split; [|split].
  - intros vol data block current end_ Hfit.
    by apply scatter_record_append_data.
  - intros vol data block current end_ rec payload_end vol' Hstep Hcur Hend.
    pose proof Hstep as Hbytes.
    apply scatter_record_bytes in Hbytes; [|done..].
    apply scatter_record_appended in Hstep
      as (_ & Hhdr & Hsize & Hpe & Hread & _); [|done..].
    cbv zeta. auto.
  - intros vol data n vol' Hs Hn.
    pose proof Hs as Hbytes.
    apply scatter_bytes in Hbytes; [|done..].
    apply scatter_success in Hs as (_ & _ & _ & records & Hrecs & Hr & _);
      [|done..].
    exists records. rewrite Hr, payload_bytes_app in Hbytes.
    repeat split; [done|done|lia].
Qed.

End ScatterClaims.

Lemma scatter_appends_one_block_witness :
  Dedup.size Instances.labelled_volume = Dedup.size Instances.empty_volume + 1
  /\ exists b, Dedup.vol_blocks Instances.labelled_volume
               = Dedup.vol_blocks Instances.empty_volume ++ [b].
Proof.
  apply (scatter_appends_one_block Instances.blockheader_size
           Instances.recheader_size Instances.BlockSize Instances.DataSize)
    with (data := Instances.one_record_block) (n := 48).
  - reflexivity.
  - reflexivity.
  - vm_compute. reflexivity.
  - lia.
Defined.

Lemma scatter_truncates_payload_witness :
  Dedup.scatter_record Instances.recheader_size Instances.DataSize
    Instances.empty_volume Instances.cut_block
    (slice 0 Instances.blockheader_size Instances.cut_block) 24 40
  = match Dedup.append_data Instances.empty_volume
            (slice 0 Instances.blockheader_size Instances.cut_block)
            (slice 24 Instances.recheader_size Instances.cut_block)
            (slice (24 + Instances.recheader_size)
               (Z.min (Z.of_N (Instances.DataSize
                                 (slice 24 Instances.recheader_size
                                        Instances.cut_block)))
                      (40 - (24 + Instances.recheader_size)))
               Instances.cut_block) with
    | (None, vol') => Dedup.AppendFailed vol'
    | (Some written_loc, vol') =>
        Dedup.Appended
          (Dedup.mk_record_header
             (slice 24 Instances.recheader_size Instances.cut_block)
             (Dedup.loc_begin written_loc)
             (Z.min (Z.of_N (Instances.DataSize
                               (slice 24 Instances.recheader_size
                                      Instances.cut_block)))
                    (40 - (24 + Instances.recheader_size)))
             (Dedup.loc_file_index written_loc))
          (24 + Instances.recheader_size
           + Z.min (Z.of_N (Instances.DataSize
                              (slice 24 Instances.recheader_size
                                     Instances.cut_block)))
                   (40 - (24 + Instances.recheader_size))) vol'
    end
  /\ exists records,
       Dedup.vol_records Instances.cut_volume
       = Dedup.vol_records Instances.empty_volume ++ records
       /\ Dedup.block_records Instances.recheader_size Instances.DataSize
            Instances.cut_volume Instances.cut_block
            (Z.of_N (Instances.BlockSize
                       (slice 0 Instances.blockheader_size
                              Instances.cut_block)))
            Instances.blockheader_size records
       /\ Dedup.data_bytes Instances.cut_volume
          = Dedup.data_bytes Instances.empty_volume
            + Dedup.payload_bytes records.
Proof.
  split.
  - apply (proj1 (scatter_truncates_payload Instances.blockheader_size
                    Instances.recheader_size Instances.BlockSize
                    Instances.DataSize ltac:(reflexivity) ltac:(reflexivity))).
    vm_compute. discriminate.
  - apply (proj2 (proj2 (scatter_truncates_payload Instances.blockheader_size
                           Instances.recheader_size Instances.BlockSize
                           Instances.DataSize ltac:(reflexivity)
                           ltac:(reflexivity))))
      with (n := 40).
    + vm_compute. reflexivity.
    + lia.
Defined.

(** The truncated-payload scenario: a block of 64 bytes whose record declares
    1000000 bytes stores 64 - 24 - 12 = 28 bytes, and [gather] gives the block
    back. *)
Example truncated_payload_scenario :
  map Dedup.rec_size (Dedup.vol_records Instances.truncated_volume) = [28]
  /\ Dedup.gather Instances.blockheader_size Instances.recheader_size
       Instances.BlockSize Instances.truncated_volume 0 4096
     = (64, Instances.truncated_block).
Proof. split; vm_compute; reflexivity. Qed.

(** The same with bytes in the buffer after the block: a block of 40 bytes
    in a buffer of 60 whose record declares 1000000 bytes stores
    40 - 24 - 12 = 4 bytes, not the 24 that the buffer holds. *)
Example cut_payload_scenario :
  Dedup.scatter Instances.blockheader_size Instances.recheader_size
    Instances.BlockSize Instances.DataSize Instances.empty_volume
    Instances.cut_block
  = Some (40, Instances.cut_volume)
  /\ map Dedup.rec_size (Dedup.vol_records Instances.cut_volume) = [4]
  /\ Dedup.vol_data Instances.cut_volume = [Instances.payload 4]
  /\ Dedup.data_bytes Instances.cut_volume = 4
  /\ Dedup.gather Instances.blockheader_size Instances.recheader_size
       Instances.BlockSize Instances.cut_volume 0 4096
     = (40, take 40 Instances.cut_block).
Proof. repeat split; vm_compute; reflexivity. Qed.

(** [gather] does return -1 when [read_block] fails, and when [read_data]
    fails for a record. *)
Lemma gather_read_block_fails bhs rhs BlockSize vol blocknum size_ :
  Dedup.read_block vol blocknum = None ->
  Dedup.gather bhs rhs BlockSize vol blocknum size_ = (-1, []).
Proof. unfold Dedup.gather. by intros ->. Qed.

Lemma gather_loop_read_data_fails rhs vol records buf :
  Exists (fun r => Dedup.read_data vol (Dedup.rec_file_index r)
                     (Dedup.rec_start r) (Dedup.rec_size r) = None) records ->
  (Dedup.gather_loop rhs vol records buf).1 = -1.
Proof.
  intros Hex. revert buf.
  induction records as [|r rest IH]; intros buf; [by inversion Hex|].
  simpl. destruct (Dedup.wb_write buf rhs _) as [buf1|]; [|done].
  destruct (Dedup.wb_reserve buf1 _) as [buf2|]; [|done].
  destruct (Dedup.read_data vol _ _ _) as [bytes|] eqn:Hread; [|done].
  apply IH. inversion Hex; subst; [congruence|done].
Qed.

(** When [read_records] fails, [gather] goes on with the record descriptors
    its vector was created with. *)
Lemma gather_read_records_unchecked bhs rhs BlockSize vol blocknum size_ block :
  Dedup.read_block vol blocknum = Some block ->
  Z.of_N (BlockSize (Dedup.blk_BareosHeader block)) <= size_ ->
  bhs <= size_ ->
  Dedup.read_records vol (Dedup.blk_start block)
    (Z.of_nat (Z.to_nat (Dedup.blk_count block))) = None ->
  Dedup.gather bhs rhs BlockSize vol blocknum size_
  = Dedup.gather_loop rhs vol
      (replicate (Z.to_nat (Dedup.blk_count block)) (Dedup.empty_record rhs))
      (Dedup.mk_write_buffer
         (resize (Z.to_nat bhs) x00 (Dedup.blk_BareosHeader block)) bhs size_).
Proof.
  intros Hblock Hfit Hbhs Hrecords. unfold Dedup.gather, Dedup.wb_write.
  rewrite Hblock. simpl.
  replace (Z.of_N (BlockSize (Dedup.blk_BareosHeader block)) >? size_)
    with false by lia.
  change (0 + bhs) with bhs.
  replace (bhs >? size_) with false by lia.
  by rewrite length_replicate, Hrecords.
Qed.

(** C2 (the code does not do this): [gather] does not look at what
    [read_records] returns.  On a volume whose block descriptor names record
    descriptors that the records segment does not hold, [read_records] fails
    and [gather] still returns 36 bytes as a success: the block header and a
    record header made of zeros. *)
Theorem gather_ignores_read_records_failure :
  Dedup.read_block Instances.lost_records_volume 0
  = Some (Dedup.mk_block_header (Instances.block_hdr 36) 7 1)
  /\ Dedup.read_records Instances.lost_records_volume 7 1 = None
  /\ Dedup.gather Instances.blockheader_size Instances.recheader_size
       Instances.BlockSize Instances.lost_records_volume 0 4096
     = (36, Instances.block_hdr 36 ++ Dedup.zero_bytes 12).
Proof. repeat split; vm_compute; reflexivity. Qed.

(** ** Claims about the device facade *)

Section DeviceClaims.
Import Dedup DedupFacts.

Variable blockheader_size : Z.
Variable recheader_size : Z.
Variable BlockSize : list byte -> N.
Variable DataSize : list byte -> N.

Hypothesis blockheader_size_pos : 0 < blockheader_size.
Hypothesis recheader_size_pos : 0 < recheader_size.

Local Abbreviation scatter :=
  (scatter blockheader_size recheader_size BlockSize DataSize).
Local Abbreviation gather :=
  (gather blockheader_size recheader_size BlockSize).
Local Abbreviation block_records := (block_records recheader_size DataSize).
Local Abbreviation d_write :=
  (d_write blockheader_size recheader_size BlockSize DataSize).
Local Abbreviation d_read :=
  (d_read blockheader_size recheader_size BlockSize).

(** [d_write] and [d_read] always come back from their loops. *)
Lemma d_write_fuel dev fd data : d_write dev fd data <> OutOfFuel.
Proof.
  unfold Dedup.d_write. destruct (negb (fd =? fd_ctr dev)); [done|].
  destruct (open_volume dev) as [vol|]; [|done].
  destruct (negb (is_ok vol)); [done|].
  destruct (negb _); [done|].
  match goal with |- context [Dedup.scatter _ _ _ _ ?v ?d] =>
    pose proof (scatter_total blockheader_size recheader_size BlockSize
                  DataSize blockheader_size_pos recheader_size_pos v d);
    destruct (Dedup.scatter blockheader_size recheader_size BlockSize
                DataSize v d) as [[r v']|] end; done.
Qed.

(** C4, as the code has it: on an open device whose volume is ok ([d_write]
    asserts [vol.is_ok()] before it looks at the cursor), whose cursor
    [block_number(file, block_num)] is not [vol.size()], and not in the
    relabel case (cursor 0 and size 1), [d_write] with the current descriptor
    returns -1 and the open volume is the same as before: same contents, same
    [size()]. *)
Theorem d_write_rejects_non_append dev vol data :
  open_volume dev = Some vol -> is_ok vol = true ->
  block_number (file dev) (block_num dev) <> size vol ->
  ~ (block_number (file dev) (block_num dev) = 0 /\ size vol = 1) ->
  exists dev',
    d_write dev (fd_ctr dev) data = Returns (-1, dev')
    /\ open_volume dev' = Some vol.
Proof.
  intros Hopen Hok Hcur Hrelabel. unfold Dedup.d_write.
  rewrite Z.eqb_refl, Hopen, Hok. simpl.
  replace ((block_number (file dev) (block_num dev) =? 0) && (size vol =? 1))
    with false by lia.
  replace (block_number (file dev) (block_num dev) =? size vol)
    with false by lia.
  simpl. eauto.
Qed.

(** C5: with the cursor at (0,0) on a volume of one block, [d_write] resets
    the volume to empty before it writes; after a successful write the volume
    holds the new block and nothing else: one block descriptor, the record
    descriptors of the new block, as many payload bytes as they account for,
    [size()] is 1, and [gather] at index 0 gives the written block back. *)
Theorem d_write_relabel dev vol data n dev' :
  open_volume dev = Some vol ->
  file dev = 0 -> block_num dev = 0 -> size vol = 1 ->
  d_write dev (fd_ctr dev) data = Returns (n, dev') -> n <> -1 ->
  exists vol0 vol' records,
    reset vol = (true, vol0)
    /\ vol_blocks vol0 = [] /\ vol_records vol0 = [] /\ vol_data vol0 = []
    /\ scatter vol0 data = Some (n, vol')
    /\ open_volume dev' = Some vol'
    /\ size vol' = 1
    /\ vol_blocks vol'
       = [mk_block_header (slice 0 blockheader_size data) 0
                          (Z.of_nat (length records))]
    /\ vol_records vol' = records
    /\ block_records vol' data n blockheader_size records
    /\ data_bytes vol' = payload_bytes records
    /\ gather vol' 0 n = (n, slice 0 n data).
Proof.
  intros Hopen Hfile Hblock Hsize. unfold Dedup.d_write.
  rewrite Z.eqb_refl, Hopen. simpl.
  destruct (is_ok vol) eqn:Hok; simpl; [|done].
  rewrite Hfile, Hblock, Hsize. simpl.
  destruct (reset vol) as [[] vol0] eqn:Hreset; simpl.
  - apply reset_ok in Hreset as (Hok0 & Hb0 & Hr0 & Hd0 & _).
    unfold size at 1. rewrite Hb0. simpl.
    destruct (Dedup.scatter _ _ _ _ vol0 data) as [[r vol']|] eqn:Hs; [|done].
    intros [= -> <-] Hn. exists vol0, vol'.
    pose proof (scatter_bytes _ _ _ _ blockheader_size_pos recheader_size_pos
                  _ _ _ _ Hs Hn) as Hbytes.
    pose proof (gather_scatter _ _ _ _ blockheader_size_pos recheader_size_pos
                  _ _ _ _ n Hs Hn ltac:(lia)) as Hgather.
    pose proof Hs as Hs'.
    apply scatter_success in Hs'
      as (Hnb & _ & _ & records & Hrecs & Hr & Hb & _); [|done..].
    rewrite Hr0 in Hr, Hbytes. rewrite Hb0, Hr0 in Hb.
    simpl in Hr, Hb, Hbytes.
    unfold data_bytes in Hbytes at 2.
    rewrite Hd0, Hr in Hbytes. simpl in Hbytes.
    unfold size in Hgather |- *. rewrite Hb0 in Hgather. simpl in Hgather.
    change (Z.of_nat 0) with 0 in *.
    exists records. rewrite Hb, Hr. subst n. simpl.
    repeat split; try done. lia.
  - apply reset_failed in Hreset. unfold size in Hsize |- *.
    rewrite Hreset, Hsize. simpl. intros [= <- <-]. done.
Qed.

(** C10: [d_write] and [d_read] return -1 and leave the device, and with it
    the volume, as it was whenever the descriptor is not [fd_ctr], and
    whenever no volume is open. *)
Theorem d_write_d_read_reject dev fd data size_ :
  fd <> fd_ctr dev \/ open_volume dev = None ->
  d_write dev fd data = Returns (-1, dev)
  /\ d_read dev fd size_ = Returns (-1, [], dev).
Proof.
  unfold Dedup.d_write, Dedup.d_read. intros [Hfd|Hopen].
  - by replace (fd =? fd_ctr dev) with false by lia.
  - rewrite Hopen. by destruct (negb (fd =? fd_ctr dev)).
Qed.

End DeviceClaims.

(** [fd_ctr] is the descriptor that the last successful [d_open] returned:
    [d_open] either fails, returns -1 and leaves [fd_ctr] and the open volume
    as they were, or opens a volume, counts [fd_ctr] up and returns it. *)
Lemma d_open_returns_fd_ctr parse_options size_to_uint64 dev fs path mode
    r dev' fs' :
  Dedup.d_open parse_options size_to_uint64 dev fs path mode = (r, dev', fs') ->
  (r = -1 /\ Dedup.fd_ctr dev' = Dedup.fd_ctr dev
   /\ Dedup.open_volume dev' = Dedup.open_volume dev)
  \/ (Dedup.open_volume dev = None /\ is_Some (Dedup.open_volume dev')
      /\ Dedup.fd_ctr dev' = Dedup.fd_ctr dev + 1 /\ r = Dedup.fd_ctr dev').
Proof.
  unfold Dedup.d_open. intros Hret.
  destruct (Dedup.open_volume dev) as [v|] eqn:Hopen.
  { injection Hret as <- <- <-. left. by rewrite Hopen. }
  repeat case_match; simplify_eq; simpl;
    (by left; rewrite ?Hopen) || (right; eauto).
Qed.

Lemma d_write_rejects_non_append_witness :
  exists dev',
    Dedup.d_write Instances.blockheader_size Instances.recheader_size
      Instances.BlockSize Instances.DataSize
      (Instances.device_with (Some Instances.three_block_volume) 0 1) 1
      Instances.one_record_block
    = Dedup.Returns (-1, dev')
    /\ Dedup.open_volume dev' = Some Instances.three_block_volume.
Proof.
  apply (d_write_rejects_non_append Instances.blockheader_size
           Instances.recheader_size Instances.BlockSize Instances.DataSize
           (Instances.device_with (Some Instances.three_block_volume) 0 1)
           Instances.three_block_volume Instances.one_record_block).
  - reflexivity.
  - reflexivity.
  - vm_compute. discriminate.
  - vm_compute. intros [H _]. discriminate H.
Defined.

(** C4 as stated fails on an open volume that is not ok.  A [d_truncate]
    without a secure-erase command whose [reset] meets an I/O error returns
    false and leaves the volume open and not ok, with its three blocks and
    the cursor at (0,1).  The cursor is not [size()] and this is not the
    relabel case, but [d_write] does not return an error: its [ASSERT]
    fails. *)
Lemma d_write_asserts_on_failed_volume :
  Dedup.d_truncate Instances.me_plain Instances.failing_device ∅
  = Dedup.Returns (false, Instances.failed_device, ∅)
  /\ (exists vol,
        Dedup.open_volume Instances.failed_device = Some vol
        /\ Dedup.is_ok vol = false
        /\ Dedup.size vol = 3
        /\ Dedup.vol_blocks vol
           = Dedup.vol_blocks Instances.three_block_volume
        /\ Dedup.block_number (Dedup.file Instances.failed_device)
                              (Dedup.block_num Instances.failed_device) = 1)
  /\ Dedup.d_write Instances.blockheader_size Instances.recheader_size
       Instances.BlockSize Instances.DataSize Instances.failed_device
       (Dedup.fd_ctr Instances.failed_device) Instances.one_record_block
     = Dedup.AssertFailed
  /\ forall r,
       Dedup.d_write Instances.blockheader_size Instances.recheader_size
         Instances.BlockSize Instances.DataSize Instances.failed_device
         (Dedup.fd_ctr Instances.failed_device) Instances.one_record_block
       <> Dedup.Returns r.
Proof.
  split; [vm_compute; reflexivity|].
  split; [eexists; repeat split; vm_compute; reflexivity|].
  split; [vm_compute; reflexivity|].
  intros r H. vm_compute in H. discriminate H.
Qed.

Lemma d_write_relabel_witness :
  exists vol0 vol' records,
    Dedup.reset Instances.labelled_volume = (true, vol0)
    /\ Dedup.vol_blocks vol0 = [] /\ Dedup.vol_records vol0 = []
    /\ Dedup.vol_data vol0 = []
    /\ Dedup.scatter Instances.blockheader_size Instances.recheader_size
         Instances.BlockSize Instances.DataSize vol0 Instances.truncated_block
       = Some (64, vol')
    /\ Dedup.open_volume Instances.relabelled_device = Some vol'
    /\ Dedup.size vol' = 1
    /\ Dedup.vol_blocks vol'
       = [Dedup.mk_block_header
            (slice 0 Instances.blockheader_size Instances.truncated_block) 0
            (Z.of_nat (length records))]
    /\ Dedup.vol_records vol' = records
    /\ Dedup.block_records Instances.recheader_size Instances.DataSize
         vol' Instances.truncated_block 64 Instances.blockheader_size records
    /\ Dedup.data_bytes vol' = Dedup.payload_bytes records
    /\ Dedup.gather Instances.blockheader_size Instances.recheader_size
         Instances.BlockSize vol' 0 64
       = (64, slice 0 64 Instances.truncated_block).
Proof.
  apply (d_write_relabel Instances.blockheader_size Instances.recheader_size
           Instances.BlockSize Instances.DataSize)
    with (dev := Instances.relabel_device).
  - reflexivity.
  - reflexivity.
  - reflexivity.
  - reflexivity.
  - reflexivity.
  - reflexivity.
  - vm_compute. reflexivity.
  - lia.
Defined.

Lemma d_write_d_read_reject_witness :
  Dedup.d_write Instances.blockheader_size Instances.recheader_size
    Instances.BlockSize Instances.DataSize
    (Instances.device_with (Some Instances.labelled_volume) 0 1) 7
    Instances.one_record_block
  = Dedup.Returns (-1, Instances.device_with (Some Instances.labelled_volume) 0 1)
  /\ Dedup.d_read Instances.blockheader_size Instances.recheader_size
       Instances.BlockSize
       (Instances.device_with (Some Instances.labelled_volume) 0 1) 7 4096
     = Dedup.Returns
         (-1, [], Instances.device_with (Some Instances.labelled_volume) 0 1).
Proof.
  apply (d_write_d_read_reject Instances.blockheader_size
           Instances.recheader_size Instances.BlockSize Instances.DataSize).
  left. simpl. lia.
Defined.

(** The non-append scenario: after three blocks, Reposition(0,1) and a write
    are refused. *)
Example non_append_write_scenario :
  exists dev,
    Dedup.Reposition
      (Instances.device_with (Some Instances.three_block_volume) 0 3) 0 1
    = Dedup.Returns (true, dev)
    /\ exists dev',
         Dedup.d_write Instances.blockheader_size Instances.recheader_size
           Instances.BlockSize Instances.DataSize dev 1
           Instances.one_record_block
         = Dedup.Returns (-1, dev')
         /\ Dedup.open_volume dev' = Some Instances.three_block_volume.
Proof. eexists. split; [reflexivity|]. eexists. split; reflexivity. Qed.

(** ** Truncate *)

(** Without a secure-erase command [d_truncate] is [vol.reset()]. *)
Lemma d_truncate_reset me dev fs vol :
  Dedup.secure_erase_cmdline me = None ->
  Dedup.open_volume dev = Some vol -> Dedup.is_ok vol = true ->
  Dedup.d_truncate me dev fs
  = Dedup.Returns ((Dedup.reset vol).1,
                   Dedup.set_open_volume (Some (Dedup.reset vol).2) dev, fs).
Proof.
  intros Hme Hopen Hok. unfold Dedup.d_truncate.
  rewrite Hopen, Hok, Hme. simpl. by destruct (Dedup.reset vol).
Qed.

#[local] Arguments Dedup.volume_open : simpl never.

(** With a secure-erase command, once the closed volume has been deleted,
    the volume is made again at the same path in CREATE_READ_WRITE mode with
    the permissions of the volume that was open, and with the block size of
    the device resource. *)
Lemma d_truncate_secure_erase me cmd dev fs vol fs1 :
  Dedup.secure_erase_cmdline me = Some cmd ->
  Dedup.open_volume dev = Some vol -> Dedup.is_ok vol = true ->
  Dedup.delete_volume (Dedup.volume_close fs vol) (Dedup.name vol)
  = (true, fs1) ->
  let made :=
    Dedup.volume_open fs1 (Dedup.name vol) Dedup.CREATE_READ_WRITE
      (Dedup.get_permissions vol)
      (Dedup.dedup_block_size (Dedup.device_resource dev)) in
  Dedup.d_truncate me dev fs
  = if Dedup.is_ok made.1
    then Dedup.Returns
           (true,
            Dedup.set_open_volume (Some made.1)
              (Dedup.set_open_mode Dedup.CREATE_READ_WRITE
                 (Dedup.set_open_volume None dev)), made.2)
    else Dedup.Returns
           (false,
            Dedup.set_fd (-1)
              (Dedup.set_open_volume None
                 (Dedup.set_open_mode Dedup.CREATE_READ_WRITE
                    (Dedup.set_open_volume None dev))), made.2).
Proof.
  intros Hme Hopen Hok Hdel. cbv zeta. unfold Dedup.d_truncate.
  rewrite Hopen, Hok, Hme. simpl. rewrite Hdel. simpl.
  destruct (Dedup.volume_open _ _ _ _ _) as [v fs2]. simpl.
  by destruct (Dedup.is_ok v).
Qed.

(** C3 (the code does not do this): a device whose options say
    [blocksize=8k] opens a new volume with the block size 8192.  With a
    secure-erase command configured, [d_truncate] closes it, erases its files,
    removes the directory and makes the volume again in CREATE_READ_WRITE mode
    with the permissions it had, but with the block size 4096 of the device
    resource and not the 8192 of the volume that was open. *)
Theorem d_truncate_takes_block_size_of_resource :
  (Dedup.vol_blocksize <$> Dedup.open_volume Instances.opened_device)
  = Some 8192
  /\ exists dev' fs',
       Dedup.d_truncate Instances.me_secure_erase Instances.opened_device
                        Instances.opened_filesystem
       = Dedup.Returns (true, dev', fs')
       /\ Dedup.open_mode dev' = Dedup.CREATE_READ_WRITE
       /\ (Dedup.vol_permissions <$> Dedup.open_volume dev') = Some 416
       /\ (Dedup.vol_blocksize <$> Dedup.open_volume dev') = Some 4096
       /\ (Dedup.vol_blocksize <$> Dedup.open_volume dev')
          <> (Dedup.vol_blocksize <$> Dedup.open_volume Instances.opened_device).
Proof.
  split; [reflexivity|].
  destruct (Dedup.d_truncate Instances.me_secure_erase Instances.opened_device
              Instances.opened_filesystem) as [[[r dev'] fs']| |] eqn:Htr;
    vm_compute in Htr; try discriminate Htr.
  injection Htr as <- <- <-.
  eexists _, _. split; [reflexivity|]. repeat split. discriminate.
Qed.

(** ** Device options *)

Lemma string_app_assoc (a b c : string) :
  ((a ++ b) ++ c = a ++ (b ++ c))%string.
Proof.
  induction a as [|x a IH]; [reflexivity|].
  change (String x ((a ++ b) ++ c) = String x (a ++ b ++ c))%string.
  by rewrite IH.
Qed.

Section OptionsClaims.
Import Dedup.

Variable parse_options : string -> options + string.
Variable size_to_uint64 : string -> option Z.

Local Abbreviation parse := (parse parse_options size_to_uint64).

Lemma options_erase_keeps key value o :
  In (key, value) o -> key <> "blocksize"%string ->
  In (key, value) (options_erase "blocksize" o).
Proof.
  induction o as [|[k v] o IH]; simpl; [done|].
  intros [[= -> ->]|Hin] Hne.
  - destruct (String.eqb_spec key "blocksize"); [done|]. by left.
  - destruct (String.eqb_spec k "blocksize"); [done|]. right. by apply IH.
Qed.

Lemma unknown_options_names key value o :
  In (key, value) o ->
  exists before after,
    unknown_options o = (before ++ key ++ " " ++ after)%string.
Proof.
  induction o as [|[k v] o IH]; simpl; [done|].
  intros [[= -> ->]|Hin].
  - by exists ""%string, (unknown_options o).
  - destruct (IH Hin) as (before & after & ->).
    exists (k ++ " " ++ before)%string, after.
    by rewrite !string_app_assoc.
Qed.

Lemma options_find_absent key o :
  (forall val, ~ In (key, val) o) -> options_find key o = None.
Proof.
  induction o as [|[k v] o IH]; simpl; [done|]. intros Habs.
  destruct (String.eqb_spec k key) as [->|Hne].
  - exfalso. apply (Habs v). by left.
  - apply IH. intros val Hin. apply (Habs val). by right.
Qed.

Lemma options_find_present key val o :
  NoDup (map fst o) -> In (key, val) o -> options_find key o = Some val.
Proof.
  induction o as [|[k v] o IH]; simpl; [done|].
  intros Hnodup [[= -> ->]|Hin].
  - by rewrite String.eqb_refl.
  - apply NoDup_cons in Hnodup as [Hk Hnodup].
    destruct (String.eqb_spec k key) as [->|Hne]; [|by apply IH].
    exfalso. apply Hk. apply list_elem_of_In, in_map_iff. by exists (key, val).
Qed.

(** C9, as the code has it: for an options string that [parse_options]
    accepts (the options are a map, so no key is there twice): when no entry
    has the key [blocksize], [parse] succeeds with the block size 4096 and
    its warnings start with "Blocksize was not set explicitly; set to default
    4k"; when the entry of [blocksize] has a value that [size_to_uint64]
    refuses, [parse] fails with "bad block size: " followed by the value; and
    when [parse] succeeds its warnings name, after "Unknown options: ", every
    key that is not [blocksize]. *)
Theorem parse_blocksize_and_unknown_keys v opts :
  parse_options v = inl opts ->
  ((forall val, ~ In ("blocksize"%string, val) opts) ->
   exists r rest,
     parse v = inl r /\ blocksize r = 4096
     /\ warnings r
        = ("Blocksize was not set explicitly; set to default 4k" ++ nl
           ++ rest)%string)
  /\ (forall val,
        NoDup (map fst opts) ->
        In ("blocksize"%string, val) opts ->
        size_to_uint64 val = None ->
        parse v = inr ("bad block size: " ++ val)%string)
  /\ (forall r key value,
        parse v = inl r -> In (key, value) opts ->
        key <> "blocksize"%string ->
        exists before between after,
          warnings r
          = (before ++ "Unknown options: " ++ between ++ key ++ " " ++ after)
            %string).
Proof.
  intros Hopts. unfold Dedup.parse. rewrite Hopts. repeat split.
  - intros Habs. rewrite (options_find_absent _ _ Habs). simpl.
    destruct (0 <? length opts)%nat; simpl; eauto.
  - intros val Hnodup Hin Hbad.
    by rewrite (options_find_present _ _ _ Hnodup Hin), Hbad.
  - intros r key value Hparse Hin Hne.
    destruct (options_find "blocksize" opts) as [val|] eqn:Hfind.
    + destruct (size_to_uint64 val) as [bs|]; [|done].
      pose proof (options_erase_keeps _ _ _ Hin Hne) as Hin'.
      destruct (options_erase "blocksize" opts) as [|e rest] eqn:Hrest;
        [done|].
      rewrite <- Hrest in *. clear Hrest. simpl in Hparse.
      replace (0 <? length (options_erase "blocksize" opts))%nat with true
        in Hparse by (destruct (options_erase "blocksize" opts); done).
      injection Hparse as <-. simpl.
      destruct (unknown_options_names _ _ _ Hin') as (between & after & ->).
      exists ""%string, between, (after ++ nl)%string. simpl.
      by rewrite !string_app_assoc.
    + destruct opts as [|e rest] eqn:Hrest; [done|].
      rewrite <- Hrest in *. clear Hrest.
      replace (0 <? length opts)%nat with true in Hparse
        by (destruct opts; done).
      injection Hparse as <-. simpl.
      destruct (unknown_options_names _ _ _ Hin) as (between & after & ->).
      exists ("Blocksize was not set explicitly; set to default 4k" ++ nl)
             %string, between, (after ++ nl)%string.
      by rewrite !string_app_assoc.
Qed.

End OptionsClaims.

Lemma parse_blocksize_and_unknown_keys_witness :
  (exists r rest,
     Dedup.parse Instances.parse_options Instances.size_to_uint64 "foo=1,bar=2"
     = inl r /\ Dedup.blocksize r = 4096
     /\ Dedup.warnings r
        = ("Blocksize was not set explicitly; set to default 4k" ++ Dedup.nl
           ++ rest)%string)
  /\ Dedup.parse Instances.parse_options Instances.size_to_uint64
                 "blocksize=abc,foo=1"
     = inr ("bad block size: " ++ "abc")%string
  /\ (forall r,
        Dedup.parse Instances.parse_options Instances.size_to_uint64
                    "foo=1,bar=2" = inl r ->
        exists before between after,
          Dedup.warnings r
          = (before ++ "Unknown options: " ++ between ++ "bar" ++ " " ++ after)
            %string).
Proof.
  split; [|split].
  - apply (proj1 (parse_blocksize_and_unknown_keys Instances.parse_options
                    Instances.size_to_uint64 "foo=1,bar=2"
                    [("foo", "1"); ("bar", "2")]%string eq_refl)).
    intros val [H|[H|[]]]; discriminate H.
  - apply (proj1 (proj2 (parse_blocksize_and_unknown_keys
                           Instances.parse_options Instances.size_to_uint64
                           "blocksize=abc,foo=1"
                           [("blocksize", "abc"); ("foo", "1")]%string
                           eq_refl))).
    + apply NoDup_cons. split.
      * intros H. apply list_elem_of_In in H. destruct H as [H|[]].
        discriminate H.
      * apply NoDup_cons. split; [|apply NoDup_nil; exact I].
        intros H. apply list_elem_of_In in H. destruct H.
    + left. reflexivity.
    + reflexivity.
  - intros r Hparse.
    apply (proj2 (proj2 (parse_blocksize_and_unknown_keys
                           Instances.parse_options Instances.size_to_uint64
                           "foo=1,bar=2" [("foo", "1"); ("bar", "2")]%string
                           eq_refl)) r "bar"%string "2"%string Hparse).
    + right. left. reflexivity.
    + discriminate.
Defined.

(** C9 as stated fails for an unrecognized key beside a malformed block size:
    the string [blocksize=abc,foo=1] is well formed, [parse] returns the
    error "bad block size: abc" before it looks at the other keys, there is
    no warning, and [foo] is named nowhere. *)
Lemma unknown_key_unnamed_when_blocksize_is_malformed :
  Instances.parse_options "blocksize=abc,foo=1"
  = inl [("blocksize", "abc"); ("foo", "1")]%string
  /\ Dedup.parse Instances.parse_options Instances.size_to_uint64
                 "blocksize=abc,foo=1"
     = inr "bad block size: abc"%string
  /\ (forall r,
        Dedup.parse Instances.parse_options Instances.size_to_uint64
                    "blocksize=abc,foo=1" <> inl r)
  /\ ~ (exists before after,
          "bad block size: abc"%string = (before ++ "foo" ++ after)%string).
Proof.
  split; [vm_compute; reflexivity|]. split; [vm_compute; reflexivity|].
  split.
  - intros r H. vm_compute in H. discriminate H.
  - intros (before & after & H).
    repeat (destruct before as [|? before]; cbv in H;
            [discriminate H|injection H as _ H]).
    destruct before; cbv in H; discriminate H.
Qed.

(** What [parse] makes of four option strings. *)
Example parse_examples :
  Dedup.parse Instances.parse_options Instances.size_to_uint64 "blocksize=8k"
  = inl (Dedup.mk_dedup_options 8192 "")
  /\ Dedup.parse Instances.parse_options Instances.size_to_uint64 "foo=1"
     = inl (Dedup.mk_dedup_options 4096
              ("Blocksize was not set explicitly; set to default 4k"
               ++ Dedup.nl ++ "Unknown options: foo " ++ Dedup.nl))
  /\ Dedup.parse Instances.parse_options Instances.size_to_uint64
                 "blocksize=abc"
     = inr "bad block size: abc"%string
  /\ Dedup.parse Instances.parse_options Instances.size_to_uint64
                 "blocksize=abc,foo=1"
     = inr "bad block size: abc"%string.
Proof. repeat split; vm_compute; reflexivity. Qed.

(** ** The catalog *)

Module VbackupFacts.
Import Vbackup.

Lemma db_find_update id f db :
  (forall r, row_JobId (f r) = row_JobId r) ->
  db_find (db_update id f db) id = f <$> db_find db id.
Proof.
  intros Hf. unfold db_find, db_update.
  induction db as [|r db IH]; simpl; [done|].
  destruct (row_JobId r =? id) eqn:Hid; simpl.
  - by rewrite Hf, Hid.
  - by rewrite Hid.
Qed.

Lemma db_find_update_ne id id' f db :
  (forall r, row_JobId (f r) = row_JobId r) -> id <> id' ->
  db_find (db_update id f db) id' = db_find db id'.
Proof.
  intros Hf Hne. unfold db_find, db_update.
  induction db as [|r db IH]; simpl; [done|].
  destruct (row_JobId r =? id) eqn:Hid; simpl.
  - rewrite Hf. replace (row_JobId r =? id') with false by lia. done.
  - by rewrite IH.
Qed.

Lemma db_find_JobId db id r : db_find db id = Some r -> row_JobId r = id.
Proof.
  unfold db_find. intros H. apply find_some in H as [_ H]. lia.
Qed.

Lemma frame_refl j : frame j j.
Proof. by unfold frame. Qed.

Lemma frame_trans j1 j2 j3 : frame j1 j2 -> frame j2 j3 -> frame j1 j3.
Proof.
  unfold frame. intros (? & ? & ? & ?) (? & ? & ? & ?).
  repeat split; try congruence. auto.
Qed.

Lemma db_find_update_is_Some id id' f db :
  (forall r, row_JobId (f r) = row_JobId r) ->
  is_Some (db_find db id') -> is_Some (db_find (db_update id f db) id').
Proof.
  intros Hf [r Hr]. destruct (decide (id = id')) as [->|Hne].
  - rewrite db_find_update, Hr by done. by eexists.
  - rewrite db_find_update_ne, Hr by done. by eexists.
Qed.


Lemma db_find_purge id ids db :
  ~ In id ids ->
  db_find (filter (fun r => existsb (Z.eqb (row_JobId r)) ids = false) db) id
  = db_find db id.
Proof.
  intros Hid. unfold db_find. induction db as [|r db IH]; [done|].
  rewrite filter_cons. destruct (decide _) as [Hkeep|Hdrop]; simpl.
  - by rewrite IH.
  - rewrite IH. apply not_false_is_true in Hdrop.
    apply existsb_exists in Hdrop as (x & Hin & Heq).
    destruct (row_JobId r =? id) eqn:E; [|done].
    exfalso. apply Hid. by replace id with x by lia.
Qed.

Lemma existsb_eqb_In (id : Z) ids :
  existsb (Z.eqb id) ids = true <-> In id ids.
Proof.
  rewrite existsb_exists. split.
  - intros (x & Hin & Heq). by replace id with x by lia.
  - intros Hin. exists id. split; [done|lia].
Qed.

(** the decimal text of a number starts with the digit 0 only for 0 *)
Lemma pretty_N_go_first x s :
  (0 < x)%N ->
  exists c rest, pretty_N_go x s = String c rest /\ c <> "0"%char.
Proof.
  revert s. induction (N.lt_wf_0 x) as [x _ IH]; intros s Hx.
  rewrite pretty_N_go_step by done.
  destruct (decide (x < 10)%N) as [Hlt|Hge].
  - rewrite N.div_small, pretty_N_go_0 by done.
    eexists _, _. split; [done|].
    rewrite N.mod_small by done.
    assert (x = 1 \/ x = 2 \/ x = 3 \/ x = 4 \/ x = 5 \/ x = 6
            \/ x = 7 \/ x = 8 \/ x = 9)%N as Hcases by lia.
    destruct Hcases as [->|[->|[->|[->|[->|[->|[->|[->| ->]]]]]]]]; done.
  - apply IH.
    + apply N.div_lt; lia.
    + apply N.div_str_pos. lia.
Qed.

Lemma first_char_not_0_pretty (z : Z) :
  first_char_not_0 (pretty z) = negb (z =? 0).
Proof.
  destruct z as [|p|p]; [done| |done].
  unfold pretty, pretty_Z, pretty, pretty_positive, pretty, pretty_N.
  destruct (decide (N.pos p = 0%N)); [done|].
  destruct (pretty_N_go_first (N.pos p) "") as (c & rest & -> & Hc); [lia|].
  simpl. destruct (Ascii.eqb_spec c "0"); done.
Qed.

Lemma SqlQuery_handler_result rows cc :
  JobList (SqlQuery_handler rows cc)
  = JobList cc ++ map (fun row => field row col_JobId) rows
  /\ JobsWithPurgedFiles (SqlQuery_handler rows cc)
     = JobsWithPurgedFiles cc
       ++ map (fun row => field row col_JobId)
              (List.filter (fun row => first_char_not_0 (field row col_PurgedFiles))
                           rows).
Proof.
  revert cc. induction rows as [|row rows IH]; intros cc.
  - simpl. by rewrite !app_nil_r.
  - change (SqlQuery_handler (row :: rows) cc)
      with (SqlQuery_handler rows (cc_call cc row).2).
    destruct (IH (cc_call cc row).2) as [-> ->]. simpl.
    destruct (first_char_not_0 (field row col_PurgedFiles)); simpl;
      by rewrite <- !app_assoc.
Qed.

Lemma report_purged_log purged j :
  log (report_purged purged j)
  = log j ++ map (fun id => EvJmsg M_ERROR
                    ("Files for JobId " ++ id
                     ++ " have been purged from the catalog" ++ nl)%string)
                 purged
  /\ db (report_purged purged j) = db j.
Proof.
  unfold report_purged. revert j.
  induction purged as [|id purged IH]; intros j; simpl.
  - by rewrite app_nil_r.
  - destruct (IH (Jmsg M_ERROR ("Files for JobId " ++ id
                     ++ " have been purged from the catalog" ++ nl)%string j))
      as [-> ->].
    simpl. by rewrite <- app_assoc.
Qed.


End VbackupFacts.

(** ** Claims about the consolidator *)

Ltac solve_frame :=
  unfold Vbackup.frame; simpl; repeat split; try done;
  try (intros id Hid; apply VbackupFacts.db_find_update_is_Some; done).

Ltac step_frame H prev new :=
  let Hnew := fresh "Hdef" in
  let F := fresh "F" in
  step_let H new Hnew;
  assert (F : Vbackup.frame prev new)
    by (rewrite Hnew; repeat case_goal; solve_frame);
  clear Hnew.

Section ConsolidatorClaims.
Import Vbackup VbackupFacts.

Variable split_string : string -> ascii -> list string.
Variable str_to_int64 : string -> Z.
Variable bstrutime : Z -> string.
Variable StrToUtime : string -> Z.
Variable job_level_to_str : Z -> string.
Variable status_after : JobStatus_t -> JobStatus_t -> JobStatus_t.

Local Abbreviation NativeVbackupCleanup :=
  (NativeVbackupCleanup bstrutime StrToUtime job_level_to_str status_after).
Local Abbreviation DoNativeVbackup :=
  (DoNativeVbackup split_string str_to_int64 bstrutime StrToUtime
                   job_level_to_str status_after).
Local Abbreviation jobids_of := (jobids_of split_string str_to_int64).
Local Abbreviation select_jobs := (select_jobs split_string str_to_int64).

(** What the cleanup does to the job record and to the job's row. *)
Lemma cleanup_effect env j TermCode JobLevel row j' :
  NativeVbackupCleanup env j TermCode JobLevel = j' ->
  JobStatus j = JS_Terminated \/ JobStatus j = JS_Warnings ->
  db_find (db j) (JobId j) = Some row ->
  JobId j' = JobId j /\
  jr_JobLevel (jr (impl j')) = JobLevel /\
  jr_cStartTime (jr (impl j')) = jr_cStartTime (previous_jr (impl j)) /\
  jr_cEndTime (jr (impl j')) = jr_cEndTime (previous_jr (impl j)) /\
  jr_JobTDate (jr (impl j')) = jr_JobTDate (previous_jr (impl j)) /\
  exists row',
    db_find (db j') (JobId j) = Some row'
    /\ row_Level row' = JobLevel
    /\ row_StartTime row' = jr_cStartTime (previous_jr (impl j))
    /\ row_EndTime row' = jr_cEndTime (previous_jr (impl j))
    /\ row_JobTDate row' = jr_JobTDate (previous_jr (impl j)).
Proof.
  intros H Hst Hrow.
  cbv delta [Vbackup.NativeVbackupCleanup] in H. cbv beta in H.
  step_let H j1 H1.
  assert (F1 : JobId j1 = JobId j /\ db j1 = db j
               /\ jr_JobLevel (jr (impl j1)) = JobLevel
               /\ previous_jr (impl j1) = previous_jr (impl j)).
  { rewrite H1. destruct Hst as [-> | ->]; simpl; done. }
  clear H1. destruct F1 as (Hid1 & Hdb1 & Hlvl1 & Hprev1).
  step_let H j2 H2.
  assert (F2 : JobId j2 = JobId j1 /\ db j2 = db j1 /\ impl j2 = impl j1).
  { by rewrite H2. }
  clear H2. destruct F2 as (Hid2 & Hdb2 & Himpl2).
  step_let H T HT. clear HT.
  step_let H j3 H3.
  assert (F3 : JobId j3 = JobId j2
               /\ db j3 = db_update (JobId j2)
                            (row_with_end (jr_JobLevel (jr (impl j2)))
                               (jr_JobStatus (jr (impl j3)))
                               (bstrutime (jr_EndTime (jr (impl j3))))
                               (jr_JobFiles (jr (impl j3)))
                               (jr_JobBytes (jr (impl j3)))
                               (jr_JobErrors (jr (impl j3)))) (db j2)
               /\ jr_JobId (jr (impl j3)) = JobId j2
               /\ previous_jr (impl j3) = previous_jr (impl j2)).
  { by rewrite H3. }
  clear H3. destruct F3 as (Hid3 & Hdb3 & Hjr3 & Hprev3).
  step_let H j4 H4.
  assert (F4 : JobId j4 = JobId j3
               /\ db j4 = db_update (JobId j3)
                            (row_with_times
                               (jr_cStartTime (previous_jr (impl j3)))
                               (jr_cEndTime (previous_jr (impl j3)))
                               (jr_JobTDate (previous_jr (impl j3)))) (db j3)
               /\ impl j4 = impl j3).
  { by rewrite H4. }
  clear H4. destruct F4 as (Hid4 & Hdb4 & Himpl4).
  step_let H j5 H5.
  assert (Hfind : exists row',
             db_find (db j4) (JobId j) = Some row'
             /\ row_Level row' = JobLevel
             /\ row_StartTime row' = jr_cStartTime (previous_jr (impl j))
             /\ row_EndTime row' = jr_cEndTime (previous_jr (impl j))
             /\ row_JobTDate row' = jr_JobTDate (previous_jr (impl j))).
  { rewrite Hdb4, Hdb3, Hid3, Hid2, Hid1, Hdb2, Hdb1.
    rewrite !db_find_update, Hrow by done. simpl.
    eexists. split; [done|]. simpl.
    rewrite Hprev3, Himpl2, Hprev1, Hlvl1. done. }
  destruct Hfind as (row' & Hfind & Hl & Hs & He & Ht).
  assert (F5 : JobId j5 = JobId j /\ db j5 = db j4
               /\ jr_JobLevel (jr (impl j5)) = JobLevel
               /\ jr_cStartTime (jr (impl j5)) = jr_cStartTime (previous_jr (impl j))
               /\ jr_cEndTime (jr (impl j5)) = jr_cEndTime (previous_jr (impl j))
               /\ jr_JobTDate (jr (impl j5)) = jr_JobTDate (previous_jr (impl j))).
  { rewrite H5. unfold GetJobRecord.
    rewrite Himpl4, Hjr3, Hid2, Hid1, Hfind. simpl.
    rewrite Hid4, Hid3, Hid2, Hid1. done. }
  clear H5. destruct F5 as (Hid5 & Hdb5 & F5).
  step_let H j6 H6.
  assert (F6 : JobId j6 = JobId j5 /\ db j6 = db j5 /\ jr (impl j6) = jr (impl j5)).
  { rewrite H6. repeat case_goal; done. }
  clear H6. destruct F6 as (Hid6 & Hdb6 & Hjr6).
  step_let H j7 H7.
  assert (F7 : JobId j7 = JobId j6 /\ db j7 = db j6 /\ jr (impl j7) = jr (impl j6)).
  { rewrite H7. repeat case_goal; done. }
  clear H7. destruct F7 as (Hid7 & Hdb7 & Hjr7).
  step_let H j8 H8.
  assert (F8 : JobId j8 = JobId j7 /\ db j8 = db j7 /\ jr (impl j8) = jr (impl j7)).
  { by rewrite H8. }
  clear H8. destruct F8 as (Hid8 & Hdb8 & Hjr8).
  step_let H terminate Hterm.
  assert (F9 : JobId j' = JobId j8 /\ db j' = db j8 /\ jr (impl j') = jr (impl j8)).
  { rewrite <- H, Hterm. repeat case_goal; done. }
  destruct F9 as (Hid9 & Hdb9 & Hjr9).
  rewrite Hid9, Hid8, Hid7, Hid6, Hid5.
  rewrite Hjr9, Hjr8, Hjr7, Hjr6.
  rewrite Hdb9, Hdb8, Hdb7, Hdb6, Hdb5.
  split; [done|]. destruct F5 as (? & ? & ? & ?).
  repeat (split; [done|]). eauto 10.
Qed.


Lemma GetJobRecord_Some db r r' :
  GetJobRecord StrToUtime db r = Some r' ->
  exists row, db_find db (jr_JobId r) = Some row
              /\ jr_JobLevel r' = row_Level row
              /\ jr_cStartTime r' = row_StartTime row
              /\ jr_cEndTime r' = row_EndTime row
              /\ jr_JobTDate r' = row_JobTDate row.
Proof.
  unfold GetJobRecord. destruct (db_find db (jr_JobId r)) as [row|]; [|done].
  intros [= <-]. by exists row.
Qed.

(** What a run that succeeds leaves in the job record and in the catalog. *)
Lemma run_effect env j j' row :
  DoNativeVbackup env j = (true, j') ->
  db_find (db j) (JobId j) = Some row ->
  exists front rest first_row last_row,
    split_string (GetVfJobids env j) ","%char = front :: rest
    /\ db_find (db j) (str_to_int64 front) = Some first_row
    /\ db_find (db j) (str_to_int64 (List.last (front :: rest) front))
       = Some last_row
    /\ jr_JobLevel (jr (impl j')) = row_Level first_row
    /\ jr_cStartTime (jr (impl j')) = row_StartTime last_row
    /\ jr_cEndTime (jr (impl j')) = row_EndTime last_row
    /\ jr_JobTDate (jr (impl j')) = row_JobTDate last_row
    /\ (~ In (JobId j) (jobids_of (GetVfJobids env j)) ->
        exists row',
          db_find (db j') (JobId j) = Some row'
          /\ row_Level row' = row_Level first_row
          /\ row_StartTime row' = row_StartTime last_row
          /\ row_EndTime row' = row_EndTime last_row
          /\ row_JobTDate row' = row_JobTDate last_row).
Proof.
  intros H Hrow.
  cbv delta [Vbackup.DoNativeVbackup] in H. cbv beta in H.
  step_if H. step_if H.
  step_let H ja Hja. step_let H jb Hjb.
  assert (Hb : JobId jb = JobId j /\ db jb = db j /\ impl jb = impl j).
  { rewrite Hjb, Hja. case_goal; repeat split; reflexivity. }
  clear Hja Hjb ja. destruct Hb as (Hidb & Hdbb & Himplb).
  step_let H jobids Hjobids.
  assert (jobids = GetVfJobids env j) as ->.
  { rewrite Hjobids. unfold GetVfJobids. by rewrite Himplb. }
  clear Hjobids.
  step_let H jobid_list Hlist.
  destruct jobid_list as [|front rest]; [discriminate H|].
  step_let H cc Hcc. clear Hcc. step_if H. step_if H.
  step_let H tmp_jr Htmp.
  destruct (GetJobRecord StrToUtime (db jb) tmp_jr) as [tmp_jr0|] eqn:Hfirst;
    [|discriminate H].
  apply GetJobRecord_Some in Hfirst as (first_row & Hfirst & Hlvl & _).
  rewrite Htmp, Hdbb in Hfirst. simpl in Hfirst. clear Htmp.
  step_let H JobLevel_of_first_job HJobLevel.
  step_let H jc Hjc.
  destruct (GetJobRecord StrToUtime (db jc) (previous_jr (impl jc)))
    as [prev|] eqn:Hprev; [|discriminate H].
  apply GetJobRecord_Some in Hprev as (last_row & Hlast & _ & Hps & Hpe & Hpt).
  rewrite Hjc in Hlast. simpl in Hlast. rewrite Hdbb in Hlast.
  step_let H jd Hjd.
  assert (Hd : JobId jd = JobId j /\ db jd = db j
               /\ previous_jr (impl jd) = prev).
  { rewrite Hjd, Hjc. simpl. rewrite Hidb, Hdbb. done. }
  clear Hjd Hjc jc. destruct Hd as (Hidd & Hdbd & Hprevd).
  destruct (CreateBootstrapFile env jd (GetVfJobids env j)) as [b je] eqn:Hboot.
  assert (Fe : frame jd je).
  { unfold CreateBootstrapFile in Hboot.
    repeat case_match; simplify_eq; solve_frame. }
  clear Hboot. destruct b; [|discriminate H].
  step_frame H je jf. step_frame H jf jg. step_frame H jg jh. step_if H.
  step_frame H jh ji. step_if H.
  step_frame H ji jj. step_frame H jj jk. step_frame H jk jl.
  destruct (UpdateJobStartRecord bstrutime (db jl) (jr (impl jl)))
    as [b db'] eqn:Hupd.
  unfold UpdateJobStartRecord in Hupd. injection Hupd as <- <-.
  step_frame H jl jm. step_frame H jm jn. step_if H.
  step_frame H jn jo. step_if H.
  step_frame H jo jp. step_frame H jp jq. step_frame H jq jr_.
  step_frame H jr_ js. step_frame H js jt. step_if H.
  assert (Ft : frame jd jt) by (repeat (eapply frame_trans; [eassumption|]); apply frame_refl).
  destruct Ft as (Hidt & Hprevt & _ & Hsome).
  destruct (Hsome (JobId jt)) as [rowt Hrowt].
  { rewrite Hidt, Hidd, Hdbd, Hrow. by eexists. }
  step_let H ju Hju. symmetry in Hju.
  apply (cleanup_effect _ _ _ _ rowt) in Hju
    as (_ & Hl & Hs & He & Ht & row' & Hrow' & Hrl & Hrs & Hre & Hrt);
    [| |done].
  2:{ left. unfold is_JobStatus in *. by destruct (bool_decide_reflect (JobStatus jt = JS_Terminated)). }
  step_let H jv Hjv.
  assert (Hv : jr (impl jv) = jr (impl ju)
               /\ (~ In (JobId j) (jobids_of (GetVfJobids env j)) ->
                   db_find (db jv) (JobId j) = db_find (db ju) (JobId j))).
  { rewrite Hjv. case_goal; (split; [reflexivity|]); [|done].
    intros Hnot. simpl. by apply db_find_purge. }
  destruct Hv as [Hv Hdbv].
  injection H as <-.
  exists front, rest, first_row, last_row.
  rewrite Hv, Hl, Hs, He, Ht, Hprevt, Hprevd, HJobLevel.
  repeat split; try done.
  intros Hnot. exists row'.
  rewrite Hdbv, <- Hidd, <- Hidt, Hrow', Hrl, Hrs, Hre, Hrt, Hprevt, Hprevd,
    HJobLevel by done.
  repeat split; done.
Qed.


(** C6, as the code has it: when the read and write storage are given and the
    consistency query returns as many rows as the consolidation list has
    entries, a JobId of the list with a non-zero PurgedFiles makes the run
    fail, after an error message for each such JobId and without any call to
    connect to the storage daemon. *)
Theorem purged_jobs_fail_the_run env j :
  read_storage_list (res (impl j)) = true ->
  write_storage_list (res (impl j)) = true ->
  length (select_jobs (db j) (GetVfJobids env j))
  = length (split_string (GetVfJobids env j) ","%char) ->
  (exists r, In r (db j) /\ In (row_JobId r) (jobids_of (GetVfJobids env j))
             /\ row_PurgedFiles r <> 0) ->
  exists j' new,
    DoNativeVbackup env j = (false, j')
    /\ log j' = log j ++ new
    /\ db j' = db j
    /\ ~ In EvConnectToStorageDaemon new
    /\ forall r, In r (db j) ->
                 In (row_JobId r) (jobids_of (GetVfJobids env j)) ->
                 row_PurgedFiles r <> 0 ->
                 In (purged_message (pretty (row_JobId r))) new.
Proof.
  intros Hread Hwrite Hcount (r0 & Hin0 & Hid0 & Hp0).
  destruct (DoNativeVbackup env j) as [ok j'] eqn:H.
  cbv delta [Vbackup.DoNativeVbackup] in H. cbv beta in H.
  destruct (negb (read_storage_list (res (impl j)))) eqn:E1;
    [by rewrite Hread in E1|].
  destruct (negb (write_storage_list (res (impl j)))) eqn:E2;
    [by rewrite Hwrite in E2|].
  step_let H ja Hja. step_let H jb Hjb.
  assert (Hb : db jb = db j /\ impl jb = impl j
               /\ exists newb, log jb = log j ++ newb
                               /\ ~ In EvConnectToStorageDaemon newb
                               /\ forall e, In e newb -> exists t s, e = EvJmsg t s).
  { rewrite Hjb, Hja. case_goal; (split; [reflexivity|split; [reflexivity|]]);
      simpl; eexists; (split; [by rewrite <- ?app_assoc|]); simpl;
      (split; [intros H'; decompose [or] H'; done
              |intros e H'; decompose [or] H'; subst; eauto; done]). }
  clear Hja Hjb ja. destruct Hb as (Hdbb & Himplb & newb & Hlogb & Hnob & _).
  step_let H jobids Hjobids.
  assert (jobids = GetVfJobids env j) as ->.
  { rewrite Hjobids. unfold GetVfJobids. by rewrite Himplb. }
  clear Hjobids.
  step_let H jobid_list Hlist.
  destruct jobid_list as [|front rest].
  { unfold Vbackup.jobids_of in Hid0. by rewrite <- Hlist in Hid0. }
  step_let H cc Hcc.
  pose proof (SqlQuery_handler_result
                (select_jobs (db jb) (GetVfJobids env j)) (mk_cc [] []))
    as [HJobList Hpurged].
  rewrite <- Hcc in HJobList, Hpurged. simpl in HJobList, Hpurged.
  rewrite Hdbb in HJobList, Hpurged. clear Hcc.
  assert (Hnamed : forall r, In r (db j) ->
             In (row_JobId r) (jobids_of (GetVfJobids env j)) ->
             row_PurgedFiles r <> 0 ->
             In (pretty (row_JobId r)) (JobsWithPurgedFiles cc)).
  { intros r Hin Hid Hp. rewrite Hpurged.
    apply in_map_iff. exists (render_row r). split; [done|].
    apply filter_In. split.
    - unfold Vbackup.select_jobs. apply in_map.
      apply list_elem_of_In, list_elem_of_filter. split.
      + by apply existsb_eqb_In.
      + by apply list_elem_of_In.
    - change (field (render_row r) col_PurgedFiles)
        with (pretty (row_PurgedFiles r)).
      rewrite first_char_not_0_pretty. lia. }
  destruct (negb (CheckNumJobs cc (length (front :: rest)))) eqn:E3.
  { unfold CheckNumJobs in E3. rewrite HJobList, length_map, Hcount, <- Hlist in E3.
    rewrite Nat.eqb_refl in E3. done. }
  destruct (negb (CheckPurgedFiles cc)) eqn:E4.
  2:{ unfold CheckPurgedFiles in E4. specialize (Hnamed r0 Hin0 Hid0 Hp0).
      destruct (JobsWithPurgedFiles cc); [done|done]. }
  cbv zeta in H. injection H as <- <-.
  destruct (report_purged_log (JobsWithPurgedFiles cc) jb) as [Hlog Hdb].
  eexists _, _. split; [reflexivity|].
  split.
  { simpl. rewrite Hlog, Hlogb, <- !app_assoc. reflexivity. }
  split; [simpl; by rewrite Hdb|].
  split.
  - rewrite !in_app_iff, in_map_iff. intros [?|[(id & ? & _)|[?|[]]]]; done.
  - intros r Hin Hid Hp. rewrite !in_app_iff, in_map_iff.
    right. left. exists (pretty (row_JobId r)). split; [done|]. by apply Hnamed.
Qed.

End ConsolidatorClaims.


(** The consolidation of 100, 101, 102 into job 200: the job gets the level
    of job 100 and the times of job 102. *)
Example consolidation_scenario :
  let j' := (Instances.run (Instances.example_env Vbackup.JS_Terminated)
                           (Instances.example_jcr Instances.chain_catalog)).2 in
  Vbackup.db_find (Vbackup.db j') 200
  = Some (Vbackup.mk_JobRow 200 "B" 70 1 1 Vbackup.JS_Terminated
            "1672704000" "1672707600" 1672704000 30 3000 0 0).
Proof. vm_compute. reflexivity. Qed.

(** When the storage daemon ends the job with Warnings the run phase returns
    false before it calls the cleanup, with the record of job 102 already in
    [previous_jr]; the cleanup that the caller then runs on that job, with
    the level of job 100, leaves the row of job 200 with the level 70 and
    the times of job 102. *)
Example cleanup_after_warnings_scenario :
  let env := Instances.example_env Vbackup.JS_Warnings in
  let r := Instances.run env (Instances.example_jcr Instances.chain_catalog) in
  r = (false, Instances.warnings_end_state)
  /\ Vbackup.JobStatus Instances.warnings_end_state = Vbackup.JS_Warnings
  /\ Vbackup.jr_JobId
       (Vbackup.previous_jr (Vbackup.impl Instances.warnings_end_state)) = 102
  /\ Vbackup.db_find
       (Vbackup.db (Instances.cleanup env Instances.warnings_end_state
                      Vbackup.JS_ErrorTerminated 70)) 200
     = Some (Vbackup.mk_JobRow 200 "B" 70 1 1 Vbackup.JS_ErrorTerminated
               "1672704000" "1672707600" 1672704000 30 3000 0 0).
Proof. repeat split; vm_compute; reflexivity. Qed.

Lemma purged_jobs_fail_the_run_witness :
  exists j' new,
    Instances.run (Instances.example_env Vbackup.JS_Terminated)
                  (Instances.example_jcr Instances.purged_catalog)
    = (false, j')
    /\ Vbackup.log j'
       = Vbackup.log (Instances.example_jcr Instances.purged_catalog) ++ new
    /\ Vbackup.db j'
       = Vbackup.db (Instances.example_jcr Instances.purged_catalog)
    /\ ~ In Vbackup.EvConnectToStorageDaemon new
    /\ forall r,
         In r (Vbackup.db (Instances.example_jcr Instances.purged_catalog)) ->
         In (Vbackup.row_JobId r)
            (Vbackup.jobids_of Instances.split_string Instances.str_to_int64
               (Vbackup.GetVfJobids
                  (Instances.example_env Vbackup.JS_Terminated)
                  (Instances.example_jcr Instances.purged_catalog))) ->
         Vbackup.row_PurgedFiles r <> 0 ->
         In (Vbackup.purged_message (pretty (Vbackup.row_JobId r))) new.
Proof.
  apply (purged_jobs_fail_the_run Instances.split_string
           Instances.str_to_int64 Instances.bstrutime Instances.StrToUtime
           Instances.job_level_to_str Instances.status_after).
  - reflexivity.
  - reflexivity.
  - vm_compute. reflexivity.
  - exists (Instances.job_row 101 73 "1672617600" "1672621200" 1672617600 1).
    split; [|split].
    + simpl. right. left. reflexivity.
    + vm_compute. right. left. reflexivity.
    + vm_compute. discriminate.
Defined.

(** The purged-job scenario: the chain 100, 101, 102 with the files of 101
    purged. *)
Example purged_job_scenario :
  let r := Instances.run (Instances.example_env Vbackup.JS_Terminated)
                         (Instances.example_jcr Instances.purged_catalog) in
  r.1 = false
  /\ In (Vbackup.purged_message "101") (Vbackup.log r.2)
  /\ ~ In Vbackup.EvConnectToStorageDaemon (Vbackup.log r.2).
Proof.
  vm_compute. split; [reflexivity|]. split; [tauto|].
  intros H. decompose [or] H; (discriminate || contradiction).
Qed.

(** C6 as stated fails when another JobId of the list is not in the catalog:
    job 101 has PurgedFiles = 1 and job 102 has no row; the run fails on the
    missing job and no message names job 101. *)
Lemma purged_job_not_named_when_a_job_is_missing :
  let j := Instances.example_jcr Instances.purged_and_missing_catalog in
  let r := Instances.run (Instances.example_env Vbackup.JS_Terminated) j in
  (exists row,
     In row (Vbackup.db j)
     /\ In (Vbackup.row_JobId row)
           (Vbackup.jobids_of Instances.split_string Instances.str_to_int64
              (Vbackup.GetVfJobids
                 (Instances.example_env Vbackup.JS_Terminated) j))
     /\ Vbackup.row_JobId row = 101
     /\ Vbackup.row_PurgedFiles row <> 0)
  /\ r.1 = false
  /\ ~ In (Vbackup.purged_message "101") (Vbackup.log r.2)
  /\ ~ (exists text, In (Vbackup.EvJmsg Vbackup.M_ERROR text) (Vbackup.log r.2)
                     /\ text <> ("JobId 102 is not present in the catalog"
                                 ++ Vbackup.nl)%string).
Proof.
  cbv zeta. split; [|split; [|split]].
  - exists (Instances.job_row 101 73 "1672617600" "1672621200" 1672617600 1).
    split; [simpl; tauto|]. split; [vm_compute; tauto|].
    split; [reflexivity|vm_compute; discriminate].
  - vm_compute. reflexivity.
  - vm_compute. intros H. decompose [or] H; (discriminate || contradiction).
  - intros (text & Hin & Hne). vm_compute in Hin.
    decompose [or] Hin; try discriminate; try done.
    match goal with H : Vbackup.EvJmsg _ _ = Vbackup.EvJmsg _ _ |- _ =>
      injection H as <- end.
    apply Hne. vm_compute. reflexivity.
Qed.

(** * More properties of the device and of the codec *)

(** ** The cursor *)

Lemma shiftl_32_lor (f b : Z) :
  0 <= f -> 0 <= b < 2 ^ 32 ->
  Z.lor (Z.shiftl f 32) b = f * 2 ^ 32 + b.
Proof.
  intros Hf Hb.
  rewrite Z.shiftl_mul_pow2 by lia.
  assert (Hland : Z.land (f * 2 ^ 32) b = 0).
  { apply Z.bits_inj'. intros n Hn. rewrite Z.land_spec, Z.bits_0.
    destruct (Z.lt_ge_cases n 32) as [Hlt|Hge].
    - by rewrite Z.mul_pow2_bits_low by lia.
    - rewrite (Z.bits_above_log2 b n), andb_false_r; [done|lia|].
      destruct (Z.eq_dec b 0) as [->|Hne]; [simpl; lia|].
      apply Z.lt_le_trans with 32; [|done].
      apply Z.log2_lt_pow2; lia. }
  by rewrite <- Z.lxor_lor, Z.add_nocarry_lxor.
Qed.

(** X1: [block_number] puts the file number in the upper 32 bits and the
    block number in the lower 32 bits of the cursor: on two [uint32] values it
    is [rfile * 2^32 + rblock], and the decomposition that [eod] uses, the
    shift by 32 and the cut to 32 bits, gives both back.  So two cursors are
    the same block only when file and block number are the same. *)
Theorem block_number_cursor (rfile rblock : Z) :
  0 <= rfile < 2 ^ 32 -> 0 <= rblock < 2 ^ 32 ->
  Dedup.block_number rfile rblock = rfile * 2 ^ 32 + rblock
  /\ Z.shiftr (Dedup.block_number rfile rblock) 32 mod 2 ^ 32 = rfile
  /\ Dedup.block_number rfile rblock mod 2 ^ 32 = rblock.
Proof.
  intros Hf Hb. unfold Dedup.block_number.
  rewrite shiftl_32_lor by lia.
  rewrite Z.shiftr_div_pow2 by lia.
  split; [reflexivity|]. split.
  - rewrite Z.div_add_l by lia. rewrite (Z.div_small rblock) by lia.
    rewrite Z.add_0_r. apply Z.mod_small. lia.
  - rewrite Z.add_comm, Z.mod_add by lia. apply Z.mod_small. lia.
Qed.

Lemma block_number_of_size (n : Z) :
  0 <= n < 2 ^ 64 ->
  Dedup.block_number (Z.shiftr n 32 mod 2 ^ 32) (n mod 2 ^ 32) = n.
Proof.
  intros Hn. unfold Dedup.block_number.
  rewrite shiftl_32_lor.
  - rewrite Z.shiftr_div_pow2 by lia.
    rewrite (Z.mod_small (n / 2 ^ 32)).
    + pose proof (Z.div_mod n (2 ^ 32)). lia.
    + split; [apply Z.div_pos; lia|].
      apply Z.div_lt_upper_bound; lia.
  - apply Z.mod_pos_bound. lia.
  - apply Z.mod_pos_bound. lia.
Qed.

Module DedupMoreFacts.
Import Dedup DedupFacts.

Lemma append_block_true_ok v b v' :
  append_block v b = (true, v') -> vol_ok v' = true.
Proof.
  unfold append_block. destruct (io_begin v) as [v1|] eqn:Hio; [|done].
  apply io_begin_Some in Hio as (_ & Hok & _). by intros [= <-].
Qed.

Lemma append_records_keeps v records :
  vol_blocks (append_records v records).2 = vol_blocks v
  /\ (exists rs, vol_records (append_records v records).2 = vol_records v ++ rs)
  /\ vol_data (append_records v records).2 = vol_data v.
Proof.
  unfold append_records. destruct (io_begin v) as [v1|] eqn:Hio; cbn [snd].
  - apply io_begin_Some in Hio as (_ & _ & Hd & Hr & Hb & _).
    simpl. rewrite Hr. eauto.
  - pose proof (io_failed_segments v) as (Hd & Hr & Hb).
    rewrite Hd, Hr, Hb.
    repeat split; try done. exists []. by rewrite app_nil_r.
Qed.

Lemma append_block_keeps v b :
  vol_records (append_block v b).2 = vol_records v
  /\ vol_data (append_block v b).2 = vol_data v.
Proof.
  unfold append_block. destruct (io_begin v) as [v1|] eqn:Hio; cbn [snd].
  - by apply io_begin_Some in Hio as (_ & _ & Hd & Hr & Hb & _).
  - pose proof (io_failed_segments v) as (Hd & Hr & Hb). by rewrite Hd, Hr.
Qed.

Lemma read_block_app v v' bs i b :
  vol_blocks v' = vol_blocks v ++ bs ->
  read_block v i = Some b -> read_block v' i = Some b.
Proof.
  unfold read_block. intros ->. destruct (i <? 0); [done|].
  intros H. by apply lookup_app_l_Some.
Qed.

Lemma read_records_app v v' rs start count x :
  vol_records v' = vol_records v ++ rs ->
  read_records v start count = Some x -> read_records v' start count = Some x.
Proof.
  unfold read_records. intros ->.
  destruct ((0 <=? start) && (0 <=? count)
            && (start + count <=? Z.of_nat (length (vol_records v)))) eqn:Hin;
    [|done].
  intros [= <-].
  replace ((0 <=? start) && (0 <=? count)
           && (start + count <=? Z.of_nat (length (vol_records v ++ rs))))
    with true by (rewrite length_app; lia).
  rewrite slice_app_l by lia. done.
Qed.

Lemma read_data_length v file_index start sz x :
  read_data v file_index start sz = Some x ->
  0 <= sz /\ Z.of_nat (length x) = sz.
Proof.
  unfold read_data. destruct (file_index <? 0); [done|].
  destruct (vol_data v !! Z.to_nat file_index) as [f|]; [|done].
  destruct ((0 <=? start) && (0 <=? sz) && (start + sz <=? Z.of_nat (length f)))
    eqn:Hin; [|done].
  intros [= <-]. split; [lia|]. apply length_slice; lia.
Qed.

End DedupMoreFacts.

Section CodecMore.
Import Dedup DedupFacts DedupMoreFacts.

Variable blockheader_size : Z.
Variable recheader_size : Z.
Variable BlockSize : list byte -> N.
Variable DataSize : list byte -> N.

Hypothesis blockheader_size_pos : 0 < blockheader_size.
Hypothesis recheader_size_pos : 0 < recheader_size.

Local Abbreviation scatter_record := (scatter_record recheader_size DataSize).
Local Abbreviation scatter_loop := (scatter_loop recheader_size DataSize).
Local Abbreviation scatter :=
  (scatter blockheader_size recheader_size BlockSize DataSize).
Local Abbreviation block_records := (block_records recheader_size DataSize).
Local Abbreviation gather_loop := (gather_loop recheader_size).
Local Abbreviation gather := (gather blockheader_size recheader_size BlockSize).

(** the volume that a turn of the loop, or the loop, leaves *)
Lemma scatter_record_keeps vol data block current end_ :
  match scatter_record vol data block current end_ with
  | BadRecord => True
  | AppendFailed vol' | Appended _ _ vol' =>
      vol_blocks vol' = vol_blocks vol /\ vol_records vol' = vol_records vol
      /\ data_le (vol_data vol) (vol_data vol')
  end.
Proof.
  unfold Dedup.scatter_record.
  destruct (current + recheader_size >? end_); [done|].
  match goal with |- context [append_data ?v ?b ?r ?p] =>
    pose proof (append_data_segments v b r p) as [Hr Hb];
    pose proof (append_data_le v b r p) as Hle;
    destruct (append_data v b r p) as [[loc|] v1] end; simpl in *; auto.
Qed.

Lemma scatter_loop_keeps data block end_ fuel :
  forall vol current acc res,
    scatter_loop fuel vol data block current end_ acc = Some res ->
    forall vol1,
      match res with LoopDone _ _ v | LoopReturn _ v => v end = vol1 ->
      vol_blocks vol1 = vol_blocks vol /\ vol_records vol1 = vol_records vol
      /\ data_le (vol_data vol) (vol_data vol1).
Proof.
  induction fuel as [|fuel IH]; intros vol current acc res; simpl;
    destruct (current =? end_); try done;
    try (intros [= <-] vol1 <-; auto using data_le_refl).
  pose proof (scatter_record_keeps vol data block current end_) as Hstep.
  destruct (scatter_record vol data block current end_)
    as [|vf|rec payload_end vol'].
  - intros [= <-] vol1 <-; auto using data_le_refl.
  - by intros [= <-] vol1 <-.
  - intros Hloop vol1 Hres. destruct Hstep as (Hb & Hr & Hle).
    destruct (IH _ _ _ _ Hloop vol1 Hres) as (Hb' & Hr' & Hle').
    rewrite Hb', Hr', Hb, Hr. eauto using data_le_trans.
Qed.

(** What any return of [scatter] leaves in the volume. *)
Lemma scatter_segments vol data n vol' :
  scatter vol data = Some (n, vol') ->
  data_le (vol_data vol) (vol_data vol')
  /\ (exists rs, vol_records vol' = vol_records vol ++ rs)
  /\ (n = -1 -> vol_blocks vol' = vol_blocks vol)
  /\ (n <> -1 -> exists b, vol_blocks vol' = vol_blocks vol ++ [b]).
Proof.
  intros Hs.
  destruct (decide (n = -1)) as [->|Hn].
  2:{ apply scatter_success in Hs as (_ & _ & _ & records & _ & Hr & Hb & Hle);
        [|done..].
      repeat split; eauto; done. }
  assert (Hnil : exists rs, vol_records vol = vol_records vol ++ rs).
  { exists []. by rewrite app_nil_r. }
  unfold Dedup.scatter in Hs.
  destruct (Z.of_nat (length data) >? UINT32_MAX);
    [injection Hs as <-; repeat split; (apply data_le_refl || done)|].
  destruct (Z.of_nat (length data) <? blockheader_size) eqn:Hbh;
    [injection Hs as <-; repeat split; (apply data_le_refl || done)|].
  set (block := slice 0 blockheader_size data) in *.
  set (bsize := Z.of_N (BlockSize block)) in *.
  destruct (Z.of_nat (length data) <? bsize) eqn:Hbs;
    [injection Hs as <-; repeat split; (apply data_le_refl || done)|].
  destruct (Dedup.scatter_loop _ _ _ _ _ _ _ _ _) as [res|] eqn:Hloop; [|done].
  pose proof (scatter_loop_keeps _ _ _ _ _ _ _ _ Hloop _ eq_refl)
    as (Hb & Hr & Hle).
  destruct res as [c recs v1|r v1].
  - pose proof (append_records_keeps v1 recs) as (Hb2 & (rs & Hr2) & Hd2).
    destruct (append_records v1 recs) as [[start|] v2];
      cbn [snd] in Hb2, Hr2, Hd2.
    + match type of Hs with context [append_block ?v ?b] =>
        pose proof (append_block_keeps v b) as (Hr3 & Hd3);
        destruct (append_block v b) as [[] v3] eqn:Hblk end;
        cbn [snd] in Hr3, Hd3.
      * injection Hs as Hc _.
        apply scatter_loop_done in Hloop as (-> & _); [|lia..].
        exfalso. unfold bsize in Hc. lia.
      * injection Hs as <-. apply append_block_failed in Hblk.
        rewrite Hd3, Hd2, Hr3, Hr2, Hr, Hblk, Hb2, Hb.
        repeat split; eauto; done.
    + injection Hs as <-. rewrite Hd2, Hr2, Hr, Hb2, Hb.
      repeat split; eauto; done.
  - injection Hs as _ <-. rewrite Hr, Hb. repeat split; eauto; done.
Qed.


Lemma scatter_success_ok vol data n vol' :
  scatter vol data = Some (n, vol') -> n <> -1 -> vol_ok vol' = true.
Proof.
  unfold Dedup.scatter. intros Hs Hn.
  destruct (Z.of_nat (length data) >? UINT32_MAX); [by injection Hs as <- <-|].
  destruct (Z.of_nat (length data) <? blockheader_size);
    [by injection Hs as <- <-|].
  destruct (Z.of_nat (length data) <? _); [by injection Hs as <- <-|].
  destruct (Dedup.scatter_loop _ _ _ _ _ _ _ _ _) as [[c recs v1|r v1]|] eqn:Hloop;
    [| |done].
  - destruct (append_records v1 recs) as [[start|] v2];
      [|by injection Hs as <- <-].
    destruct (append_block v2 _) as [[] v3] eqn:Hblk;
      [|by injection Hs as <- <-].
    injection Hs as _ <-. by eapply append_block_true_ok.
  - apply scatter_loop_return in Hloop as [-> _]. by injection Hs as <- <-.
Qed.

(** X2: [scatter] only appends.  Whatever it returns, every block descriptor,
    every run of record descriptors and every piece of payload that could be
    read from the volume before the call is read unchanged after it. *)
Theorem scatter_is_append_only vol data n vol' :
  scatter vol data = Some (n, vol') ->
  (forall i b, read_block vol i = Some b -> read_block vol' i = Some b)
  /\ (forall start count rs,
        read_records vol start count = Some rs ->
        read_records vol' start count = Some rs)
  /\ (forall file_index start sz bytes,
        read_data vol file_index start sz = Some bytes ->
        read_data vol' file_index start sz = Some bytes).
Proof.
  intros Hs.
  apply scatter_segments in Hs as (Hle & (rs & Hr) & Hfail & Hok).
  split; [|split].
  - intros i b. destruct (decide (n = -1)) as [Hn|Hn].
    + apply (read_block_app _ _ []). by rewrite app_nil_r, Hfail.
    + destruct (Hok Hn) as [b' Hb]. by apply (read_block_app _ _ [b']).
  - intros start count x. by apply (read_records_app _ _ rs).
  - intros file_index start sz bytes. by apply read_data_mono.
Qed.

(** X3: the value [scatter] returns is -1, and then [size()] is what it was,
    or it is the BlockSize field of the block header, which is at least the
    size of a block header and at most the number of bytes given, and then
    [size()] is one more.  Bytes past BlockSize are not counted. *)
Theorem scatter_returns_block_size vol data n vol' :
  scatter vol data = Some (n, vol') ->
  (n = -1 /\ size vol' = size vol)
  \/ (n = Z.of_N (BlockSize (slice 0 blockheader_size data))
      /\ blockheader_size <= n <= Z.of_nat (length data)
      /\ size vol' = size vol + 1).
Proof.
  intros Hs. destruct (decide (n = -1)) as [->|Hn].
  - left. apply scatter_segments in Hs as (_ & _ & Hfail & _).
    unfold size. by rewrite Hfail.
  - right.
    apply scatter_success in Hs as (-> & Hbh & Hbs & records & Hrecs & _ & Hb & _);
      [|done..].
    apply block_records_le in Hrecs; [|lia..].
    unfold size. rewrite Hb, length_app. simpl. lia.
Qed.

(** X4: [scatter] refuses a buffer that is longer than a [uint32] can count,
    shorter than a block header, or shorter than the BlockSize of its header,
    and a block whose BlockSize leaves room for less than one record header
    after the block header (unless it is the block header alone); it returns
    -1 and the volume is untouched. *)
Theorem scatter_rejects_malformed_block vol data :
  let size_ := Z.of_nat (length data) in
  let bsize := Z.of_N (BlockSize (slice 0 blockheader_size data)) in
  size_ > UINT32_MAX \/ size_ < blockheader_size \/ size_ < bsize
  \/ (bsize <> blockheader_size /\ bsize < blockheader_size + recheader_size) ->
  scatter vol data = Some (-1, vol).
Proof.
  intros size_ bsize Hbad. unfold Dedup.scatter. fold size_.
  destruct (size_ >? UINT32_MAX) eqn:H1; [done|].
  destruct (size_ <? blockheader_size) eqn:H2; [done|].
  fold bsize.
  destruct (size_ <? bsize) eqn:H3; [done|].
  destruct Hbad as [?|[?|[?|[Hne Hlt]]]]; [lia..|].
  simpl. replace (0 + blockheader_size =? 0 + bsize) with false by lia.
  unfold Dedup.scatter_record.
  by replace (0 + blockheader_size + recheader_size >? 0 + bsize) with true by lia.
Qed.

(** X5: a block that is its block header and nothing else is stored as a block
    descriptor with no record descriptor and no payload, and is read back. *)
Theorem scatter_header_only_block vol data size_ :
  vol_ok vol = true -> vol_faults vol = [] ->
  blockheader_size <= Z.of_nat (length data) <= UINT32_MAX ->
  Z.of_N (BlockSize (slice 0 blockheader_size data)) = blockheader_size ->
  blockheader_size <= size_ ->
  exists vol',
    scatter vol data = Some (blockheader_size, vol')
    /\ vol_blocks vol'
       = vol_blocks vol
         ++ [mk_block_header (slice 0 blockheader_size data)
                             (Z.of_nat (length (vol_records vol))) 0]
    /\ vol_records vol' = vol_records vol
    /\ vol_data vol' = vol_data vol
    /\ gather vol' (size vol) size_
       = (blockheader_size, slice 0 blockheader_size data).
Proof.
  intros Hok Hfaults Hlen Hbsize Hsize.
  assert (Hs : exists vol',
             scatter vol data = Some (blockheader_size, vol')
             /\ vol_blocks vol'
                = vol_blocks vol
                  ++ [mk_block_header (slice 0 blockheader_size data)
                        (Z.of_nat (length (vol_records vol))) 0]
             /\ vol_records vol' = vol_records vol
             /\ vol_data vol' = vol_data vol).
  { unfold Dedup.scatter.
    replace (Z.of_nat (length data) >? UINT32_MAX) with false by lia.
    replace (Z.of_nat (length data) <? blockheader_size) with false by lia.
    rewrite Hbsize.
    replace (Z.of_nat (length data) <? blockheader_size) with false by lia.
    simpl. rewrite Z.eqb_refl.
    unfold append_records, append_block, io_begin. simpl.
    rewrite Hok, Hfaults. simpl. rewrite Hok, Hfaults. simpl.
    eexists. split; [f_equal; f_equal; lia|]. simpl.
    by rewrite app_nil_r. }
  destruct Hs as (vol' & Hs & Hb & Hr & Hd).
  exists vol'. repeat split; try done.
  apply (gather_scatter _ _ _ _ blockheader_size_pos recheader_size_pos
           _ _ _ _ _ Hs); lia.
Qed.

End CodecMore.

Section CodecSequence.
Import Dedup DedupFacts DedupMoreFacts.

Variable blockheader_size : Z.
Variable recheader_size : Z.
Variable BlockSize : list byte -> N.
Variable DataSize : list byte -> N.

Hypothesis blockheader_size_pos : 0 < blockheader_size.
Hypothesis recheader_size_pos : 0 < recheader_size.

Local Abbreviation scatter_record := (scatter_record recheader_size DataSize).
Local Abbreviation scatter_loop := (scatter_loop recheader_size DataSize).
Local Abbreviation scatter :=
  (scatter blockheader_size recheader_size BlockSize DataSize).
Local Abbreviation scatter_all :=
  (Dedup.scatter_all blockheader_size recheader_size BlockSize DataSize).
Local Abbreviation block_records := (block_records recheader_size DataSize).
Local Abbreviation gather_loop := (gather_loop recheader_size).
Local Abbreviation gather := (gather blockheader_size recheader_size BlockSize).

(** [gather] of a block whose descriptors are in the volume *)
Lemma gather_stored vol (i : nat) start records data size_ :
  let block := slice 0 blockheader_size data in
  let bsize := Z.of_N (BlockSize block) in
  vol_blocks vol !! i
  = Some (mk_block_header block start (Z.of_nat (length records))) ->
  read_records vol start (Z.of_nat (length records)) = Some records ->
  block_records vol data bsize blockheader_size records ->
  blockheader_size <= Z.of_nat (length data) ->
  bsize <= Z.of_nat (length data) -> bsize <= size_ ->
  gather vol (Z.of_nat i) size_ = (bsize, slice 0 bsize data).
Proof.
  intros block bsize Hblock Hrecords Hrecs Hbh Hbs Hsize.
  pose proof (block_records_le _ _ recheader_size_pos _ _ _ _ _ Hrecs) as Hle.
  unfold Dedup.gather, read_block.
  replace (Z.of_nat i <? 0) with false by lia.
  rewrite Nat2Z.id, Hblock. simpl. fold block. fold bsize.
  replace (bsize >? size_) with false by lia.
  unfold wb_write. simpl.
  change (0 + blockheader_size) with blockheader_size.
  replace (blockheader_size >? size_) with false by lia.
  rewrite length_replicate, !Nat2Z.id, Hrecords.
  unfold block.
  rewrite resize_all_alt by (apply Nat2Z.inj; rewrite length_slice; lia).
  eapply gather_loop_block; try done; lia.
Qed.

Lemma scatter_all_stored blocks :
  forall vol vol',
    scatter_all vol blocks = Some vol' ->
    (exists bs, vol_blocks vol' = vol_blocks vol ++ bs)
    /\ (exists rs, vol_records vol' = vol_records vol ++ rs)
    /\ data_le (vol_data vol) (vol_data vol')
    /\ forall (i : nat) data,
         blocks !! i = Some data ->
         let block := slice 0 blockheader_size data in
         let bsize := Z.of_N (BlockSize block) in
         exists start records,
           vol_blocks vol' !! (length (vol_blocks vol) + i)%nat
           = Some (mk_block_header block start (Z.of_nat (length records)))
           /\ read_records vol' start (Z.of_nat (length records))
              = Some records
           /\ block_records vol' data bsize blockheader_size records
           /\ blockheader_size <= Z.of_nat (length data)
           /\ bsize <= Z.of_nat (length data).
Proof.
  induction blocks as [|d rest IH]; intros vol vol'; simpl.
  - intros [= <-]. split; [exists []; by rewrite app_nil_r|].
    split; [exists []; by rewrite app_nil_r|].
    split; [apply data_le_refl|]. intros i data Hi. by destruct i.
  - destruct (scatter vol d) as [[n vol1]|] eqn:Hs; [|done].
    destruct (n =? -1) eqn:Hn; [done|]. intros Hrest.
    apply IH in Hrest as ((bs & Hb') & (rs & Hr') & Hle' & Hstored).
    apply scatter_success in Hs
      as (_ & Hbh & Hbs & records & Hrecs & Hr & Hb & Hle); [|done|done|lia].
    split; [exists ([mk_block_header (slice 0 blockheader_size d)
                       (Z.of_nat (length (vol_records vol)))
                       (Z.of_nat (length records))] ++ bs);
            by rewrite Hb', Hb, <- app_assoc|].
    split; [exists (records ++ rs); by rewrite Hr', Hr, <- app_assoc|].
    split; [by eapply data_le_trans|].
    intros [|i] data Hi; simpl in Hi.
    + injection Hi as <-. cbv zeta.
      exists (Z.of_nat (length (vol_records vol))), records.
      split; [|split; [|split; [|done]]].
      * rewrite Hb', Hb, Nat.add_0_r, <- app_assoc.
        by rewrite lookup_app_r, Nat.sub_diag by lia.
      * apply (read_records_app vol1 _ rs); [done|].
        unfold read_records. rewrite Hr, length_app.
        replace ((0 <=? Z.of_nat (length (vol_records vol)))
                 && (0 <=? Z.of_nat (length records))
                 && (Z.of_nat (length (vol_records vol))
                     + Z.of_nat (length records)
                     <=? Z.of_nat (length (vol_records vol) + length records)))
          with true by lia.
        by rewrite slice_app_r.
      * by eapply block_records_mono.
    + specialize (Hstored i data Hi). cbv zeta in Hstored |- *.
      destruct Hstored as (start & recs & Hlook & Hrest).
      exists start, recs. split; [|done].
      rewrite <- Hlook. f_equal. rewrite Hb, length_app. simpl. lia.
Qed.

(** X6: the blocks of a sequence of successful calls of [scatter] are all
    read back by [gather], each at the index it was written at and byte for
    byte up to its BlockSize, whatever has been written after it. *)
Theorem gather_after_scatter_all vol blocks vol' (i : nat) data size_ :
  scatter_all vol blocks = Some vol' ->
  blocks !! i = Some data ->
  Z.of_N (BlockSize (slice 0 blockheader_size data)) <= size_ ->
  gather vol' (size vol + Z.of_nat i) size_
  = (Z.of_N (BlockSize (slice 0 blockheader_size data)),
     slice 0 (Z.of_N (BlockSize (slice 0 blockheader_size data))) data).
Proof.
  intros Hall Hi Hsize.
  apply scatter_all_stored in Hall as (_ & _ & _ & Hstored).
  destruct (Hstored i data Hi) as (start & records & Hb & Hr & Hrecs & Hbh & Hbs).
  unfold size. rewrite <- Nat2Z.inj_add.
  by eapply gather_stored.
Qed.

(** what [scatter_loop] reads of [data] lies before [end_] *)
Lemma scatter_loop_app data extra block end_ fuel :
  end_ <= Z.of_nat (length data) ->
  forall vol current acc,
    0 <= current ->
    scatter_loop fuel vol (data ++ extra) block current end_ acc
    = scatter_loop fuel vol data block current end_ acc.
Proof.
  intros Hend. induction fuel as [|fuel IH]; intros vol current acc Hcur;
    simpl; [done|].
  destruct (current =? end_); [done|].
  unfold Dedup.scatter_record.
  destruct (current + recheader_size >? end_) eqn:Hfit; [done|].
  rewrite (slice_app_l current recheader_size) by lia.
  set (record := slice current recheader_size data).
  set (payload_start := current + recheader_size).
  set (dsize := Z.of_N (DataSize record)).
  assert (0 <= dsize) by (unfold dsize; lia).
  set (payload_end := if payload_start + dsize >? end_ then end_
                      else payload_start + dsize).
  assert (payload_start <= payload_end <= end_).
  { unfold payload_end. destruct (payload_start + dsize >? end_) eqn:E; lia. }
  rewrite (slice_app_l payload_start) by lia.
  destruct (append_data vol block record _) as [[loc|] v1]; [|done].
  apply IH. lia.
Qed.


(** the loop of [gather] keeps the cursor of the buffer inside the buffer *)
Lemma gather_loop_bounds vol records :
  forall buf n bytes,
    gather_loop vol records buf = (n, bytes) ->
    0 <= wb_current buf <= wb_end buf ->
    Z.of_nat (length (wb_written buf)) = wb_current buf ->
    n = -1
    \/ (wb_current buf <= n <= wb_end buf /\ Z.of_nat (length bytes) = n).
Proof.
  induction records as [|r rest IH]; intros buf n bytes; simpl.
  - intros [= <- <-] Hcur Hlen. right. lia.
  - unfold wb_write, wb_reserve.
    destruct (wb_current buf + recheader_size >? wb_end buf) eqn:Hw;
      [intros [= <- <-]; by left|].
    simpl.
    destruct (wb_current buf + recheader_size + rec_size r >? wb_end buf)
      eqn:Hres; [intros [= <- <-]; by left|].
    destruct (read_data vol _ _ _) as [payload|] eqn:Hread;
      [|intros [= <- <-]; by left].
    apply read_data_length in Hread as [Hsz Hlen'].
    intros Hloop Hcur Hlen.
    apply IH in Hloop as [->|[Hn Hbytes]]; simpl.
    + by left.
    + right. simpl in Hn. lia.
    + lia.
    + rewrite !length_app, length_resize. lia.
Qed.


End CodecSequence.

Section DeviceMore.
Import Dedup DedupFacts DedupMoreFacts.

Variable blockheader_size : Z.
Variable recheader_size : Z.
Variable BlockSize : list byte -> N.
Variable DataSize : list byte -> N.

Hypothesis blockheader_size_pos : 0 < blockheader_size.
Hypothesis recheader_size_pos : 0 < recheader_size.

Local Abbreviation scatter :=
  (scatter blockheader_size recheader_size BlockSize DataSize).
Local Abbreviation gather :=
  (gather blockheader_size recheader_size BlockSize).
Local Abbreviation d_write :=
  (d_write blockheader_size recheader_size BlockSize DataSize).
Local Abbreviation d_read :=
  (d_read blockheader_size recheader_size BlockSize).

(** X9: what [d_write] has written, [d_read] reads back.  After a
    [d_write] that did not return -1 the cursor is still on the block just
    written: [d_read] with the same descriptor and a buffer of at least that
    many bytes returns the same count and the bytes of the block, and the
    device is at the end of the tape. *)
Theorem d_write_then_d_read dev data n dev' size_ :
  d_write dev (fd_ctr dev) data = Returns (n, dev') -> n <> -1 -> n <= size_ ->
  block_number (file dev) (block_num dev) + 1 < 2 ^ 64 ->
  d_read dev' (fd_ctr dev') size_ = Returns (n, slice 0 n data, dev')
  /\ eot dev' = true.
Proof.
  unfold Dedup.d_write. rewrite Z.eqb_refl. simpl.
  destruct (open_volume dev) as [vol|] eqn:Hopen; [|by intros [= <- <-]].
  destruct (is_ok vol) eqn:Hok; simpl; [|done].
  set (cur := block_number (file dev) (block_num dev)).
  set (vol1 := if (cur =? 0) && (size vol =? 1) then (reset vol).2 else vol).
  destruct (cur =? size vol1) eqn:Hat; simpl; [|by intros [= <- <-]].
  destruct (Dedup.scatter _ _ _ _ vol1 data) as [[r vol']|] eqn:Hs; [|done].
  intros [= -> <-] Hn Hsize Hmax.
  assert (Hok' : vol_ok vol' = true) by (eapply scatter_success_ok; eassumption).
  assert (Hgather : gather vol' (size vol1) size_ = (n, slice 0 n data)).
  { eapply gather_scatter; eassumption. }
  assert (Hsz : size vol' = size vol1 + 1).
  { eapply scatter_success in Hs as (_ & _ & _ & records & _ & _ & Hb & _);
      [|eassumption..].
    unfold size. rewrite Hb, length_app. simpl. lia. }
  unfold Dedup.d_read.
  cbn [fd_ctr open_volume set_open_volume SetEot set_eot file block_num].
  rewrite Z.eqb_refl. cbn [negb].
  unfold is_ok. rewrite Hok'. cbn [negb]. fold cur.
  replace cur with (size vol1) by lia.
  rewrite Hgather.
  replace ((size vol1 + 1) mod 2 ^ 64 =? size vol') with true.
  - done.
  - symmetry. apply Z.eqb_eq. fold cur in Hmax.
    rewrite Z.mod_small; unfold size in *; lia.
Qed.



(** X12: without an open volume [d_truncate], [rewind], [Reposition],
    [eod] and [d_flush] report success: their [return -1] is the [bool]
    [true].  They leave the device as it is. *)
Theorem no_open_volume_reports_success me dev fs rfile rblock :
  open_volume dev = None ->
  d_truncate me dev fs = Returns (true, dev, fs)
  /\ rewind dev = Returns (true, dev)
  /\ Reposition dev rfile rblock = Returns (true, dev)
  /\ eod dev = Returns (true, dev)
  /\ d_flush dev = Returns (true, dev).
Proof.
  intros Hopen.
  unfold d_truncate, rewind, Reposition, eod, d_flush. by rewrite Hopen.
Qed.

(** X13: [rewind] is [Reposition] to file 0, block 0 (the device keeps
    [file_addr] at 0): the cursor is on the first block, and the end of tape
    is set exactly when the volume is empty. *)
Theorem rewind_is_Reposition_to_start dev :
  file_addr dev = 0 ->
  rewind dev = Reposition dev 0 0
  /\ forall r dev', rewind dev = Returns (r, dev') ->
       is_Some (open_volume dev) ->
       r = true /\ file dev' = 0 /\ block_num dev' = 0 /\ file_addr dev' = 0
       /\ (eot dev' = true <-> (size <$> open_volume dev) = Some 0).
Proof.
  intros Haddr. unfold rewind, Reposition. rewrite Haddr.
  destruct (open_volume dev) as [vol|] eqn:Hopen.
  2:{ split; [done|]. by intros r dev' _ [? ?]. }
  destruct (is_ok vol); cbn [negb]; [|done]. cbv zeta.
  cbn [file block_num set_position].
  change (block_number 0 0) with 0. rewrite (Z.eqb_sym 0).
  split; [done|]. intros r dev' [= <- <-] _.
  destruct (size vol =? 0) eqn:E; cbn; repeat split; try done.
  - intros _. f_equal. lia.
  - intros [= ?]. lia.
Qed.

(** X14: a [d_truncate] with a secure-erase command has closed the
    volume before it deletes it: when the deletion fails it returns false and
    the device is left with no open volume, so the descriptor no longer
    writes. *)
Theorem d_truncate_failed_erase_closes me cmd dev fs vol fs1 data :
  secure_erase_cmdline me = Some cmd ->
  open_volume dev = Some vol -> is_ok vol = true ->
  delete_volume (volume_close fs vol) (name vol) = (false, fs1) ->
  d_truncate me dev fs = Returns (false, set_open_volume None dev, fs1)
  /\ d_write (set_open_volume None dev) (fd_ctr dev) data
     = Returns (-1, set_open_volume None dev).
Proof.
  intros Hme Hopen Hok Hdel. unfold Dedup.d_truncate, Dedup.d_write.
  rewrite Hopen, Hok, Hme. cbn [negb]. cbv zeta. rewrite Hdel.
  cbn [fd_ctr open_volume set_open_volume]. by rewrite Z.eqb_refl.
Qed.
End DeviceMore.

Section OpenClose.
Import Dedup DedupFacts DedupMoreFacts.

Variable blockheader_size : Z.
Variable recheader_size : Z.
Variable BlockSize : list byte -> N.
Variable DataSize : list byte -> N.
Variable parse_options : string -> options + string.
Variable size_to_uint64 : string -> option Z.

Local Abbreviation parse := (parse parse_options size_to_uint64).
Local Abbreviation d_open := (d_open parse_options size_to_uint64).
Local Abbreviation d_write :=
  (d_write blockheader_size recheader_size BlockSize DataSize).
Local Abbreviation d_read :=
  (d_read blockheader_size recheader_size BlockSize).

(** X15: [d_open] returns -1 and changes neither the device nor the
    filesystem when a volume is already open, when the mode is not one of the
    four device modes, when the device has no options, and when the options
    do not parse. *)
Theorem d_open_refuses dev fs path mode :
  is_Some (open_volume dev) \/ open_mode dev = kUndefined
  \/ dev_options dev = None
  \/ (exists o emsg, dev_options dev = Some o /\ parse o = inr emsg) ->
  d_open dev fs path mode = (-1, dev, fs).
Proof.
  unfold Dedup.d_open. intros [[vol Hopen]|[Hmode|[Hopts|(o & emsg & Hopts & Hparse)]]].
  - by rewrite Hopen.
  - rewrite Hmode. by destruct (open_volume dev).
  - rewrite Hopts. by destruct (open_volume dev), (open_mode dev).
  - rewrite Hopts, Hparse. by destruct (open_volume dev), (open_mode dev).
Qed.

(** X16: every successful [d_open] counts the descriptor up, so the
    descriptor of a volume that has been closed is dead: after the next
    [d_open], [d_write], [d_read] and [d_close] with the old descriptor return
    -1 and change nothing. *)
Theorem stale_descriptor_is_rejected dev fs path mode fd1 dev1 fs1 dev2 fs2
    path' mode' fd2 dev3 fs3 data size_ :
  d_open dev fs path mode = (fd1, dev1, fs1) -> fd1 <> -1 ->
  d_close dev1 fs1 fd1 = (0, dev2, fs2) ->
  d_open dev2 fs2 path' mode' = (fd2, dev3, fs3) -> fd2 <> -1 ->
  fd2 = fd1 + 1
  /\ d_write dev3 fd1 data = Returns (-1, dev3)
  /\ d_read dev3 fd1 size_ = Returns (-1, [], dev3)
  /\ d_close dev3 fs3 fd1 = (-1, dev3, fs3).
Proof.
  intros Hopen1 Hfd1 Hclose Hopen2 Hfd2.
  apply d_open_returns_fd_ctr in Hopen1 as [[? _]|(_ & _ & Hctr1 & ->)];
    [done|].
  apply d_open_returns_fd_ctr in Hopen2 as [[? _]|(_ & _ & Hctr2 & ->)];
    [done|].
  assert (Hctr : fd_ctr dev2 = fd_ctr dev1).
  { unfold Dedup.d_close in Hclose.
    destruct (negb (fd_ctr dev1 =? fd_ctr dev1)); [by injection Hclose|].
    destruct (open_volume dev1); [|by injection Hclose].
    by injection Hclose as <- _. }
  split; [lia|].
  unfold Dedup.d_write, Dedup.d_read, Dedup.d_close.
  by replace (fd_ctr dev1 =? fd_ctr dev3) with false by lia.
Qed.

(** X17: [d_close] returns 0 exactly when the descriptor is the current
    one and a volume is open; then no volume is open afterwards and a second
    [d_close] with the same descriptor returns -1.  Otherwise it returns -1
    and changes nothing. *)
Theorem d_close_closes dev fs fd r dev' fs' :
  d_close dev fs fd = (r, dev', fs') ->
  (r = 0 <-> fd = fd_ctr dev /\ is_Some (open_volume dev))
  /\ (r = 0 ->
      open_volume dev' = None /\ fd_ctr dev' = fd_ctr dev
      /\ d_close dev' fs' fd = (-1, dev', fs'))
  /\ (r <> 0 -> r = -1 /\ dev' = dev /\ fs' = fs).
Proof.
  unfold Dedup.d_close.
  destruct (fd =? fd_ctr dev) eqn:Hfd; cbn [negb].
  - destruct (open_volume dev) as [vol|] eqn:Hopen; intros [= <- <- <-].
    + cbn [open_volume set_open_volume fd_ctr]. rewrite Hfd. cbn [negb].
      repeat split; first [done | lia | by eexists].
    + repeat split; first [done | by intros [_ [? ?]]].
  - intros [= <- <- <-]. repeat split; first [done | intros [? _]; lia].
Qed.

End OpenClose.

Module FilesystemFacts.
Import Dedup DedupFacts.

Lemma SecureErase_scope fs path file r fs' :
  SecureErase fs path file = (r, fs') ->
  forall p, p <> path -> fs' !! p = fs !! p.
Proof.
  unfold SecureErase. intros H p Hp.
  destruct (fs !! path) as [d|]; [|by injection H as _ <-].
  destruct (list_find _ _) as [[i [n c]]|]; [|by injection H as _ <-].
  destruct c as [| | | |[]|]; injection H as _ <-; try done;
    by rewrite lookup_insert_ne.
Qed.

Lemma erase_files_scope path files :
  forall fs r fs',
    erase_files fs path files = (r, fs') ->
    forall p, p <> path -> fs' !! p = fs !! p.
Proof.
  induction files as [|file rest IH]; intros fs r fs'; simpl.
  - by intros [= _ <-].
  - destruct (SecureErase fs path file) as [z fs1] eqn:He.
    pose proof (SecureErase_scope _ _ _ _ _ He) as Hscope.
    destruct z; [|intros [= _ <-]; done..].
    intros Hrest p Hp. rewrite (IH _ _ _ Hrest p Hp). by apply Hscope.
Qed.

Lemma delete_volume_gone fs path fs' :
  delete_volume fs path = (true, fs') -> fs' !! path = None.
Proof.
  unfold delete_volume.
  destruct (fs !! path) as [d|]; [|done].
  destruct (existsb is_directory (dir_entries d)); [done|].
  destruct (erase_files fs path (map fst (dir_entries d))) as [[] fs1];
    [|done].
  destruct (fs1 !! path) as [d'|]; [|done].
  destruct (dir_entries d') as [|e es]; [|done].
  intros [= <-]. apply lookup_delete_eq.
Qed.

End FilesystemFacts.

Section TruncateMore.
Import Dedup DedupFacts FilesystemFacts.

(** X18: [delete_volume] touches the directory of the volume only.  When
    it returns true the directory is gone; when the directory holds a
    sub-directory, or is not there, it returns false and nothing has been
    erased. *)
Theorem delete_volume_scope fs path r fs' :
  delete_volume fs path = (r, fs') ->
  (forall p, p <> path -> fs' !! p = fs !! p)
  /\ (r = true -> fs' !! path = None)
  /\ (forall d, fs !! path = Some d ->
                existsb is_directory (dir_entries d) = true ->
                r = false /\ fs' = fs)
  /\ (fs !! path = None -> r = false /\ fs' = fs).
Proof.
  unfold delete_volume. intros H.
  destruct (fs !! path) as [d|] eqn:Hd.
  2:{ injection H as <- <-. repeat split; (done || by intros). }
  destruct (existsb is_directory (dir_entries d)) eqn:Hdir.
  { injection H as <- <-. repeat split; (done || (intros; congruence)). }
  destruct (erase_files fs path (map fst (dir_entries d))) as [b fs1] eqn:He.
  pose proof (erase_files_scope _ _ _ _ _ He) as Hscope.
  assert (Hrest : (forall d0, Some d = Some d0 ->
                     existsb is_directory (dir_entries d0) = true ->
                     r = false /\ fs' = fs)
                  /\ (Some d = None -> r = false /\ fs' = fs)).
  { split; [|by intros [=]]. intros d0 [= <-] Htrue. congruence. }
  destruct b.
  - destruct (fs1 !! path) as [d'|] eqn:Hd'.
    + destruct (dir_entries d') as [|e es].
      * injection H as <- <-. split; [|split; [|done]].
        -- intros p Hp. rewrite lookup_delete_ne by done. by apply Hscope.
        -- intros _. apply lookup_delete_eq.
      * injection H as <- <-. split; [done|]. split; [done|done].
    + injection H as <- <-. split; [done|]. split; [done|done].
  - injection H as <- <-. split; [done|]. split; [done|done].
Qed.

(** X19: after a [d_truncate] that returns true the device has an open
    volume that is ok and empty (no block, no record descriptor, no payload)
    under the name and with the permissions of the volume that was open, with
    and without a secure-erase command. *)
Theorem d_truncate_empties_volume me dev fs vol dev' fs' :
  open_volume dev = Some vol ->
  d_truncate me dev fs = Returns (true, dev', fs') ->
  exists vol',
    open_volume dev' = Some vol' /\ is_ok vol' = true /\ size vol' = 0
    /\ vol_records vol' = [] /\ vol_data vol' = []
    /\ name vol' = name vol /\ get_permissions vol' = get_permissions vol.
Proof.
  intros Hopen. unfold d_truncate. rewrite Hopen.
  destruct (is_ok vol) eqn:Hok; cbn [negb]; [|done].
  destruct (secure_erase_cmdline me) as [cmd|].
  - cbv zeta.
    destruct (delete_volume (volume_close fs vol) (name vol)) as [b fs1] eqn:Hdel.
    destruct b; [|done].
    apply delete_volume_gone in Hdel as Hgone.
    unfold volume_open. cbn [open_mode set_open_mode]. rewrite Hgone.
    cbn [is_ok vol_ok negb]. intros [= <- <-].
    eexists. split; [reflexivity|]. done.
  - destruct (reset vol) as [r vol'] eqn:Hreset. intros [= -> <- <-].
    apply reset_ok in Hreset as (Hok' & Hb & Hr & Hd & Hn & Hp & _).
    exists vol'. unfold size, is_ok, name, get_permissions.
    rewrite Hb. done.
Qed.

End TruncateMore.

Section OptionsMore.
Import Dedup.

Variable parse_options : string -> options + string.
Variable size_to_uint64 : string -> option Z.

Local Abbreviation parse := (parse parse_options size_to_uint64).

Lemma options_erase_length key val o :
  options_find key o = Some val ->
  S (length (options_erase key o)) = length o.
Proof.
  induction o as [|[k v] o IH]; simpl; [done|].
  destruct (String.eqb k key); [done|]. intros H. simpl. by rewrite IH.
Qed.

(** X20: when the options give [blocksize] a value that [size_to_uint64]
    accepts, [parse] succeeds with that block size, whatever it is; the
    warnings are empty exactly when [blocksize] is the only option, and
    otherwise they start with "Unknown options: ". *)
Theorem parse_takes_blocksize v opts val n :
  parse_options v = inl opts ->
  NoDup (map fst opts) -> In ("blocksize"%string, val) opts ->
  size_to_uint64 val = Some n ->
  exists r,
    parse v = inl r /\ blocksize r = n
    /\ (warnings r = ""%string <-> length opts = 1%nat)
    /\ (length opts <> 1%nat ->
        exists rest, warnings r = ("Unknown options: " ++ rest)%string).
Proof.
  intros Hopts Hnodup Hin Hsize. unfold Dedup.parse.
  rewrite Hopts, (options_find_present _ _ _ Hnodup Hin), Hsize.
  pose proof (options_erase_length _ _ _
                (options_find_present _ _ _ Hnodup Hin)) as Hlen.
  destruct (options_erase "blocksize" opts) as [|e rest] eqn:Herase.
  - simpl. eexists. split; [reflexivity|]. simpl in *.
    repeat split; first [done | intros H; by rewrite <- Hlen in H].
  - cbn [length Nat.ltb Nat.leb]. cbn [length] in Hlen.
    eexists. split; [reflexivity|]. cbn [blocksize warnings].
    split; [done|]. split.
    + split; [by intros [=]|]. intros H. rewrite H in Hlen. lia.
    + intros _. by eexists.
Qed.

End OptionsMore.

Section MountMore.
Import Dedup.

(** X21: [MountBackend] and [UnmountBackend] report whether they changed
    the state: mounting returns true only on a device that was not mounted,
    unmounting only on one that was; done twice, the second call returns
    false; neither touches the open volume. *)
Theorem mount_reports_the_transition dev :
  (MountBackend dev).1 = negb (mounted dev)
  /\ mounted (MountBackend dev).2 = true
  /\ MountBackend (MountBackend dev).2 = (false, (MountBackend dev).2)
  /\ (UnmountBackend dev).1 = mounted dev
  /\ mounted (UnmountBackend dev).2 = false
  /\ UnmountBackend (UnmountBackend dev).2 = (false, (UnmountBackend dev).2)
  /\ (UnmountBackend (MountBackend dev).2).1 = true
  /\ (MountBackend (UnmountBackend dev).2).1 = true
  /\ open_volume (MountBackend dev).2 = open_volume dev
  /\ open_volume (UnmountBackend dev).2 = open_volume dev.
Proof. by destruct dev. Qed.

End MountMore.

Section ScanMore.
Import Dedup.

Variable VolumeCatalogInfo : Type.
Variable VolumeName_size : nat.
Variable directory_iterator : string -> list directory_entry.
Variable DirGetVolumeInfo :
  DeviceControlRecord VolumeCatalogInfo
  -> bool * DeviceControlRecord VolumeCatalogInfo.

Local Abbreviation scan_entries :=
  (scan_entries VolumeCatalogInfo VolumeName_size DirGetVolumeInfo).
Local Abbreviation ScanForVolumeImpl :=
  (ScanForVolumeImpl VolumeCatalogInfo VolumeName_size directory_iterator
                     DirGetVolumeInfo).

(** the Director's answer depends on the volume name only *)
Variable accepts : string -> bool.
Hypothesis DirGetVolumeInfo_accepts :
  forall dcr, (DirGetVolumeInfo dcr).1 = accepts (VolumeName dcr).

Lemma scan_entries_first entries :
  forall dcr r dcr',
    scan_entries entries dcr = (r, dcr') ->
    if r then
      exists before entry after info,
        entries = before ++ entry :: after
        /\ scan_candidate entry = true
        /\ accepts (bstrncpy (entry_filename entry) VolumeName_size) = true
        /\ Forall (fun e => scan_candidate e = true ->
                            accepts (bstrncpy (entry_filename e)
                                              VolumeName_size) = false)
                  before
        /\ DirGetVolumeInfo
             (mk_dcr (bstrncpy (entry_filename entry) VolumeName_size) info)
           = (true, dcr')
    else
      Forall (fun e => scan_candidate e = true ->
                       accepts (bstrncpy (entry_filename e) VolumeName_size)
                       = false) entries.
Proof.
  induction entries as [|e rest IH]; intros dcr r dcr'; simpl.
  - intros [= <- <-]. constructor.
  - assert (Hskip : scan_candidate e = false ->
              scan_entries rest dcr = (r, dcr') ->
              if r
              then exists before entry after info,
                     e :: rest = before ++ entry :: after
                     /\ scan_candidate entry = true
                     /\ accepts (bstrncpy (entry_filename entry)
                                          VolumeName_size) = true
                     /\ Forall (fun e => scan_candidate e = true ->
                                  accepts (bstrncpy (entry_filename e)
                                             VolumeName_size) = false) before
                     /\ DirGetVolumeInfo
                          (mk_dcr (bstrncpy (entry_filename entry)
                                            VolumeName_size) info)
                        = (true, dcr')
              else Forall (fun e => scan_candidate e = true ->
                             accepts (bstrncpy (entry_filename e)
                                        VolumeName_size) = false) (e :: rest)).
    { intros Hno Hrest. apply IH in Hrest. destruct r.
      - destruct Hrest as (before & entry & after & info & -> & ? & ? & ? & ?).
        exists (e :: before), entry, after, info.
        repeat split; try done. constructor; [|done]. by rewrite Hno.
      - constructor; [|done]. by rewrite Hno. }
    destruct (entry_exists e) eqn:Hex; cbn [negb];
      [|apply Hskip; unfold scan_candidate; by rewrite Hex].
    destruct (entry_is_directory e) eqn:Hisdir; cbn [negb];
      [|apply Hskip; unfold scan_candidate; by rewrite Hex, Hisdir].
    destruct (String.eqb (entry_filename e) "."
              || String.eqb (entry_filename e) "..") eqn:Hdot;
      [apply Hskip; unfold scan_candidate; by rewrite Hex, Hisdir, Hdot|].
    clear Hskip.
    assert (Hcand : scan_candidate e = true)
      by (unfold scan_candidate; by rewrite Hex, Hisdir, Hdot).
    pose proof (DirGetVolumeInfo_accepts
                  (mk_dcr (bstrncpy (entry_filename e) VolumeName_size)
                          (dcr_VolCatInfo dcr))) as Hacc.
    destruct (DirGetVolumeInfo _) as [[] d1] eqn:Hdir; cbn in Hacc.
    + intros [= <- <-]. exists [], e, rest, (dcr_VolCatInfo dcr).
      repeat split; first [done | constructor].
    + intros Hrest. apply IH in Hrest. destruct r.
      * destruct Hrest as (before & entry & after & info & -> & ? & ? & ? & ?).
        exists (e :: before), entry, after, info.
        repeat split; try done. by constructor.
      * by constructor.
Qed.



End ScanMore.

(** ** Instances of these properties *)

Ltac by_computation :=
  first [reflexivity | vm_compute; reflexivity | lia | vm_compute; discriminate
        | vm_compute; lia].

Lemma block_number_cursor_witness :
  Dedup.block_number 1 2 = 1 * 2 ^ 32 + 2
  /\ Z.shiftr (Dedup.block_number 1 2) 32 mod 2 ^ 32 = 1
  /\ Dedup.block_number 1 2 mod 2 ^ 32 = 2.
Proof. apply block_number_cursor; lia. Defined.



Lemma scatter_is_append_only_witness :
  (forall i b, Dedup.read_block Instances.labelled_volume i = Some b ->
               Dedup.read_block Instances.two_block_volume i = Some b)
  /\ (forall start count rs,
        Dedup.read_records Instances.labelled_volume start count = Some rs ->
        Dedup.read_records Instances.two_block_volume start count = Some rs)
  /\ (forall file_index start sz bytes,
        Dedup.read_data Instances.labelled_volume file_index start sz
        = Some bytes ->
        Dedup.read_data Instances.two_block_volume file_index start sz = Some bytes).
Proof.
  eapply (scatter_is_append_only Instances.blockheader_size
            Instances.recheader_size Instances.BlockSize Instances.DataSize)
    with (data := Instances.one_record_block) (n := 48);
    by_computation.
Defined.

Lemma scatter_returns_block_size_witness :
  (48 = -1 /\ Dedup.size Instances.two_block_volume = Dedup.size Instances.labelled_volume)
  \/ (48 = Z.of_N (Instances.BlockSize
                     (slice 0 Instances.blockheader_size
                            Instances.one_record_block))
      /\ Instances.blockheader_size <= 48
         <= Z.of_nat (length Instances.one_record_block)
      /\ Dedup.size Instances.two_block_volume
         = Dedup.size Instances.labelled_volume + 1).
Proof.
  eapply (scatter_returns_block_size Instances.blockheader_size
            Instances.recheader_size Instances.BlockSize Instances.DataSize);
    by_computation.
Defined.

Lemma scatter_rejects_malformed_block_witness :
  Dedup.scatter Instances.blockheader_size Instances.recheader_size
    Instances.BlockSize Instances.DataSize Instances.labelled_volume
    (Instances.block_hdr 30)
  = Some (-1, Instances.labelled_volume).
Proof.
  eapply scatter_rejects_malformed_block.
  right. right. right. split; by_computation.
Defined.

Lemma scatter_header_only_block_witness :
  exists vol',
    Dedup.scatter Instances.blockheader_size Instances.recheader_size
      Instances.BlockSize Instances.DataSize Instances.labelled_volume
      Instances.header_only_block
    = Some (Instances.blockheader_size, vol')
    /\ Dedup.vol_blocks vol'
       = Dedup.vol_blocks Instances.labelled_volume
         ++ [Dedup.mk_block_header
               (slice 0 Instances.blockheader_size Instances.header_only_block)
               (Z.of_nat (length (Dedup.vol_records Instances.labelled_volume)))
               0]
    /\ Dedup.vol_records vol' = Dedup.vol_records Instances.labelled_volume
    /\ Dedup.vol_data vol' = Dedup.vol_data Instances.labelled_volume
    /\ Dedup.gather Instances.blockheader_size Instances.recheader_size
         Instances.BlockSize vol' (Dedup.size Instances.labelled_volume) 4096
       = (Instances.blockheader_size,
          slice 0 Instances.blockheader_size Instances.header_only_block).
Proof.
  eapply (scatter_header_only_block Instances.blockheader_size
            Instances.recheader_size Instances.BlockSize Instances.DataSize);
    try by_computation.
  split; by_computation.
Defined.

Lemma gather_after_scatter_all_witness :
  Dedup.gather Instances.blockheader_size Instances.recheader_size
    Instances.BlockSize Instances.three_block_volume
    (Dedup.size Instances.empty_volume + Z.of_nat 1) 4096
  = (Z.of_N (Instances.BlockSize
               (slice 0 Instances.blockheader_size Instances.one_record_block)),
     slice 0 (Z.of_N (Instances.BlockSize
                        (slice 0 Instances.blockheader_size
                               Instances.one_record_block)))
           Instances.one_record_block).
Proof.
  eapply (gather_after_scatter_all Instances.blockheader_size
            Instances.recheader_size Instances.BlockSize Instances.DataSize)
    with (blocks := [Instances.one_record_block; Instances.one_record_block;
                     Instances.truncated_block]);
    by_computation.
Defined.



Lemma d_write_then_d_read_witness :
  exists dev',
    Dedup.d_write Instances.blockheader_size Instances.recheader_size
      Instances.BlockSize Instances.DataSize
      (Instances.device_with (Some Instances.labelled_volume) 0 1) 1
      Instances.one_record_block
    = Dedup.Returns (48, dev')
    /\ Dedup.d_read Instances.blockheader_size Instances.recheader_size
         Instances.BlockSize dev' (Dedup.fd_ctr dev') 4096
       = Dedup.Returns (48, slice 0 48 Instances.one_record_block, dev')
    /\ Dedup.eot dev' = true.
Proof.
  eexists. split; [vm_compute; reflexivity|].
  eapply (d_write_then_d_read Instances.blockheader_size
            Instances.recheader_size Instances.BlockSize Instances.DataSize)
    with (dev := Instances.device_with (Some Instances.labelled_volume) 0 1);
    by_computation.
Defined.



Lemma no_open_volume_reports_success_witness :
  Dedup.d_truncate Instances.me_plain Instances.fresh_device ∅
  = Dedup.Returns (true, Instances.fresh_device, ∅)
  /\ Dedup.rewind Instances.fresh_device
     = Dedup.Returns (true, Instances.fresh_device)
  /\ Dedup.Reposition Instances.fresh_device 0 7
     = Dedup.Returns (true, Instances.fresh_device)
  /\ Dedup.eod Instances.fresh_device
     = Dedup.Returns (true, Instances.fresh_device)
  /\ Dedup.d_flush Instances.fresh_device
     = Dedup.Returns (true, Instances.fresh_device).
Proof. apply no_open_volume_reports_success. reflexivity. Defined.

Lemma rewind_is_Reposition_to_start_witness :
  Dedup.rewind (Instances.device_with (Some Instances.three_block_volume) 0 2)
  = Dedup.Reposition
      (Instances.device_with (Some Instances.three_block_volume) 0 2) 0 0
  /\ forall r dev',
       Dedup.rewind
         (Instances.device_with (Some Instances.three_block_volume) 0 2)
       = Dedup.Returns (r, dev') ->
       is_Some (Dedup.open_volume
                  (Instances.device_with (Some Instances.three_block_volume)
                                         0 2)) ->
       r = true /\ Dedup.file dev' = 0 /\ Dedup.block_num dev' = 0
       /\ Dedup.file_addr dev' = 0
       /\ (Dedup.eot dev' = true
           <-> (Dedup.size <$> Dedup.open_volume
                  (Instances.device_with (Some Instances.three_block_volume)
                                         0 2)) = Some 0).
Proof. apply rewind_is_Reposition_to_start. reflexivity. Defined.

Lemma d_truncate_failed_erase_closes_witness :
  Dedup.d_truncate Instances.me_secure_erase Instances.opened_device
                   Instances.guarded_filesystem
  = Dedup.Returns
      (false, Dedup.set_open_volume None Instances.opened_device,
       (Dedup.delete_volume
          (Dedup.volume_close Instances.guarded_filesystem
             (Dedup.mk_volume "/srv/vol1" Dedup.CREATE_READ_WRITE 416 8192
                              true [] [] [] []))
          "/srv/vol1").2)
  /\ Dedup.d_write Instances.blockheader_size Instances.recheader_size
       Instances.BlockSize Instances.DataSize
       (Dedup.set_open_volume None Instances.opened_device)
       (Dedup.fd_ctr Instances.opened_device) Instances.one_record_block
     = Dedup.Returns (-1, Dedup.set_open_volume None Instances.opened_device).
Proof.
  eapply (d_truncate_failed_erase_closes Instances.blockheader_size
            Instances.recheader_size Instances.BlockSize Instances.DataSize)
    with (vol := Dedup.mk_volume "/srv/vol1" Dedup.CREATE_READ_WRITE 416 8192
                                 true [] [] [] []).
  - reflexivity.
  - reflexivity.
  - reflexivity.
  - vm_compute. reflexivity.
Defined.


Lemma d_open_refuses_witness :
  Dedup.d_open Instances.parse_options Instances.size_to_uint64
    Instances.opened_device Instances.opened_filesystem "/srv/vol2" 416
  = (-1, Instances.opened_device, Instances.opened_filesystem).
Proof.
  apply d_open_refuses. left. eexists. reflexivity.
Defined.


Lemma stale_descriptor_is_rejected_witness :
  let closed :=
    Dedup.d_close Instances.opened_device Instances.opened_filesystem 1 in
  let reopened :=
    Dedup.d_open Instances.parse_options Instances.size_to_uint64
                 closed.1.2 closed.2 "/srv/vol1" 416 in
  reopened.1.1 = 1 + 1
  /\ Dedup.d_write Instances.blockheader_size Instances.recheader_size
       Instances.BlockSize Instances.DataSize reopened.1.2 1
       Instances.one_record_block
     = Dedup.Returns (-1, reopened.1.2)
  /\ Dedup.d_read Instances.blockheader_size Instances.recheader_size
       Instances.BlockSize reopened.1.2 1 4096
     = Dedup.Returns (-1, [], reopened.1.2)
  /\ Dedup.d_close reopened.1.2 reopened.2 1
     = (-1, reopened.1.2, reopened.2).
Proof.
  intros closed reopened.
  apply (stale_descriptor_is_rejected Instances.blockheader_size
           Instances.recheader_size Instances.BlockSize Instances.DataSize
           Instances.parse_options Instances.size_to_uint64
           Instances.fresh_device ∅ "/srv/vol1" 416 1
           Instances.opened_device Instances.opened_filesystem
           closed.1.2 closed.2 "/srv/vol1" 416
           reopened.1.1 reopened.1.2 reopened.2
           Instances.one_record_block 4096).
  - vm_compute. reflexivity.
  - lia.
  - vm_compute. reflexivity.
  - subst reopened. by destruct (Dedup.d_open _ _ _ _ _ _) as [[? ?] ?].
  - vm_compute. lia.
Defined.

Lemma d_close_closes_witness :
  (0 = 0 <-> 1 = Dedup.fd_ctr Instances.opened_device
             /\ is_Some (Dedup.open_volume Instances.opened_device))
  /\ (0 = 0 ->
      Dedup.open_volume
        (Dedup.d_close Instances.opened_device Instances.opened_filesystem 1)
        .1.2 = None
      /\ Dedup.fd_ctr
           (Dedup.d_close Instances.opened_device Instances.opened_filesystem
                          1).1.2
         = Dedup.fd_ctr Instances.opened_device
      /\ Dedup.d_close
           (Dedup.d_close Instances.opened_device Instances.opened_filesystem
                          1).1.2
           (Dedup.d_close Instances.opened_device Instances.opened_filesystem
                          1).2 1
         = (-1,
            (Dedup.d_close Instances.opened_device Instances.opened_filesystem
                           1).1.2,
            (Dedup.d_close Instances.opened_device Instances.opened_filesystem
                           1).2))
  /\ (0 <> 0 ->
      0 = -1
      /\ (Dedup.d_close Instances.opened_device Instances.opened_filesystem 1)
         .1.2 = Instances.opened_device
      /\ (Dedup.d_close Instances.opened_device Instances.opened_filesystem 1)
         .2 = Instances.opened_filesystem).
Proof.
  apply (d_close_closes Instances.opened_device Instances.opened_filesystem 1).
  vm_compute. reflexivity.
Defined.


Lemma delete_volume_scope_witness :
  (forall p, p <> "/srv/vol1"%string ->
             (Dedup.delete_volume Instances.opened_filesystem "/srv/vol1").2
             !! p = Instances.opened_filesystem !! p)
  /\ (true = true ->
      (Dedup.delete_volume Instances.opened_filesystem "/srv/vol1").2
      !! "/srv/vol1"%string = None)
  /\ (forall d, Instances.opened_filesystem !! "/srv/vol1"%string = Some d ->
                existsb Dedup.is_directory (Dedup.dir_entries d) = true ->
                true = false
                /\ (Dedup.delete_volume Instances.opened_filesystem
                                        "/srv/vol1").2
                   = Instances.opened_filesystem)
  /\ (Instances.opened_filesystem !! "/srv/vol1"%string = None ->
      true = false
      /\ (Dedup.delete_volume Instances.opened_filesystem "/srv/vol1").2
         = Instances.opened_filesystem).
Proof.
  apply (delete_volume_scope Instances.opened_filesystem "/srv/vol1").
  vm_compute. reflexivity.
Defined.


Lemma d_truncate_empties_volume_witness :
  exists vol',
    Dedup.open_volume
      (match Dedup.d_truncate Instances.me_secure_erase
               Instances.opened_device Instances.opened_filesystem with
       | Dedup.Returns (_, d, _) => d
       | _ => Instances.opened_device
       end) = Some vol'
    /\ Dedup.is_ok vol' = true /\ Dedup.size vol' = 0
    /\ Dedup.vol_records vol' = [] /\ Dedup.vol_data vol' = []
    /\ Dedup.name vol' = "/srv/vol1"%string
    /\ Dedup.get_permissions vol' = 416.
Proof.
  eapply (d_truncate_empties_volume Instances.me_secure_erase
            Instances.opened_device Instances.opened_filesystem
            (Dedup.mk_volume "/srv/vol1" Dedup.CREATE_READ_WRITE 416 8192
                             true [] [] [] [])).
  - reflexivity.
  - vm_compute. reflexivity.
Defined.


Lemma parse_takes_blocksize_witness :
  exists r,
    Dedup.parse Instances.parse_options Instances.size_to_uint64
                "blocksize=8k,foo=1" = inl r
    /\ Dedup.blocksize r = 8192
    /\ (Dedup.warnings r = ""%string
        <-> length [("blocksize", "8k"); ("foo", "1")]%string = 1%nat)
    /\ (length [("blocksize", "8k"); ("foo", "1")]%string <> 1%nat ->
        exists rest, Dedup.warnings r = ("Unknown options: " ++ rest)%string).
Proof.
  apply (parse_takes_blocksize Instances.parse_options
           Instances.size_to_uint64 "blocksize=8k,foo=1"
           [("blocksize", "8k"); ("foo", "1")]%string "8k" 8192).
  - vm_compute. reflexivity.
  - apply NoDup_cons. split.
    + intros H. apply list_elem_of_In in H. destruct H as [H|[]].
      discriminate H.
    + apply NoDup_cons. split; [|apply NoDup_nil; exact I].
      intros H. apply list_elem_of_In in H. destruct H.
  - left. reflexivity.
  - vm_compute. reflexivity.
Defined.


